(** * Name matching of PennMUSH (src/generic/match.c)

    A shallow embedding of the name-matching routines
    [noisy_match_result], [match_result], [match_result_internal],
    [matched], [match_obj_list], [match_attr_list], [choose_thing] and
    [parse_english], followed by the properties of the resolver that the
    specification states about them.

    The object database, the lock and permission predicates, the player
    lookup and the attribute iterator are collaborators of match.c that
    live in other files of the server; they are the fields of the record
    [World], and every theorem holds for every world. *)

From Stdlib Require Import ZArith List Bool Ascii String Lia.
Import ListNotations.

Local Open Scope string_scope.
Local Open Scope Z_scope.

(* ================================================================= *)
(** ** C integers *)

Definition dbref := Z.

(** Conversion of a [long] or an [unsigned long] to a 32-bit [int]
    (the low 32 bits, read as a two's complement number). *)
Definition int_of_long (z : Z) : Z := (z + 2 ^ 31) mod 2 ^ 32 - 2 ^ 31.

Definition ULONG_MAX : Z := 2 ^ 64 - 1.

(** A C truth value: an integer is true when it is not zero. *)
Definition truthy (z : Z) : bool := negb (z =? 0).

(* ================================================================= *)
(** ** Constants of the headers *)

(** Modelled from the spec: match.h, dbdefs.h and mushtype.h are not among
    the sources.  The option flags and the type tags are distinct single
    bits of a bitset (spec, section 6, "bitset, combinable"); the values
    below are the ones of the PennMUSH headers.  The reserved references
    are negative, so they never name a live entity. *)
Module Flags.
Definition MAT_CHECK_KEYS      : Z := 0x000001.
Definition MAT_GLOBAL          : Z := 0x000002.
Definition MAT_REMOTES         : Z := 0x000004.
Definition MAT_CONTROL         : Z := 0x000008.
Definition MAT_ME              : Z := 0x000010.
Definition MAT_HERE            : Z := 0x000020.
Definition MAT_ABSOLUTE        : Z := 0x000040.
Definition MAT_PMATCH          : Z := 0x000080.
Definition MAT_PLAYER          : Z := 0x000100.
Definition MAT_NEIGHBOR        : Z := 0x000200.
Definition MAT_POSSESSION      : Z := 0x000400.
Definition MAT_EXIT            : Z := 0x000800.
Definition MAT_CARRIED_EXIT    : Z := 0x001000.
Definition MAT_CONTAINER       : Z := 0x002000.
Definition MAT_REMOTE_CONTENTS : Z := 0x004000.
Definition MAT_NEAR            : Z := 0x008000.
Definition MAT_ENGLISH         : Z := 0x010000.
Definition MAT_TYPE            : Z := 0x020000.
Definition MAT_EXACT           : Z := 0x040000.
Definition MAT_CONTENTS        : Z := 0x080000.
Definition MAT_NOISY           : Z := 0x1000000.
Definition MAT_LAST            : Z := 0x2000000.

Definition TYPE_ROOM    : Z := 0x1.
Definition TYPE_THING   : Z := 0x2.
Definition TYPE_EXIT    : Z := 0x4.
Definition TYPE_PLAYER  : Z := 0x8.
Definition TYPE_GARBAGE : Z := 0x10.
Definition NOTYPE       : Z := 0xFFFF.

Definition NOTHING   : dbref := -1.
Definition AMBIGUOUS : dbref := -2.
End Flags.
Export Flags.

(** [flags & bit] as a C condition. *)
Definition has (flags bit : Z) : bool := truthy (Z.land flags bit).

(** [flags &= ~mask]. *)
Definition clear (flags mask : Z) : Z := Z.land flags (Z.lnot mask).

(* ================================================================= *)
(** ** C strings *)

Definition zchar (c : ascii) : Z := Z.of_N (N_of_ascii c).

Definition isdigit (c : ascii) : bool := (48 <=? zchar c) && (zchar c <=? 57).

Definition isspace (c : ascii) : bool :=
  (zchar c =? 32) || ((9 <=? zchar c) && (zchar c <=? 13)).

Definition tolower (c : ascii) : Z :=
  let z := zchar c in if (65 <=? z) && (z <=? 90) then z + 32 else z.

(** [strcasecmp]: zero when the two strings are equal up to letter case,
    otherwise the difference of the first two characters that differ. *)
Fixpoint strcasecmp (s1 s2 : string) : Z :=
  match s1, s2 with
  | EmptyString, EmptyString => 0
  | EmptyString, String c2 _ => - tolower c2
  | String c1 _, EmptyString => tolower c1
  | String c1 r1, String c2 r2 =>
      let d := tolower c1 - tolower c2 in
      if d =? 0 then strcasecmp r1 r2 else d
  end.

(** [strncasecmp]: the same over at most [n] characters. *)
Fixpoint strncasecmp (s1 s2 : string) (n : nat) : Z :=
  match n with
  | O => 0
  | S n' =>
      match s1, s2 with
      | EmptyString, EmptyString => 0
      | EmptyString, String c2 _ => - tolower c2
      | String c1 _, EmptyString => tolower c1
      | String c1 r1, String c2 r2 =>
          let d := tolower c1 - tolower c2 in
          if d =? 0 then strncasecmp r1 r2 n' else d
      end
  end.

(** [p += n] on a pointer into a string that has at least [n] characters
    left. *)
Fixpoint advance (n : nat) (s : string) : string :=
  match n, s with
  | O, _ => s
  | S n', String _ r => advance n' r
  | S _, EmptyString => EmptyString
  end.

(** [while ( *p == ' ') p++;] *)
Fixpoint skip_blanks (s : string) : string :=
  match s with
  | String c r => if zchar c =? 32 then skip_blanks r else s
  | EmptyString => EmptyString
  end.

(** [while (isspace( *p)) p++;] *)
Fixpoint skip_spaces (s : string) : string :=
  match s with
  | String c r => if isspace c then skip_spaces r else s
  | EmptyString => EmptyString
  end.

(** [strchr(s, ' ')] followed by the split that [parse_english] makes
    there: the text before the first blank and the text after it. *)
Fixpoint split_blank (s : string) : option (string * string) :=
  match s with
  | EmptyString => None
  | String c r =>
      if zchar c =? 32 then Some (EmptyString, r)
      else match split_blank r with
           | Some (tok, rest) => Some (String c tok, rest)
           | None => None
           end
  end.

(** [strsep(&p, "`")]: what [p] points to afterwards, the text behind the
    first backtick, or a null pointer when there is none. *)
Fixpoint strsep_backtick (s : string) : option string :=
  match s with
  | EmptyString => None
  | String c r => if zchar c =? 96 then Some r else strsep_backtick r
  end.

(** [strtoul(s, &e, 10)] on a text that starts with a digit: the value of
    the digit run, [ULONG_MAX] when it does not fit an [unsigned long] of
    64 bits, and the text [e] behind the run. *)
Fixpoint strtoul_from (acc : Z) (s : string) : Z * string :=
  match s with
  | String c r =>
      if isdigit c then strtoul_from (Z.min ULONG_MAX (10 * acc + (zchar c - 48))) r
      else (acc, s)
  | EmptyString => (acc, s)
  end.

Definition strtoul (s : string) : Z * string := strtoul_from 0 s.

(* ================================================================= *)
(** ** The phrase parser *)

(** The restriction adjectives of [parse_english] (lines 653-675): each
    recognised adjective moves the name pointer behind it and masks the
    flags of the competing scopes. *)
Definition adjective_this_here (name : string) (flags : Z) : string * Z :=
  if has flags MAT_NEIGHBOR then
    if strncasecmp name "this here " 10 =? 0 then
      (advance 10 name, clear flags (Z.lor MAT_POSSESSION MAT_EXIT))
    else if (strncasecmp name "here " 5 =? 0)
            || (strncasecmp name "this " 5 =? 0) then
      (advance 5 name,
       clear flags (Z.lor (Z.lor (Z.lor MAT_POSSESSION MAT_EXIT)
                                 MAT_REMOTE_CONTENTS) MAT_CONTAINER))
    else (name, flags)
  else (name, flags).

Definition adjective_my (name : string) (flags : Z) : string * Z :=
  if has flags MAT_POSSESSION
     && ((strncasecmp name "my " 3 =? 0) || (strncasecmp name "me " 3 =? 0))
  then
    (advance 3 name,
     clear flags (Z.lor (Z.lor (Z.lor MAT_NEIGHBOR MAT_EXIT)
                               MAT_CONTAINER) MAT_REMOTE_CONTENTS))
  else (name, flags).

Definition adjective_toward (name : string) (flags : Z) : string * Z :=
  if has flags (Z.lor MAT_EXIT MAT_CARRIED_EXIT)
     && (strncasecmp name "toward " 7 =? 0)
  then
    (advance 7 name,
     clear flags (Z.lor (Z.lor (Z.lor MAT_NEIGHBOR MAT_POSSESSION)
                               MAT_CONTAINER) MAT_REMOTE_CONTENTS))
  else (name, flags).

(** Lines 653-678: the three adjectives in turn, then the blanks behind
    them. *)
Definition restriction_adjectives (name : string) (flags : Z)
  : string * Z :=
  let '(name, flags) := adjective_this_here name flags in
  let '(name, flags) := adjective_my name flags in
  let '(name, flags) := adjective_toward name flags in
  (skip_blanks name, flags).

(** The count adjective of [parse_english] (lines 702-722) on the token
    [tok] in front of the first blank: the count it denotes, or [-1] when
    the digits and the suffix do not agree. *)
Definition count_adjective (tok : string) : Z :=
  let '(v, e) := strtoul tok in
  let count := int_of_long v in
  match e with
  | String _ _ =>
      if count <? 1 then -1
      else if (10 <? count) && (count <? 14) then
        if truthy (strcasecmp e "th") then -1 else count
      else if Z.rem count 10 =? 1 then
        if truthy (strcasecmp e "st") then -1 else count
      else if Z.rem count 10 =? 2 then
        if truthy (strcasecmp e "nd") then -1 else count
      else if Z.rem count 10 =? 3 then
        if truthy (strcasecmp e "rd") then -1 else count
      else if truthy (strcasecmp e "th") then -1
      else count
  | EmptyString => -1
  end.

(** [parse_english(&name, &flags)]: the count, and the name and the flags
    it leaves behind. *)
Definition parse_english (name : string) (flags : Z) : Z * string * Z :=
  let saveflags := int_of_long flags in
  let savename := name in
  let '(name, flags) := restriction_adjectives name flags in
  match name with
  | EmptyString => (0, savename, saveflags)
  | String c _ =>
      if negb (isdigit c) then (0, name, flags)
      else
        match split_blank name with
        | None => (0, name, flags)
        | Some (tok, rest) =>
            let savename := name in
            let count := count_adjective tok in
            if count <? 0 then (0, savename, flags)
            else (count, skip_blanks rest, flags)
        end
  end.

(* ================================================================= *)
(** ** The world around the resolver *)

(** An attribute, as [match_attr_helper] reads it. *)
Record ATTR := { AL_NAME : string; atr_value : string }.

(** The collaborators of match.c.  [DOLIST_chain first] is the sequence of
    references that the loop variable of [DOLIST(var, first)] takes:
    [first], [Next(first)], and so on; [generic_attrs obj] are the
    attributes that [atr_iter_get_parent(GOD, obj, "GENERIC`*", ...)] hands
    to its helper, in that order. *)
Record World := {
  db_top : Z;
  Typeof : dbref -> Z;
  Name : dbref -> string;
  Location : dbref -> dbref;
  Source : dbref -> dbref;
  Contents : dbref -> dbref;
  Exits : dbref -> dbref;
  Zone : dbref -> dbref;
  MASTER_ROOM : dbref;
  DOLIST_chain : dbref -> list dbref;
  generic_attrs : dbref -> list ATTR;
  has_generic_flag : dbref -> bool;
  controls : dbref -> dbref -> bool;
  can_interact_match : dbref -> dbref -> bool;
  could_doit : dbref -> dbref -> bool;
  Long_Fingers : dbref -> bool;
  nearby : dbref -> dbref -> bool;
  lookup_player : string -> dbref;
  visible_short_page : dbref -> string -> dbref;
  parse_objid : string -> dbref;
  parse_dbref : option string -> dbref;
  parse_integer : string -> Z;
  check_alias : string -> string -> bool;
  alias_attr : dbref -> option string;
  string_match : string -> string -> bool
}.

Section Resolver.

Variable w : World.

(** Modelled from the spec: the macros of dbdefs.h are not among the
    sources.  A reference is good iff it identifies a live entity, that
    is, an index of the database; it is really good when, in addition, it
    is no garbage.  The kind of an entity is a bit of its type. *)
Definition GoodObject (x : dbref) : bool := (0 <=? x) && (x <? db_top w).

Definition IsRoom (x : dbref) : bool := truthy (Z.land (Typeof w x) TYPE_ROOM).
Definition IsExit (x : dbref) : bool := truthy (Z.land (Typeof w x) TYPE_EXIT).
Definition IsPlayer (x : dbref) : bool := truthy (Z.land (Typeof w x) TYPE_PLAYER).
Definition IsGarbage (x : dbref) : bool := truthy (Z.land (Typeof w x) TYPE_GARBAGE).

Definition RealGoodObject (x : dbref) : bool := GoodObject x && negb (IsGarbage x).

(** Modelled from the spec: [DOLIST(var, first)] of dbdefs.h is not
    among the sources.  It walks a chain of entities, a finite sequence
    of references, and its loop runs while the variable is a good
    object. *)
Fixpoint while_good (l : list dbref) : list dbref :=
  match l with
  | x :: r => if GoodObject x then x :: while_good r else []
  | [] => []
  end.

Definition DOLIST (first : dbref) : list dbref :=
  while_good (DOLIST_chain w first).

(* ----------------------------------------------------------------- *)
(** *** choose_thing *)

Definition choose_thing (who : dbref) (preferred_type : Z) (flags : Z)
  (thing1 thing2 : dbref) : dbref :=
  if negb (GoodObject thing1) && negb (GoodObject thing2) then
    if thing1 =? NOTHING then thing2 else thing1
  else if negb (GoodObject thing1) then thing2
  else if negb (GoodObject thing2) then thing1
  else
    let by_type : option dbref :=
      if negb (preferred_type =? NOTYPE) then
        if truthy (Z.land (Typeof w thing1) preferred_type) then
          if negb (truthy (Z.land (Typeof w thing2) preferred_type))
          then Some thing1 else None
        else if truthy (Z.land (Typeof w thing2) preferred_type)
        then Some thing2 else None
      else None in
    match by_type with
    | Some t => t
    | None =>
        let by_key : option dbref :=
          if has flags MAT_CHECK_KEYS then
            let key := could_doit w who thing1 in
            if negb key && could_doit w who thing2 then Some thing2
            else if key && negb (could_doit w who thing2) then Some thing1
            else None
          else None in
        match by_key with
        | Some t => t
        | None => thing2
        end
    end.

(* ----------------------------------------------------------------- *)
(** *** The resolution state *)

(** [struct match_context].  The counters are C [int]s; they count the
    candidates of the pools, so they stay far below [2 ^ 31] and their
    increments are written without wrap-around.  The latches [nocontrol],
    [exact] and [done] only ever hold 0 or 1. *)
Record match_context := {
  mc_match : dbref;
  mc_bestmatch : dbref;
  mc_abs : dbref;
  mc_who : dbref;
  mc_where : dbref;
  mc_flags : Z;
  mc_type : Z;
  mc_final : Z;
  mc_curr : Z;
  mc_nocontrol : bool;
  mc_right_type : Z;
  mc_exact : bool;
  mc_done : bool;
  mc_name : string
}.

Definition set_match (x : dbref) (mc : match_context) : match_context :=
  {| mc_match := x; mc_bestmatch := mc_bestmatch mc; mc_abs := mc_abs mc;
     mc_who := mc_who mc; mc_where := mc_where mc; mc_flags := mc_flags mc;
     mc_type := mc_type mc; mc_final := mc_final mc; mc_curr := mc_curr mc;
     mc_nocontrol := mc_nocontrol mc; mc_right_type := mc_right_type mc;
     mc_exact := mc_exact mc; mc_done := mc_done mc; mc_name := mc_name mc |}.

Definition set_bestmatch (x : dbref) (mc : match_context) : match_context :=
  {| mc_match := mc_match mc; mc_bestmatch := x; mc_abs := mc_abs mc;
     mc_who := mc_who mc; mc_where := mc_where mc; mc_flags := mc_flags mc;
     mc_type := mc_type mc; mc_final := mc_final mc; mc_curr := mc_curr mc;
     mc_nocontrol := mc_nocontrol mc; mc_right_type := mc_right_type mc;
     mc_exact := mc_exact mc; mc_done := mc_done mc; mc_name := mc_name mc |}.

Definition set_nocontrol (mc : match_context) : match_context :=
  {| mc_match := mc_match mc; mc_bestmatch := mc_bestmatch mc;
     mc_abs := mc_abs mc; mc_who := mc_who mc; mc_where := mc_where mc;
     mc_flags := mc_flags mc; mc_type := mc_type mc; mc_final := mc_final mc;
     mc_curr := mc_curr mc; mc_nocontrol := true;
     mc_right_type := mc_right_type mc; mc_exact := mc_exact mc;
     mc_done := mc_done mc; mc_name := mc_name mc |}.

(** The counters and latches that [matched] writes together. *)
Definition set_counts (curr right_type : Z) (exact : bool)
  (mc : match_context) : match_context :=
  {| mc_match := mc_match mc; mc_bestmatch := mc_bestmatch mc;
     mc_abs := mc_abs mc; mc_who := mc_who mc; mc_where := mc_where mc;
     mc_flags := mc_flags mc; mc_type := mc_type mc; mc_final := mc_final mc;
     mc_curr := curr; mc_nocontrol := mc_nocontrol mc;
     mc_right_type := right_type; mc_exact := exact;
     mc_done := mc_done mc; mc_name := mc_name mc |}.

Definition set_done (mc : match_context) : match_context :=
  {| mc_match := mc_match mc; mc_bestmatch := mc_bestmatch mc;
     mc_abs := mc_abs mc; mc_who := mc_who mc; mc_where := mc_where mc;
     mc_flags := mc_flags mc; mc_type := mc_type mc; mc_final := mc_final mc;
     mc_curr := mc_curr mc; mc_nocontrol := mc_nocontrol mc;
     mc_right_type := mc_right_type mc; mc_exact := mc_exact mc;
     mc_done := true; mc_name := mc_name mc |}.

(** The assignments of lines 560-563, after the phrase parser. *)
Definition set_parsed (final : Z) (name : string) (flags : Z)
  (mc : match_context) : match_context :=
  {| mc_match := mc_match mc; mc_bestmatch := mc_bestmatch mc;
     mc_abs := mc_abs mc; mc_who := mc_who mc; mc_where := mc_where mc;
     mc_flags := flags; mc_type := mc_type mc; mc_final := final;
     mc_curr := mc_curr mc; mc_nocontrol := mc_nocontrol mc;
     mc_right_type := mc_right_type mc; mc_exact := mc_exact mc;
     mc_done := mc_done mc; mc_name := name |}.

(* ----------------------------------------------------------------- *)
(** *** The macros of match.c *)

Definition MATCH_CONTROLS (mc : match_context) : bool :=
  negb (has (mc_flags mc) MAT_CONTROL) || controls w (mc_who mc) (mc_match mc).

Definition MATCH_TYPE (mc : match_context) : Z :=
  if truthy (Z.land (mc_type mc) (Typeof w (mc_match mc))) then 1
  else if has (mc_flags mc) MAT_TYPE then 0 else -1.

Definition MATCH_CONTENTS (mc : match_context) : bool :=
  negb (has (mc_flags mc) MAT_CONTENTS)
  || (Location w (mc_match mc) =? mc_where mc).

Definition BEST_MATCH (mc : match_context) : dbref :=
  choose_thing (mc_who mc) (mc_type mc) (mc_flags mc)
    (mc_bestmatch mc) (mc_match mc).

(* ----------------------------------------------------------------- *)
(** *** matched *)

(** [matched(full, mc)]: the value returned (true for 1) and the state
    left behind. *)
Definition matched (full : bool) (mc : match_context)
  : bool * match_context :=
  if negb (MATCH_CONTROLS mc) then (false, set_nocontrol mc)
  else if mc_final mc =? 0 then
    let mc := set_bestmatch (BEST_MATCH mc) mc in
    if negb (mc_bestmatch mc =? mc_match mc) then (false, mc)
    else
      let mc :=
        if full then
          if mc_exact mc
          then set_counts (mc_curr mc + 1) (mc_right_type mc) (mc_exact mc) mc
          else set_counts 1 0 true mc
        else set_counts (mc_curr mc + 1) (mc_right_type mc) (mc_exact mc) mc in
      let mc :=
        if negb (mc_type mc =? NOTYPE)
           && truthy (Z.land (Typeof w (mc_bestmatch mc)) (mc_type mc))
        then set_counts (mc_curr mc) (mc_right_type mc + 1) (mc_exact mc) mc
        else mc in
      (false, mc)
  else
    let mc := set_counts (mc_curr mc + 1) (mc_right_type mc) (mc_exact mc) mc in
    if mc_curr mc =? mc_final mc then
      (true, set_done (set_bestmatch (mc_match mc) mc))
    else (false, mc).

(* ----------------------------------------------------------------- *)
(** *** match_aliases *)

Definition match_aliases (match_ : dbref) (name : string) : bool :=
  if negb (IsPlayer match_) && negb (IsExit match_) then false
  else if IsExit match_ && check_alias w name (Name w match_) then true
  else
    match alias_attr w match_ with
    | None => false
    | Some tbuf1 => check_alias w name tbuf1
    end.

(* ----------------------------------------------------------------- *)
(** *** The evaluation of one candidate *)

(** The exact-name test of lines 292-293 and 342-343. *)
Definition exact_name (mc : match_context) : bool :=
  match_aliases (mc_match mc) (mc_name mc)
  || (negb (IsExit (mc_match mc))
      && (strcasecmp (Name w (mc_match mc)) (mc_name mc) =? 0)).

(** The partial-name test of lines 296-297 and 346-347. *)
Definition partial_name (mc : match_context) : bool :=
  negb (has (mc_flags mc) MAT_EXACT)
  && (negb (mc_exact mc) || negb (GoodObject (mc_bestmatch mc)))
  && negb (IsExit (mc_match mc))
  && string_match w (Name w (mc_match mc)) (mc_name mc).

(** The body of the [DOLIST] loop of [match_obj_list] (lines 333-350),
    with [mc->match] already on the candidate.  The boolean is true when
    the loop is left by [break]. *)
Definition match_obj_body (mc : match_context) : bool * match_context :=
  if MATCH_TYPE mc =? 0 then (false, mc)
  else if mc_match mc =? mc_abs mc then matched true mc
  else if negb (can_interact_match w (mc_match mc) (mc_who mc)) then (false, mc)
  else if exact_name mc then matched true mc
  else if partial_name mc then matched false mc
  else (false, mc).

Fixpoint match_obj_loop (l : list dbref) (mc : match_context)
  : match_context :=
  match l with
  | [] => mc
  | x :: r =>
      let '(brk, mc) := match_obj_body (set_match x mc) in
      if brk then mc else match_obj_loop r mc
  end.

(** [match_obj_list(start, mc)].  It returns 1 or 2 and never 0.  When the
    loop runs to its end, C leaves in [mc->match] the reference that ended
    the chain; the field is written again before it is next read, and
    here it keeps the last candidate. *)
Definition match_obj_list (start : dbref) (mc : match_context)
  : Z * match_context :=
  if mc_done mc then (1, mc)
  else (2, match_obj_loop (DOLIST start) (set_match start mc)).

(** [match_attr_helper(..., atr, args)], the callback of the attribute
    iterator. *)
Definition match_attr_helper (atr : ATTR) (mc : match_context)
  : Z * match_context :=
  if mc_done mc then (0, mc)
  else
    let obj := parse_dbref w (strsep_backtick (AL_NAME atr)) in
    if negb (RealGoodObject obj) || negb (has_generic_flag w obj) then (0, mc)
    else
      let num := parse_integer w (atr_value atr) in
      if num <=? 0 then (0, mc)
      else
        let mc := set_match obj mc in
        if MATCH_TYPE mc =? 0 then (0, mc)
        else if mc_match mc =? mc_abs mc then
          let '(r, mc) := matched true mc in (Z.b2z r, mc)
        else if negb (can_interact_match w (mc_match mc) (mc_who mc))
        then (0, mc)
        else if exact_name mc then
          let '(r, mc) := matched true mc in (Z.b2z r, mc)
        else if partial_name mc then
          let '(r, mc) := matched false mc in (Z.b2z r, mc)
        else (1, mc).

(** [atr_iter_get_parent] calls the helper on every attribute in turn and
    adds up what it returns. *)
Fixpoint atr_iter (l : list ATTR) (mc : match_context) : Z * match_context :=
  match l with
  | [] => (0, mc)
  | atr :: r =>
      let '(n, mc) := match_attr_helper atr mc in
      let '(m, mc) := atr_iter r mc in
      (n + m, mc)
  end.

(** [match_attr_list(obj, mc)]: true for 1. *)
Definition match_attr_list (obj : dbref) (mc : match_context)
  : bool * match_context :=
  if mc_done mc then (true, mc)
  else
    let '(_, mc) := atr_iter (generic_attrs w obj) mc in
    if mc_done mc then (true, mc) else (false, mc).

(* ----------------------------------------------------------------- *)
(** *** match_player *)

(** The character in front of a player name, an asterisk. *)
Definition LOOKUP_TOKEN : Z := 42.

Definition starts_with_token (name : string) : bool :=
  match name with
  | String c _ => zchar c =? LOOKUP_TOKEN
  | EmptyString => false
  end.

Definition match_player (who : dbref) (name : string) (partial : bool)
  : dbref :=
  let name := if starts_with_token name then advance 1 name else name in
  let name := skip_spaces name in
  let match_ := lookup_player w name in
  if negb (match_ =? NOTHING) then match_
  else if GoodObject who && partial then visible_short_page w who name
  else NOTHING.

(* ----------------------------------------------------------------- *)
(** *** match_result_internal *)

(** A message sent by [notify(who, ...)]. *)
Definition notice := (dbref * string)%type.

(** What a call returns: the reference and the messages it sent. *)
Definition answer := (dbref * list notice)%type.

(** A step of the function either returns from it or goes on with the
    state. *)
Definition step := (answer + match_context)%type.

Definition and_then (s : step) (k : match_context -> step) : step :=
  match s with
  | inl r => inl r
  | inr mc => k mc
  end.

Definition initial_context (who where_ : dbref) (xname : string)
  (type flags : Z) : match_context :=
  {| mc_match := NOTHING; mc_bestmatch := NOTHING;
     mc_abs := parse_objid w xname; mc_who := who; mc_where := where_;
     mc_flags := flags; mc_type := type; mc_final := 0; mc_curr := 0;
     mc_nocontrol := false; mc_right_type := 0; mc_exact := false;
     mc_done := false; mc_name := xname |}.

(** Lines 481-488: the location of [where]. *)
Definition location_of (where_ : dbref) : dbref :=
  if negb (RealGoodObject where_) then NOTHING
  else if IsRoom where_ then where_
  else if IsExit where_ then Source w where_
  else Location w where_.

(** Lines 490-497. *)
Definition check_where (who where_ : dbref) (flags : Z)
  (mc : match_context) : step :=
  let goodwhere := RealGoodObject where_ in
  if (has flags MAT_NEAR && negb goodwhere)
     || (has flags MAT_CONTENTS && negb goodwhere)
  then
    inl (NOTHING,
         if has flags MAT_NOISY && GoodObject who
         then [(who, "I can't see that here.")] else [])
  else inr mc.

(** Lines 499-508: the literal "me". *)
Definition shortcut_me (where_ : dbref) (xname : string) (flags : Z)
  (mc : match_context) : step :=
  let mc := set_match where_ mc in
  if RealGoodObject where_ && truthy (MATCH_TYPE mc) && has flags MAT_ME
     && negb (has flags MAT_CONTENTS) && (strcasecmp xname "me" =? 0)
  then
    if MATCH_CONTROLS mc then inl (mc_match mc, [])
    else inr (set_nocontrol mc)
  else inr mc.

(** Lines 510-519: the literal "here". *)
Definition shortcut_here (where_ : dbref) (xname : string) (flags : Z)
  (mc : match_context) : step :=
  let mc :=
    set_match (if RealGoodObject where_
               then (if IsRoom where_ then NOTHING else Location w where_)
               else NOTHING) mc in
  if has flags MAT_HERE && negb (has flags MAT_CONTENTS)
     && (strcasecmp xname "here" =? 0) && GoodObject (mc_match mc)
     && truthy (MATCH_TYPE mc)
  then
    if MATCH_CONTROLS mc then inl (mc_match mc, [])
    else inr (set_nocontrol mc)
  else inr mc.

(** Lines 521-540: a player name. *)
Definition shortcut_player (who : dbref) (xname : string) (type flags : Z)
  (mc : match_context) : step :=
  if (has flags MAT_PMATCH
      || (has flags MAT_PLAYER && starts_with_token xname))
     && (truthy (Z.land type TYPE_PLAYER) || negb (has flags MAT_TYPE))
  then
    let mc :=
      set_match (match_player who xname (negb (has flags MAT_EXACT))) mc in
    if MATCH_CONTENTS mc then
      if GoodObject (mc_match mc) then
        if negb (has flags MAT_NEAR) || Long_Fingers w who
           || (nearby w who (mc_match mc) || controls w who (mc_match mc))
        then
          if MATCH_CONTROLS mc then inl (mc_match mc, [])
          else inr (set_nocontrol mc)
        else inr mc
      else inr (set_bestmatch (BEST_MATCH mc) mc)
    else inr mc
  else inr mc.

(** Lines 542-555: an absolute reference. *)
Definition shortcut_dbref (who : dbref) (flags : Z) (mc : match_context)
  : step :=
  let mc := set_match (mc_abs mc) mc in
  if RealGoodObject (mc_match mc) && has flags MAT_ABSOLUTE
     && truthy (MATCH_TYPE mc) && MATCH_CONTENTS mc
  then
    if negb (has flags MAT_NEAR) || Long_Fingers w who
       || (nearby w who (mc_match mc) || controls w who (mc_match mc))
    then
      if MATCH_CONTROLS mc then inl (mc_match mc, [])
      else inr (set_nocontrol mc)
    else inr mc
  else inr mc.

(** Lines 468-555: everything in front of the phrase parser. *)
Definition shortcuts (who where_ : dbref) (xname : string) (type flags : Z)
  : step :=
  and_then (check_where who where_ flags
              (initial_context who where_ xname type flags)) (fun mc =>
  and_then (shortcut_me where_ xname flags mc) (fun mc =>
  and_then (shortcut_here where_ xname flags mc) (fun mc =>
  and_then (shortcut_player who xname type flags mc) (fun mc =>
  shortcut_dbref who flags mc)))).

(** Lines 557-561: the phrase parser runs only under [MAT_ENGLISH]. *)
Definition parsed_phrase (xname : string) (flags : Z) : Z * string * Z :=
  if has flags MAT_ENGLISH then parse_english xname flags
  else (0, xname, flags).

(** One statement of the body of [while (1)]: the boolean is true when
    the statement leaves the loop by [break]. *)
Definition statement := match_context -> bool * match_context.

Definition skip : statement := fun mc => (false, mc).

Definition seq (s1 s2 : statement) : statement :=
  fun mc => let '(brk, mc) := s1 mc in if brk then (true, mc) else s2 mc.

Definition when (c : bool) (s : statement) : statement :=
  if c then s else skip.

(** [MATCH_LIST(start)] leaves the loop when [match_obj_list] returns 1
    and goes on when it returns 2.  The case of [continue], a result of 0,
    does not arise: [match_obj_list] returns 1 or 2. *)
Definition MATCH_LIST (start : dbref) : statement :=
  fun mc => let '(result, mc) := match_obj_list start mc in (result =? 1, mc).

(** [MATCH_GENERIC(container)] leaves the loop when [match_attr_list]
    returns 1. *)
Definition MATCH_GENERIC (container : dbref) : statement :=
  fun mc => match_attr_list container mc.

(** Lines 565-599: the body of [while (1)], which ends with [break]. *)
Definition general_search (where_ loc : dbref) (type flags : Z)
  : statement :=
  let goodwhere := RealGoodObject where_ in
  seq (when (goodwhere
             && has flags (Z.lor MAT_POSSESSION MAT_REMOTE_CONTENTS))
         (seq (MATCH_LIST (Contents w where_)) (MATCH_GENERIC where_)))
 (seq (when (GoodObject loc && has flags MAT_NEIGHBOR
             && negb (has flags MAT_CONTENTS) && negb (loc =? where_))
         (seq (MATCH_LIST (Contents w loc)) (MATCH_GENERIC loc)))
 (seq (when (truthy (Z.land type TYPE_EXIT) || negb (has flags MAT_TYPE))
         (when (GoodObject loc && IsRoom loc && has flags MAT_EXIT)
            (seq (when (has flags MAT_REMOTES
                        && negb (has flags (Z.lor MAT_NEAR MAT_CONTENTS))
                        && GoodObject (Zone w loc) && IsRoom (Zone w loc))
                    (MATCH_LIST (Exits w (Zone w loc))))
            (seq (when (has flags MAT_GLOBAL
                        && negb (has flags (Z.lor MAT_NEAR MAT_CONTENTS)))
                    (MATCH_LIST (Exits w (MASTER_ROOM w))))
                 (when (GoodObject loc && IsRoom loc)
                    (MATCH_LIST (Exits w loc)))))))
 (seq (when (has flags MAT_CONTAINER && negb (has flags MAT_CONTENTS)
             && goodwhere)
         (MATCH_LIST loc))
      (when (truthy (Z.land type TYPE_EXIT) || negb (has flags MAT_TYPE))
         (when (has flags MAT_CARRIED_EXIT && goodwhere && IsRoom where_
                && (negb (loc =? where_) || negb (has flags MAT_EXIT)))
            (MATCH_LIST (Exits w where_))))))).

(** The pools of the general search. *)
Inductive pool_kind :=
| Possessions | PossessionProxies
| Neighbors | NeighborProxies
| ZoneExits | MasterExits | RoomExits
| Container
| CarriedExits.

Definition pool := (pool_kind * dbref)%type.

Definition is_proxy_pool (k : pool_kind) : bool :=
  match k with
  | PossessionProxies | NeighborProxies => true
  | _ => false
  end.

(** The same search as a list of pools.  The conditions of lines 566-597
    depend on [where], [loc], [type] and [flags] only, none of which
    changes during the search: they select, in the order of the source,
    the pools that [general_search] offers to [MATCH_LIST] and
    [MATCH_GENERIC] ([search_as_plan] below). *)
Definition search_plan (where_ loc : dbref) (type flags : Z) : list pool :=
  let goodwhere := RealGoodObject where_ in
  (if goodwhere
      && has flags (Z.lor MAT_POSSESSION MAT_REMOTE_CONTENTS)
   then [(Possessions, Contents w where_); (PossessionProxies, where_)]
   else [])
  ++
  (if GoodObject loc && has flags MAT_NEIGHBOR
      && negb (has flags MAT_CONTENTS) && negb (loc =? where_)
   then [(Neighbors, Contents w loc); (NeighborProxies, loc)]
   else [])
  ++
  (if truthy (Z.land type TYPE_EXIT) || negb (has flags MAT_TYPE) then
     if GoodObject loc && IsRoom loc && has flags MAT_EXIT then
       (if has flags MAT_REMOTES
           && negb (has flags (Z.lor MAT_NEAR MAT_CONTENTS))
           && GoodObject (Zone w loc) && IsRoom (Zone w loc)
        then [(ZoneExits, Exits w (Zone w loc))] else [])
       ++
       (if has flags MAT_GLOBAL
           && negb (has flags (Z.lor MAT_NEAR MAT_CONTENTS))
        then [(MasterExits, Exits w (MASTER_ROOM w))] else [])
       ++
       (if GoodObject loc && IsRoom loc
        then [(RoomExits, Exits w loc)] else [])
     else []
   else [])
  ++
  (if has flags MAT_CONTAINER && negb (has flags MAT_CONTENTS) && goodwhere
   then [(Container, loc)] else [])
  ++
  (if truthy (Z.land type TYPE_EXIT) || negb (has flags MAT_TYPE) then
     if has flags MAT_CARRIED_EXIT && goodwhere && IsRoom where_
        && (negb (loc =? where_) || negb (has flags MAT_EXIT))
     then [(CarriedExits, Exits w where_)] else []
   else []).

(** The visit of the pools of a plan, one after the other, up to the
    first [break]. *)
Fixpoint run_pools (l : list pool) (mc : match_context) : match_context :=
  match l with
  | [] => mc
  | (k, x) :: r =>
      if is_proxy_pool k then
        let '(brk, mc) := match_attr_list x mc in
        if brk then mc else run_pools r mc
      else
        let '(result, mc) := match_obj_list x mc in
        if result =? 1 then mc else run_pools r mc
  end.

(** Lines 601-625: the classification of the final state and the
    message of a noisy call. *)
Definition classify (flags : Z) (mc : match_context) : match_context :=
  if negb (GoodObject (mc_bestmatch mc)) && truthy (mc_final mc) then
    set_bestmatch NOTHING mc
  else if (mc_final mc =? 0) && (1 <? mc_curr mc) then
    if negb (mc_right_type mc =? 1) && negb (has flags MAT_LAST)
    then set_bestmatch AMBIGUOUS mc
    else mc
  else mc.

Definition failure_notice (who : dbref) (flags : Z) (mc : match_context)
  : list notice :=
  if negb (GoodObject (mc_bestmatch mc)) && has flags MAT_NOISY
     && GoodObject who
  then
    if mc_bestmatch mc =? AMBIGUOUS
    then [(who, "I don't know which one you mean!")]
    else if mc_nocontrol mc then [(who, "Permission denied.")]
    else [(who, "I can't see that here.")]
  else [].

Definition conclude (who : dbref) (flags : Z) (mc : match_context)
  : answer :=
  let mc := classify flags mc in
  (mc_bestmatch mc, failure_notice who flags mc).

(** The state in which the general search starts, once no shortcut has
    returned: the parsed count, name and flags are stored (lines
    557-563). *)
Definition search_start (xname : string) (flags : Z) (mc : match_context)
  : match_context :=
  let '(final, name, flags) := parsed_phrase xname flags in
  set_parsed final name flags mc.

(** The state after the general search (lines 565-599). *)
Definition search (where_ : dbref) (type : Z) (mc : match_context)
  : match_context :=
  snd (general_search where_ (location_of where_) type (mc_flags mc) mc).

Definition match_result_internal (who where_ : dbref) (xname : string)
  (type flags : Z) : answer :=
  match shortcuts who where_ xname type flags with
  | inl r => r
  | inr mc =>
      let '(final, name, flags) := parsed_phrase xname flags in
      let mc := set_parsed final name flags mc in
      let '(_, mc) :=
        general_search where_ (location_of where_) type flags mc in
      conclude who flags mc
  end.

Definition match_result (who : dbref) (xname : string) (type flags : Z)
  : answer :=
  match_result_internal who who xname type flags.

Definition match_result_relative (who where_ : dbref) (xname : string)
  (type flags : Z) : answer :=
  match_result_internal who where_ xname type flags.

Definition noisy_match_result (who : dbref) (name : string) (type flags : Z)
  : answer :=
  let '(match_, out) := match_result who name type (Z.lor flags MAT_NOISY) in
  if negb (GoodObject match_) then (NOTHING, out) else (match_, out).

Definition last_match_result (who : dbref) (name : string) (type flags : Z)
  : answer :=
  match_result who name type (Z.lor flags MAT_LAST).

End Resolver.

(* ================================================================= *)
(** ** A small database *)

(** A concrete world on which the definitions above can be run: a table
    of objects in the manner of the server's [db] array, with the chains
    of [Next] references that [DOLIST] walks, and simple versions of the
    collaborators that read names. *)
Module Demo.

Record object := {
  o_type : Z;
  o_name : string;
  o_location : dbref;
  o_contents : dbref;
  o_exits : dbref;
  o_next : dbref;
  o_generic : bool;
  o_alias : option string
}.

Definition garbage : object :=
  {| o_type := TYPE_GARBAGE; o_name := "Garbage"; o_location := NOTHING;
     o_contents := NOTHING; o_exits := NOTHING; o_next := NOTHING;
     o_generic := false; o_alias := None |}.

Definition fetch (db : list object) (x : dbref) : object :=
  if x <? 0 then garbage else nth (Z.to_nat x) db garbage.

(** The values of the loop variable of [DOLIST]: the chain of [Next]
    references up to and including the first one that is no object. *)
Fixpoint chain_from (db : list object) (fuel : nat) (x : dbref)
  : list dbref :=
  match fuel with
  | O => []
  | S f =>
      x :: (if (0 <=? x) && (x <? Z.of_nat (List.length db))
            then chain_from db f (o_next (fetch db x)) else [])
  end.

(** The number written by an all-digit text. *)
Definition digits_value (s : string) : option Z :=
  match s with
  | EmptyString => None
  | _ => match strtoul s with
         | (v, EmptyString) => Some v
         | _ => None
         end
  end.

(** "#<digits>" names the object of that number. *)
Definition dbref_of_text (db : list object) (s : option string) : dbref :=
  match s with
  | Some (String c r) =>
      if zchar c =? 35 then
        match digits_value r with
        | Some v => if v <? Z.of_nat (List.length db) then v else NOTHING
        | None => NOTHING
        end
      else NOTHING
  | _ => NOTHING
  end.

Definition integer_of_text (s : string) : Z :=
  match s with
  | String c r => if zchar c =? 45 then - fst (strtoul r) else fst (strtoul s)
  | EmptyString => 0
  end.

(** The text up to the first semicolon, and the text behind it. *)
Fixpoint split_semicolon (s : string) : string * option string :=
  match s with
  | EmptyString => (EmptyString, None)
  | String c r =>
      if zchar c =? 59 then (EmptyString, Some r)
      else let '(a, b) := split_semicolon r in (String c a, b)
  end.

(** An alias list is a list of names separated by semicolons. *)
Fixpoint alias_in (fuel : nat) (command list_ : string) : bool :=
  match fuel with
  | O => false
  | S f =>
      let '(a, rest) := split_semicolon list_ in
      (strcasecmp command a =? 0)
      || match rest with
         | Some r => alias_in f command r
         | None => false
         end
  end.

Definition is_prefix_ci (sub s : string) : bool :=
  strncasecmp s sub (String.length sub) =? 0.

(** A partial name matches at the start of a word of the name. *)
Fixpoint word_match (at_start : bool) (s sub : string) : bool :=
  (at_start && is_prefix_ci sub s)
  || match s with
     | EmptyString => false
     | String c r => word_match (zchar c =? 32) r sub
     end.

Definition world_of (db : list object) (attrs : dbref -> list ATTR)
  (controls_ interact lock : dbref -> dbref -> bool) : World :=
  {| db_top := Z.of_nat (List.length db);
     Typeof := fun x => o_type (fetch db x);
     Name := fun x => o_name (fetch db x);
     Location := fun x => o_location (fetch db x);
     Source := fun x => o_location (fetch db x);
     Contents := fun x => o_contents (fetch db x);
     Exits := fun x => o_exits (fetch db x);
     Zone := fun _ => NOTHING;
     MASTER_ROOM := 0;
     DOLIST_chain := chain_from db (S (List.length db));
     generic_attrs := attrs;
     has_generic_flag := fun x => o_generic (fetch db x);
     controls := controls_;
     can_interact_match := interact;
     could_doit := lock;
     Long_Fingers := fun _ => false;
     nearby := fun _ _ => true;
     lookup_player := fun _ => NOTHING;
     visible_short_page := fun _ _ => NOTHING;
     parse_objid := fun s => dbref_of_text db (Some s);
     parse_dbref := dbref_of_text db;
     parse_integer := integer_of_text;
     check_alias := fun command list_ =>
                      alias_in (S (String.length list_)) command list_;
     alias_attr := fun x => o_alias (fetch db x);
     string_match := fun s sub => word_match true s sub |}.

Definition thing (name : string) (loc next : dbref) (generic : bool)
  : object :=
  {| o_type := TYPE_THING; o_name := name; o_location := loc;
     o_contents := NOTHING; o_exits := NOTHING; o_next := next;
     o_generic := generic; o_alias := None |}.

Definition exit_ (name : string) (source next : dbref) : object :=
  {| o_type := TYPE_EXIT; o_name := name; o_location := source;
     o_contents := NOTHING; o_exits := NOTHING; o_next := next;
     o_generic := false; o_alias := None |}.

(** The Hall (#0) has the exits "north;n" (#4) and "north;up" (#5) and
    holds the "Alice doll" (#10) and Alice (#1), who carries "apple pie"
    (#3), "apple" (#2), "gold coin" (#7) and "silver coin" (#8) in that
    order.  The sword (#6) lies in the Vault (#9) and carries the GENERIC
    flag. *)
Definition objects : list object :=
  [ {| o_type := TYPE_ROOM; o_name := "Hall"; o_location := NOTHING;
       o_contents := 10; o_exits := 4; o_next := NOTHING;
       o_generic := false; o_alias := None |};
    {| o_type := TYPE_PLAYER; o_name := "Alice"; o_location := 0;
       o_contents := 3; o_exits := NOTHING; o_next := NOTHING;
       o_generic := false; o_alias := None |};
    thing "apple" 1 7 false;
    thing "apple pie" 1 2 false;
    exit_ "north;n" 0 5;
    exit_ "north;up" 0 NOTHING;
    thing "sword" 9 NOTHING true;
    thing "gold coin" 1 8 false;
    thing "silver coin" 1 NOTHING false;
    {| o_type := TYPE_ROOM; o_name := "Vault"; o_location := NOTHING;
       o_contents := 6; o_exits := NOTHING; o_next := NOTHING;
       o_generic := false; o_alias := None |};
    thing "Alice doll" 0 1 false ].

Definition yes (_ _ : dbref) : bool := true.
Definition no (_ _ : dbref) : bool := false.
Definition no_attrs (_ : dbref) : list ATTR := [].

(** The plain world: everything may be seen, controlled and passed. *)
Definition plain : World := world_of objects no_attrs yes yes yes.

(** The same world where nothing may be matched by name. *)
Definition hidden : World := world_of objects no_attrs yes no yes.

(** The Hall carries two proxy attributes for the sword, of priorities 3
    and 7. *)
Definition sword_attrs (x : dbref) : list ATTR :=
  if x =? 0 then
    [ {| AL_NAME := "GENERIC`#6"; atr_value := "3" |};
      {| AL_NAME := "GENERIC`#06"; atr_value := "7" |} ]
  else [].

Definition proxied : World := world_of objects sword_attrs yes yes yes.

(** The world with the proxies where nothing may be matched by name. *)
Definition hidden_proxied : World :=
  world_of objects sword_attrs yes no yes.

(** [MAT_EVERYTHING] of the header comment of match.c: me, here, absolute,
    player, neighbor, possession, exit. *)
Definition everything : Z :=
  fold_right Z.lor 0
    [MAT_ME; MAT_HERE; MAT_ABSOLUTE; MAT_PLAYER; MAT_NEIGHBOR;
     MAT_POSSESSION; MAT_EXIT].

Definition english : Z := Z.lor everything MAT_ENGLISH.

(** The state with which a call enters the general search, for a call
    that no shortcut ends. *)
Definition start (w : World) (who where_ : dbref) (xname : string)
  (type flags : Z) : match_context :=
  match shortcuts w who where_ xname type flags with
  | inr mc => mc
  | inl _ => initial_context w who where_ xname type flags
  end.

End Demo.


(* ================================================================= *)
(** ** Notions used by the statements *)

(** [t] is what is left of [s] after a pointer into [s] has moved
    forward. *)
Definition is_suffix (t s : string) : Prop :=
  exists pre : string, s = String.append pre t.

(** The five scope flags that the restriction adjectives mask. *)
Definition scope_mask : Z :=
  Z.lor (Z.lor (Z.lor (Z.lor MAT_NEIGHBOR MAT_POSSESSION) MAT_EXIT)
               MAT_CONTAINER) MAT_REMOTE_CONTENTS.

(** The first rule of the tie-breaker as the specification words it:
    of two invalid references the second, unless the second is [NOTHING]
    and the first is some other invalid value. *)
Definition claimed_choice_of_invalid (a b : dbref) : dbref :=
  if (b =? NOTHING) && negb (a =? NOTHING) then a else b.

(** Every adjective step leaves a suffix of the name and a subset of the
    flags: flags outside the scope flags are kept, and no flag is set. *)
Definition narrows (name : string) (flags : Z) (p : string * Z) : Prop :=
  is_suffix (fst p) name
  /\ (forall b, Z.land b scope_mask = 0 -> has (snd p) b = has flags b)
  /\ (forall b, has flags b = false -> has (snd p) b = false).

(** Two states of one resolution call: the fields that the search only
    reads are the same. *)
Definition same_query (a b : match_context) : Prop :=
  mc_abs a = mc_abs b /\ mc_who a = mc_who b /\ mc_where a = mc_where b
  /\ mc_flags a = mc_flags b /\ mc_type a = mc_type b
  /\ mc_final a = mc_final b /\ mc_name a = mc_name b.

Section Notions.

Variable w : World.

(** A type filter is given and the type of [x] intersects it. *)
Definition of_preferred_type (type : Z) (x : dbref) : bool :=
  negb (type =? NOTYPE) && truthy (Z.land (Typeof w x) type).

(** Preference by lock is requested and [who] passes the lock of [x]. *)
Definition passes_key (who : dbref) (flags : Z) (x : dbref) : bool :=
  has flags MAT_CHECK_KEYS && could_doit w who x.

End Notions.

Section Candidates.

Variable w : World.

(** The statements that visit the pools of a list, in sequence. *)
Fixpoint visits (l : list pool) : statement :=
  match l with
  | [] => skip
  | (k, x) :: r =>
      seq (if is_proxy_pool k then MATCH_GENERIC w x else MATCH_LIST w x)
          (visits r)
  end.

(** A statement that does what the visit of the pools [l] does. *)
Definition realizes (s : statement) (l : list pool) : Prop :=
  forall mc, s mc = visits l mc.

(** The entity and the priority that a proxy attribute encodes. *)
Definition proxy_entity (atr : ATTR) : dbref :=
  parse_dbref w (strsep_backtick (AL_NAME atr)).

Definition proxy_priority (atr : ATTR) : Z :=
  parse_integer w (atr_value atr).

(** A proxy that [match_attr_helper] offers to the evaluator: it names a
    live entity that carries the GENERIC flag, and its priority is
    positive. *)
Definition proxy_valid (atr : ATTR) : bool :=
  RealGoodObject w (proxy_entity atr)
  && has_generic_flag w (proxy_entity atr)
  && (0 <? proxy_priority atr).

(** The candidates of a pool, in the order of the traversal. *)
Definition proxy_candidates (l : list ATTR) : list dbref :=
  map proxy_entity (filter proxy_valid l).

Definition pool_candidates (p : pool) : list dbref :=
  if is_proxy_pool (fst p)
  then proxy_candidates (generic_attrs w (snd p))
  else DOLIST w (snd p).

(** A candidate that the evaluator accepts: it passes the type check, it
    is the absolute reference of the text or may be matched and has a
    matching name, and it passes the control check. *)
Definition accepts (mc : match_context) (x : dbref) : bool :=
  let mc := set_match x mc in
  negb (MATCH_TYPE w mc =? 0)
  && ((x =? mc_abs mc)
      || (can_interact_match w x (mc_who mc)
          && (exact_name w mc || partial_name w mc)))
  && MATCH_CONTROLS w mc.

(** A candidate that the evaluator takes for an exact match of the text:
    the absolute reference of the text, or an entity whose alias or full
    name is the residual name. *)
Definition exact_candidate (mc : match_context) (x : dbref) : bool :=
  (x =? mc_abs mc) || exact_name w (set_match x mc).

(** The state that the shortcuts hand to the general search: nothing is
    counted or latched for the search yet, and the best match, if the
    player lookup left one, is no live entity. *)
Definition fresh (who where_ : dbref) (xname : string) (type flags : Z)
  (mc : match_context) : Prop :=
  mc_abs mc = parse_objid w xname /\ mc_who mc = who
  /\ mc_where mc = where_ /\ mc_flags mc = flags /\ mc_type mc = type
  /\ mc_final mc = 0 /\ mc_curr mc = 0 /\ mc_right_type mc = 0
  /\ mc_exact mc = false /\ mc_done mc = false
  /\ GoodObject w (mc_bestmatch mc) = false.

(** The world with other proxy attributes. *)
Definition with_attrs (attrs : dbref -> list ATTR) : World :=
  {| db_top := db_top w; Typeof := Typeof w; Name := Name w;
     Location := Location w; Source := Source w; Contents := Contents w;
     Exits := Exits w; Zone := Zone w; MASTER_ROOM := MASTER_ROOM w;
     DOLIST_chain := DOLIST_chain w; generic_attrs := attrs;
     has_generic_flag := has_generic_flag w; controls := controls w;
     can_interact_match := can_interact_match w;
     could_doit := could_doit w; Long_Fingers := Long_Fingers w;
     nearby := nearby w; lookup_player := lookup_player w;
     visible_short_page := visible_short_page w;
     parse_objid := parse_objid w; parse_dbref := parse_dbref w;
     parse_integer := parse_integer w; check_alias := check_alias w;
     alias_attr := alias_attr w; string_match := string_match w |}.

(** The proxies as the specification words them: of the valid proxies of
    one entity only one of the highest priority is meaningful. *)
Definition highest_priority_only (l : list ATTR) : list ATTR :=
  filter (fun a =>
            forallb (fun b =>
                       negb (proxy_valid b)
                       || negb (proxy_entity b =? proxy_entity a)
                       || (proxy_priority b <=? proxy_priority a)) l) l.

End Candidates.

(* ================================================================= *)
(** ** match_controlled *)

(** [match_controlled(player, name)].  [MAT_EVERYTHING] is a constant of
    match.h, which is not among the sources; it is a parameter here. *)
Definition match_controlled (w : World) (MAT_EVERYTHING : Z)
  (player : dbref) (name : string) : answer :=
  noisy_match_result w player name NOTYPE
    (Z.lor MAT_EVERYTHING MAT_CONTROL).

(* ================================================================= *)
(** ** Further notions used by the statements *)

Definition CANT_SEE : string := "I can't see that here.".
Definition WHICH_ONE : string := "I don't know which one you mean!".
Definition DENIED : string := "Permission denied.".

(** The matches on record in a search without an ordinal target: the
    current best, the latch of the exact matches, and the matches that
    count, in the order in which they were recorded. *)
Record ledger := {
  l_best : dbref;
  l_exact : bool;
  l_recorded : list dbref
}.

Section Verdicts.

Variable w : World.

(** The type check of [MATCH_TYPE] as a condition: the type of [x]
    intersects the filter, or [MAT_TYPE] does not insist on it. *)
Definition type_admits (type flags : Z) (x : dbref) : bool :=
  truthy (Z.land type (Typeof w x)) || negb (has flags MAT_TYPE).

(** The partial-name test without the part that looks at the state. *)
Definition partial_text (mc : match_context) (x : dbref) : bool :=
  negb (has (mc_flags mc) MAT_EXACT) && negb (IsExit w x)
  && string_match w (Name w x) (mc_name mc).

(** What every candidate that the evaluator hands to [matched], and that
    [matched] lets through, has passed. *)
Definition admissible (mc : match_context) (x : dbref) : bool :=
  type_admits (mc_type mc) (mc_flags mc) x
  && (negb (has (mc_flags mc) MAT_CONTROL) || controls w (mc_who mc) x)
  && ((x =? mc_abs mc)
      || (can_interact_match w x (mc_who mc)
          && (exact_name w (set_match x mc) || partial_text mc x))).

(** A candidate that [matched] records as a full match, and one that it
    records as a partial match while no full match is latched. *)
Definition exact_accepted (mc : match_context) (x : dbref) : bool :=
  type_admits (mc_type mc) (mc_flags mc) x
  && (negb (has (mc_flags mc) MAT_CONTROL) || controls w (mc_who mc) x)
  && ((x =? mc_abs mc)
      || (can_interact_match w x (mc_who mc)
          && exact_name w (set_match x mc))).

Definition partial_accepted (mc : match_context) (x : dbref) : bool :=
  type_admits (mc_type mc) (mc_flags mc) x
  && (negb (has (mc_flags mc) MAT_CONTROL) || controls w (mc_who mc) x)
  && negb (x =? mc_abs mc)
  && can_interact_match w x (mc_who mc)
  && negb (exact_name w (set_match x mc))
  && partial_text mc x.

(** The record of the matches as the specification words the evaluation
    of an accepted candidate without an ordinal target.  The candidate is
    compared with the current best by the tie-breaker; when the
    tie-breaker does not return the candidate, it is dropped and nothing
    changes.  Otherwise it is the new best and it is recorded: the first
    exact match starts the record anew, a later exact match and a partial
    match are added to it.  A partial match is only accepted while no
    exact match is latched (or the best is no live entity). *)
Definition enter (q : match_context) (led : ledger) (x : dbref) : ledger :=
  let kept :=
    choose_thing w (mc_who q) (mc_type q) (mc_flags q) (l_best led) x =? x in
  if exact_accepted q x then
    if kept then
      {| l_best := x; l_exact := true;
         l_recorded := if l_exact led then (l_recorded led ++ [x])%list
                       else [x] |}
    else led
  else if partial_accepted q x
          && (negb (l_exact led) || negb (GoodObject w (l_best led)))
  then
    if kept then
      {| l_best := x; l_exact := l_exact led;
         l_recorded := (l_recorded led ++ [x])%list |}
    else led
  else led.

Definition ledger_of (q : match_context) (l : list dbref) : ledger :=
  fold_left (enter q) l
    {| l_best := mc_bestmatch q; l_exact := false; l_recorded := [] |}.

(** The candidates of all the pools that a call visits when no ordinal
    target ends the search early. *)
Definition all_candidates (where_ : dbref) (type : Z) (mc : match_context)
  : list dbref :=
  flat_map (pool_candidates w)
    (search_plan w where_ (location_of w where_) type (mc_flags mc)).

(** What holds of a reference that a shortcut returns: it is a live
    entity, the requester controls it when [MAT_CONTROL] is requested,
    and it passed the type check or came from the player lookup. *)
Definition shortcut_verdict (who : dbref) (xname : string) (type flags : Z)
  (r : dbref) : Prop :=
  GoodObject w r = true
  /\ (has flags MAT_CONTROL = true -> controls w who r = true)
  /\ (type_admits type flags r = true
      \/ (r = match_player w who xname (negb (has flags MAT_EXACT))
          /\ truthy (Z.land type TYPE_PLAYER) || negb (has flags MAT_TYPE)
             = true)).

(** What a shortcut that does not return does to the state: it moves
    [mc->match], it may latch [nocontrol] on a failed control check, and
    the player lookup may leave its failure as the best match. *)
Inductive shortcut_move (who : dbref) (xname : string) (flags : Z)
  (mc : match_context) : match_context -> Prop :=
| move_match (x : dbref) :
    shortcut_move who xname flags mc (set_match x mc)
| move_nocontrol (x : dbref) :
    MATCH_CONTROLS w (set_match x mc) = false ->
    shortcut_move who xname flags mc (set_nocontrol (set_match x mc))
| move_best (m : match_context) :
    m = set_match (match_player w who xname (negb (has flags MAT_EXACT))) mc ->
    GoodObject w (mc_match m) = false ->
    shortcut_move who xname flags mc (set_bestmatch (BEST_MATCH w m) m).

(** The state in front of the general search, beyond [fresh]: the best
    match is [NOTHING] or what the player lookup returned, and the
    [nocontrol] latch is only set under [MAT_CONTROL]. *)
Definition prepared (who : dbref) (xname : string) (flags : Z)
  (mc : match_context) : Prop :=
  (mc_bestmatch mc = NOTHING
   \/ mc_bestmatch mc
      = match_player w who xname (negb (has flags MAT_EXACT)))
  /\ (mc_nocontrol mc = true -> has flags MAT_CONTROL = true).

End Verdicts.

(** The state with other flags. *)
Definition set_flags (flags : Z) (mc : match_context) : match_context :=
  {| mc_match := mc_match mc; mc_bestmatch := mc_bestmatch mc;
     mc_abs := mc_abs mc; mc_who := mc_who mc; mc_where := mc_where mc;
     mc_flags := flags; mc_type := mc_type mc; mc_final := mc_final mc;
     mc_curr := mc_curr mc; mc_nocontrol := mc_nocontrol mc;
     mc_right_type := mc_right_type mc; mc_exact := mc_exact mc;
     mc_done := mc_done mc; mc_name := mc_name mc |}.

Definition relabel_step (flags : Z) (s : step) : step :=
  match s with
  | inl r => inl r
  | inr mc => inr (set_flags flags mc)
  end.

(** A mask within the 32 flags of an [int] that does not hold
    [MAT_LAST]. *)
Definition plain_mask (b : Z) : bool :=
  (0 <=? b) && (b <? 2 ^ 32) && negb (Z.testbit b 25).

(** Two flag words that agree on the 32 flags of an [int], [MAT_LAST]
    apart. *)
Definition same_but_last (f g : Z) : Prop :=
  forall n, 0 <= n < 32 -> n <> 25 -> Z.testbit f n = Z.testbit g n.

(** The place of a pool in the fixed order of the search. *)
Definition pool_rank (k : pool_kind) : nat :=
  match k with
  | Possessions => 0
  | PossessionProxies => 1
  | Neighbors => 2
  | NeighborProxies => 3
  | ZoneExits => 4
  | MasterExits => 5
  | RoomExits => 6
  | Container => 7
  | CarriedExits => 8
  end.

Fixpoint increasing (l : list nat) : bool :=
  match l with
  | a :: (b :: _) as r => Nat.ltb a b && increasing r
  | _ => true
  end.

(** The English suffix of a count as [parse_english] wants it: "th" for
    11 to 13, otherwise by the last digit. *)
Definition ordinal_suffix (n : Z) : string :=
  if (10 <? n) && (n <? 14) then "th"
  else if Z.rem n 10 =? 1 then "st"
  else if Z.rem n 10 =? 2 then "nd"
  else if Z.rem n 10 =? 3 then "rd"
  else "th".

(** Decimal numerals. *)
Definition digit_char (d : Z) : ascii := ascii_of_N (Z.to_N (48 + d)).

Fixpoint decimal_digits (fuel : nat) (n : Z) : string :=
  match fuel with
  | O => EmptyString
  | S f =>
      if n <? 10 then String (digit_char n) EmptyString
      else String.append (decimal_digits f (n / 10))
                         (String (digit_char (n mod 10)) EmptyString)
  end.

(** The numeral of a number below [10 ^ 20]. *)
Definition decimal (n : Z) : string := decimal_digits 20 n.

(** The ordinal word of a count: "1st", "22nd", "113rd" ... *)
Definition ordinal_word (n : Z) : string :=
  String.append (decimal n) (ordinal_suffix n).

(** The text starts with a digit. *)
Definition digit_first (s : string) : bool :=
  match s with
  | String c _ => isdigit c
  | EmptyString => false
  end.

(** The number that a run of digits writes. *)
Fixpoint numeral_from (acc : Z) (s : string) : Z :=
  match s with
  | String c r => numeral_from (10 * acc + (zchar c - 48)) r
  | EmptyString => acc
  end.

Definition numeral (s : string) : Z := numeral_from 0 s.

Fixpoint all_digits (s : string) : bool :=
  match s with
  | EmptyString => true
  | String c r => isdigit c && all_digits r
  end.

Fixpoint no_blank (s : string) : bool :=
  match s with
  | EmptyString => true
  | String c r => negb (zchar c =? 32) && no_blank r
  end.
(* ================================================================= *)
(** * Properties *)

(* ================================================================= *)
(** ** Bit sets *)

Lemma truthy_false_iff (z : Z) : truthy z = false <-> z = 0.
Proof.
  unfold truthy. rewrite negb_false_iff. apply Z.eqb_eq.
Qed.


Lemma land_clear_in (f m b : Z) :
  Z.land b m = b -> Z.land (clear f m) b = 0.
Proof.
  intros H. unfold clear. rewrite <- H.
  apply Z.bits_inj'. intros n Hn.
  rewrite !Z.land_spec, Z.lnot_spec, Z.bits_0 by lia.
  destruct (Z.testbit f n), (Z.testbit m n), (Z.testbit b n); reflexivity.
Qed.

Lemma land_clear_out (f m b : Z) :
  Z.land b m = 0 -> Z.land (clear f m) b = Z.land f b.
Proof.
  intros H. unfold clear.
  apply Z.bits_inj'. intros n Hn.
  assert (Hb : Z.testbit b n && Z.testbit m n = false)
    by (rewrite <- Z.land_spec, H; apply Z.bits_0).
  rewrite !Z.land_spec, Z.lnot_spec by lia.
  destruct (Z.testbit f n), (Z.testbit m n), (Z.testbit b n);
    simpl in *; congruence.
Qed.

Lemma has_clear_in (f m b : Z) :
  Z.land b m = b -> has (clear f m) b = false.
Proof.
  intros H. unfold has. rewrite land_clear_in by assumption. reflexivity.
Qed.

Lemma has_clear_out (f m b : Z) :
  Z.land b m = 0 -> has (clear f m) b = has f b.
Proof.
  intros H. unfold has. rewrite land_clear_out by assumption. reflexivity.
Qed.

(** The low 32 bits survive the conversion to [int]. *)
Lemma int_of_long_bits (z n : Z) :
  0 <= n < 32 -> Z.testbit (int_of_long z) n = Z.testbit z n.
Proof.
  intros Hn. unfold int_of_long.
  rewrite <- (Z.mod_pow2_bits_low z 32 n) by lia.
  rewrite <- (Z.mod_pow2_bits_low (_ - _) 32 n) by lia.
  f_equal.
  pose proof (Z.div_mod (z + 2 ^ 31) (2 ^ 32) ltac:(lia)) as D.
  replace ((z + 2 ^ 31) mod 2 ^ 32 - 2 ^ 31)
    with (z + (- ((z + 2 ^ 31) / 2 ^ 32)) * 2 ^ 32) by lia.
  apply Z.mod_add. lia.
Qed.

Lemma int_of_long_small (z : Z) : 0 <= z < 2 ^ 31 -> int_of_long z = z.
Proof.
  intros H. unfold int_of_long. rewrite Z.mod_small; lia.
Qed.

Lemma has_int_of_long (z n : Z) :
  0 <= n < 32 -> has (int_of_long z) (2 ^ n) = has z (2 ^ n).
Proof.
  intros Hn. unfold has. f_equal.
  apply Z.bits_inj'. intros k Hk.
  rewrite !Z.land_spec, Z.pow2_bits_eqb by lia.
  destruct (Z.eqb_spec n k) as [<- | Hne].
  - rewrite int_of_long_bits by lia. reflexivity.
  - rewrite !andb_false_r. reflexivity.
Qed.

(* ================================================================= *)
(** ** Live references *)

Section Properties.

Variable w : World.

Lemma GoodObject_NOTHING : GoodObject w NOTHING = false.
Proof. reflexivity. Qed.

Lemma GoodObject_AMBIGUOUS : GoodObject w AMBIGUOUS = false.
Proof. reflexivity. Qed.

Lemma GoodObject_nonneg (x : dbref) : GoodObject w x = true -> 0 <= x.
Proof.
  unfold GoodObject. intros H. apply andb_true_iff in H. lia.
Qed.

Lemma GoodObject_not_sentinel (x : dbref) :
  GoodObject w x = true -> x <> NOTHING /\ x <> AMBIGUOUS.
Proof.
  intros H. apply GoodObject_nonneg in H. unfold NOTHING, AMBIGUOUS. lia.
Qed.

Lemma RealGoodObject_good (x : dbref) :
  RealGoodObject w x = true -> GoodObject w x = true.
Proof.
  unfold RealGoodObject. intros H. apply andb_true_iff in H. tauto.
Qed.

(* ================================================================= *)
(** ** noisy_match_result *)

(** C9.  The noisy variant returns the result of [match_result] under
    [MAT_NOISY] when that is a live entity and [NOTHING] in every other
    case; so it never returns [AMBIGUOUS], and what it returns is always
    either a live entity or [NOTHING]. *)
Theorem noisy_match_result_live_or_nothing
  (who : dbref) (name : string) (type flags : Z) :
  let m := fst (match_result w who name type (Z.lor flags MAT_NOISY)) in
  let r := fst (noisy_match_result w who name type flags) in
  r = (if GoodObject w m then m else NOTHING)
  /\ r <> AMBIGUOUS
  /\ (r = NOTHING \/ GoodObject w r = true).
Proof.
  unfold noisy_match_result.
  destruct (match_result w who name type (Z.lor flags MAT_NOISY))
    as [m out]. simpl.
  destruct (GoodObject w m) eqn:G; simpl.
  - repeat split; auto. apply GoodObject_not_sentinel. assumption.
  - repeat split; auto. discriminate.
Qed.

(* ================================================================= *)
(** ** choose_thing *)

Lemma choose_thing_either (who : dbref) (type flags : Z) (a b : dbref) :
  choose_thing w who type flags a b = a
  \/ choose_thing w who type flags a b = b.
Proof.
  unfold choose_thing.
  repeat match goal with
         | |- context [if ?c then _ else _] => destruct c
         end; auto.
Qed.

(* ================================================================= *)
(** ** The phrase parser *)

Lemma is_suffix_refl (s : string) : is_suffix s s.
Proof. exists EmptyString. reflexivity. Qed.

Lemma is_suffix_cons (t s : string) (c : ascii) :
  is_suffix t s -> is_suffix t (String c s).
Proof.
  intros [pre ->]. exists (String c pre). reflexivity.
Qed.

Lemma is_suffix_trans (a b c : string) :
  is_suffix a b -> is_suffix b c -> is_suffix a c.
Proof.
  intros [p ->] [q ->]. exists (String.append q p).
  induction q as [| x q IH]; simpl; [reflexivity | now rewrite IH].
Qed.

Lemma advance_suffix (n : nat) (s : string) : is_suffix (advance n s) s.
Proof.
  revert s. induction n as [| n IH]; intros s.
  - apply is_suffix_refl.
  - destruct s as [| c r]; simpl.
    + apply is_suffix_refl.
    + apply is_suffix_cons, IH.
Qed.

Lemma skip_blanks_suffix (s : string) : is_suffix (skip_blanks s) s.
Proof.
  induction s as [| c r IH]; simpl.
  - apply is_suffix_refl.
  - destruct (zchar c =? 32).
    + apply is_suffix_cons, IH.
    + apply is_suffix_refl.
Qed.

Lemma split_blank_suffix (s tok rest : string) :
  split_blank s = Some (tok, rest) -> is_suffix rest s.
Proof.
  revert tok rest. induction s as [| c r IH]; intros tok rest; simpl.
  - discriminate.
  - destruct (zchar c =? 32).
    + intros [= <- <-]. apply is_suffix_cons, is_suffix_refl.
    + destruct (split_blank r) as [[t q] |]; [| discriminate].
      intros [= <- <-]. apply is_suffix_cons. eapply IH. reflexivity.
Qed.

Lemma is_suffix_length (t s : string) :
  is_suffix t s -> (String.length t <= String.length s)%nat.
Proof.
  intros [pre ->]. induction pre as [| c p IH]; simpl; lia.
Qed.

(** A pointer that has moved forward no longer points to the start. *)
Lemma advance_moves (n : nat) (c : ascii) (r t : string) :
  is_suffix t (advance (S n) (String c r)) -> t <> String c r.
Proof.
  simpl. intros H ->.
  pose proof (is_suffix_length _ _
                (is_suffix_trans _ _ _ H (advance_suffix n r))) as L.
  simpl in L. lia.
Qed.

(** A match of a non-empty pattern shows the first character. *)
Lemma strncasecmp_cons (s : string) (c2 : ascii) (r2 : string) (n : nat) :
  tolower c2 <> 0 ->
  strncasecmp s (String c2 r2) (S n) = 0 ->
  exists c1 r1, s = String c1 r1 /\ tolower c1 = tolower c2
                /\ strncasecmp r1 r2 n = 0.
Proof.
  intros Hc. destruct s as [| c1 r1]; cbn [strncasecmp].
  - lia.
  - destruct (Z.eqb_spec (tolower c1 - tolower c2) 0) as [E | E].
    + intros H. exists c1, r1. repeat split; [lia | assumption].
    + intros H. contradiction.
Qed.

Lemma strncasecmp_head_differs (c1 c2 : ascii) (r1 r2 : string) (n : nat) :
  tolower c1 <> tolower c2 ->
  (strncasecmp (String c1 r1) (String c2 r2) (S n) =? 0) = false.
Proof.
  intros H. cbn [strncasecmp].
  destruct (Z.eqb_spec (tolower c1 - tolower c2) 0) as [E | E].
  - lia.
  - apply Z.eqb_neq. assumption.
Qed.


Lemma has_clear_false (f m b : Z) :
  has f b = false -> has (clear f m) b = false.
Proof.
  unfold has, clear. rewrite !truthy_false_iff. intros H.
  rewrite <- Z.land_assoc, (Z.land_comm (Z.lnot m)), Z.land_assoc, H.
  reflexivity.
Qed.

Lemma has_clear_scope (f m b : Z) :
  Z.land m scope_mask = m -> Z.land b scope_mask = 0 ->
  has (clear f m) b = has f b.
Proof.
  intros Hm Hb. apply has_clear_out.
  rewrite <- Hm, (Z.land_comm m), Z.land_assoc, Hb. reflexivity.
Qed.

Lemma narrows_trans (n0 : string) (f0 : Z) (p q : string * Z) :
  narrows n0 f0 p -> narrows (fst p) (snd p) q -> narrows n0 f0 q.
Proof.
  intros (S1 & F1 & M1) (S2 & F2 & M2). repeat split.
  - eapply is_suffix_trans; eassumption.
  - intros b Hb. rewrite F2, F1 by assumption. reflexivity.
  - intros b Hb. apply M2, M1, Hb.
Qed.

Lemma adjective_this_here_narrows (name : string) (flags : Z) :
  narrows name flags (adjective_this_here name flags).
Proof.
  unfold adjective_this_here, narrows.
  repeat match goal with
         | |- context [if ?c then _ else _] => destruct c
         end; cbn [fst snd]; repeat split;
    try apply advance_suffix; try apply is_suffix_refl;
    intros b Hb; try reflexivity; try assumption;
    try (apply has_clear_scope; [reflexivity | assumption]);
    apply has_clear_false; assumption.
Qed.

Lemma adjective_my_narrows (name : string) (flags : Z) :
  narrows name flags (adjective_my name flags).
Proof.
  unfold adjective_my, narrows.
  destruct (_ && _); cbn [fst snd]; repeat split;
    try apply advance_suffix; try apply is_suffix_refl;
    intros b Hb; try reflexivity; try assumption;
    try (apply has_clear_scope; [reflexivity | assumption]);
    apply has_clear_false; assumption.
Qed.

Lemma adjective_toward_narrows (name : string) (flags : Z) :
  narrows name flags (adjective_toward name flags).
Proof.
  unfold adjective_toward, narrows.
  destruct (_ && _); cbn [fst snd]; repeat split;
    try apply advance_suffix; try apply is_suffix_refl;
    intros b Hb; try reflexivity; try assumption;
    try (apply has_clear_scope; [reflexivity | assumption]);
    apply has_clear_false; assumption.
Qed.

Lemma restriction_adjectives_narrows (name : string) (flags : Z) :
  narrows name flags (restriction_adjectives name flags).
Proof.
  unfold restriction_adjectives.
  pose proof (adjective_this_here_narrows name flags) as H1.
  destruct (adjective_this_here name flags) as [n1 f1].
  pose proof (adjective_my_narrows n1 f1) as H2.
  destruct (adjective_my n1 f1) as [n2 f2].
  pose proof (adjective_toward_narrows n2 f2) as H3.
  destruct (adjective_toward n2 f2) as [n3 f3].
  apply (narrows_trans _ _ _ _ H1).
  apply (narrows_trans _ _ _ _ H2).
  apply (narrows_trans _ _ _ _ H3).
  repeat split; cbn [fst snd]; auto.
  apply skip_blanks_suffix.
Qed.

(** The two ways in which [parse_english] ends: the full reset of lines
    683-687, or a residual name inside the text behind the adjectives
    together with the flags that the adjectives left. *)
Lemma parse_english_cases (name : string) (flags : Z) :
  let name1 := fst (restriction_adjectives name flags) in
  let flags1 := snd (restriction_adjectives name flags) in
  (name1 = EmptyString
   /\ parse_english name flags = (0, name, int_of_long flags))
  \/ (name1 <> EmptyString
      /\ exists count name',
          parse_english name flags = (count, name', flags1)
          /\ is_suffix name' name1 /\ 0 <= count).
Proof.
  unfold parse_english. cbv zeta.
  destruct (restriction_adjectives name flags) as [name1 flags1].
  cbn [fst snd].
  destruct name1 as [| c r]; [left; auto | right].
  split; [discriminate |].
  destruct (isdigit c); cbn [negb].
  - destruct (split_blank (String c r)) as [[tok rest] |] eqn:E.
    + destruct (Z.ltb_spec (count_adjective tok) 0).
      * exists 0, (String c r). repeat split; try lia. apply is_suffix_refl.
      * exists (count_adjective tok), (skip_blanks rest).
        repeat split; try lia.
        eapply is_suffix_trans; [apply skip_blanks_suffix |].
        eapply split_blank_suffix; eassumption.
    + exists 0, (String c r). repeat split; try lia. apply is_suffix_refl.
  - exists 0, (String c r). repeat split; try lia. apply is_suffix_refl.
Qed.

(** No adjective starts with a digit. *)
Lemma digit_is_no_letter (c : ascii) :
  isdigit c = true -> tolower c = zchar c /\ 48 <= zchar c <= 57.
Proof.
  unfold isdigit, tolower. intros H. apply andb_true_iff in H.
  destruct H as [H1 H2]. apply Z.leb_le in H1, H2.
  cbv zeta. destruct (Z.leb_spec 65 (zchar c)); simpl; lia.
Qed.

Lemma strncasecmp_second_differs
  (c1 c2 d1 d2 : ascii) (r q : string) (n : nat) :
  tolower c2 <> tolower d2 ->
  (strncasecmp (String c1 (String c2 r)) (String d1 (String d2 q))
     (S (S n)) =? 0) = false.
Proof.
  intros H. cbn [strncasecmp].
  destruct (Z.eqb_spec (tolower c1 - tolower d1) 0) as [E | E].
  - destruct (Z.eqb_spec (tolower c2 - tolower d2) 0) as [E2 | E2].
    + lia.
    + apply Z.eqb_neq. assumption.
  - apply Z.eqb_neq. assumption.
Qed.

Lemma adjective_this_here_id (name : string) (flags : Z) :
  (strncasecmp name "this here " 10 =? 0) = false ->
  (strncasecmp name "here " 5 =? 0) = false ->
  (strncasecmp name "this " 5 =? 0) = false ->
  adjective_this_here name flags = (name, flags).
Proof.
  intros H1 H2 H3. unfold adjective_this_here. rewrite H1, H2, H3.
  destruct (has flags MAT_NEIGHBOR); reflexivity.
Qed.

Lemma adjective_my_id (name : string) (flags : Z) :
  (strncasecmp name "my " 3 =? 0) = false ->
  (strncasecmp name "me " 3 =? 0) = false ->
  adjective_my name flags = (name, flags).
Proof.
  intros H1 H2. unfold adjective_my. rewrite H1, H2, andb_false_r.
  reflexivity.
Qed.

Lemma adjective_toward_id (name : string) (flags : Z) :
  (strncasecmp name "toward " 7 =? 0) = false ->
  adjective_toward name flags = (name, flags).
Proof.
  intros H1. unfold adjective_toward. rewrite H1, andb_false_r.
  reflexivity.
Qed.

Lemma digit_first_no_adjective (c : ascii) (r : string) (flags : Z) :
  isdigit c = true ->
  restriction_adjectives (String c r) flags = (String c r, flags).
Proof.
  intros D. destruct (digit_is_no_letter c D) as [L B].
  assert (N : forall (d : ascii) (q : string) (n : nat),
             97 <= tolower d ->
             (strncasecmp (String c r) (String d q) (S n) =? 0) = false).
  { intros d q n Hd. apply strncasecmp_head_differs. lia. }
  unfold restriction_adjectives.
  rewrite adjective_this_here_id, adjective_my_id, adjective_toward_id
    by (apply N; vm_compute; discriminate).
  cbn [skip_blanks].
  destruct (Z.eqb_spec (zchar c) 32); try lia; reflexivity.
Qed.

(* ================================================================= *)
(** ** The pools of the general search *)

Ltac pool_cases H :=
  repeat first
    [ apply in_app_or in H; destruct H as [H | H]
    | match type of H with
      | In _ (if false then _ else _) => cbv iota in H
      | In _ (if true then _ else _) => cbv iota in H
      | In _ (if ?c then _ else _) => destruct c
      | In _ (_ :: _) => cbn [In] in H
      | In _ [] => contradiction
      | _ \/ _ => destruct H as [H | H]
      | False => contradiction
      | (_, _) = (_, _) => inversion H; subst; clear H
      end ].

Lemma plan_without_exit_flag (where_ loc : dbref) (type flags : Z)
  (k : pool_kind) (x : dbref) :
  has flags MAT_EXIT = false ->
  In (k, x) (search_plan w where_ loc type flags) ->
  k <> RoomExits /\ k <> ZoneExits /\ k <> MasterExits.
Proof.
  intros HE H. unfold search_plan in H. cbv zeta in H.
  rewrite HE, !andb_false_r in H.
  pool_cases H; repeat split; discriminate.
Qed.

Lemma plan_without_possession_flags (where_ loc : dbref) (type flags : Z)
  (k : pool_kind) (x : dbref) :
  has flags (Z.lor MAT_POSSESSION MAT_REMOTE_CONTENTS) = false ->
  In (k, x) (search_plan w where_ loc type flags) ->
  k <> Possessions /\ k <> PossessionProxies.
Proof.
  intros HE H. unfold search_plan in H. cbv zeta in H.
  rewrite HE, !andb_false_r in H.
  pool_cases H; repeat split; discriminate.
Qed.

Lemma my_first_letter (name : string) :
  (strncasecmp name "my " 3 =? 0) || (strncasecmp name "me " 3 =? 0) = true ->
  exists c r, name = String c r /\ tolower c = 109.
Proof.
  intros H. apply orb_true_iff in H.
  destruct H as [H | H]; apply Z.eqb_eq in H;
    apply strncasecmp_cons in H; try (vm_compute; discriminate);
    destruct H as (c & r & -> & E & _); exists c, r; auto.
Qed.

Lemma toward_first_letters (name : string) :
  strncasecmp name "toward " 7 = 0 ->
  exists c1 c2 r, name = String c1 (String c2 r)
                  /\ tolower c1 = 116 /\ tolower c2 = 111.
Proof.
  intros H.
  apply strncasecmp_cons in H; try (vm_compute; discriminate).
  destruct H as (c1 & r1 & -> & E1 & H).
  apply strncasecmp_cons in H; try (vm_compute; discriminate).
  destruct H as (c2 & r2 & -> & E2 & _).
  exists c1, c2, r2. auto.
Qed.

(** What the adjectives do exclude.  With the english adjectives active
    and the adjective consumed (the parser moved the name): behind "my "
    or "me " the flag [MAT_EXIT] is off, so the general search visits
    neither the exits of the room nor those of its zone nor those of the
    master room, while [MAT_CARRIED_EXIT] is as the caller gave it; behind
    "toward " both possession flags are off, so the general search visits
    neither the possessions nor their proxies. *)
Lemma restriction_adjectives_exclusive
  (xname : string) (flags count : Z) (name' : string) (flags' : Z) :
  has flags MAT_ENGLISH = true ->
  parsed_phrase xname flags = (count, name', flags') ->
  name' <> xname ->
  (has flags MAT_POSSESSION = true ->
   (strncasecmp xname "my " 3 =? 0) || (strncasecmp xname "me " 3 =? 0)
     = true ->
   has flags' MAT_EXIT = false
   /\ has flags' MAT_CARRIED_EXIT = has flags MAT_CARRIED_EXIT
   /\ forall where_ loc type k x,
       In (k, x) (search_plan w where_ loc type flags') ->
       k <> RoomExits /\ k <> ZoneExits /\ k <> MasterExits)
  /\ (has flags (Z.lor MAT_EXIT MAT_CARRIED_EXIT) = true ->
      strncasecmp xname "toward " 7 = 0 ->
      has flags' (Z.lor MAT_POSSESSION MAT_REMOTE_CONTENTS) = false
      /\ forall where_ loc type k x,
          In (k, x) (search_plan w where_ loc type flags') ->
          k <> Possessions /\ k <> PossessionProxies).
Proof.
  intros HE HP HN. unfold parsed_phrase in HP. rewrite HE in HP.
  pose proof (parse_english_cases xname flags) as C. cbv zeta in C.
  destruct C as [[_ C] | [_ (c0 & n0 & C & _ & _)]];
    rewrite C in HP; inversion HP; subst; [contradiction |].
  clear HP C HN. split.
  - intros HPos HMy.
    destruct (my_first_letter _ HMy) as (c & r & -> & Ec).
    assert (F : has (snd (restriction_adjectives (String c r) flags))
                    MAT_EXIT = false
                /\ has (snd (restriction_adjectives (String c r) flags))
                       MAT_CARRIED_EXIT = has flags MAT_CARRIED_EXIT).
    { split.
      - unfold restriction_adjectives.
        rewrite adjective_this_here_id
          by (apply strncasecmp_head_differs; rewrite Ec; vm_compute;
              discriminate).
        unfold adjective_my at 1. rewrite HPos, HMy. cbn [andb].
        pose proof (adjective_toward_narrows (advance 3 (String c r))
                      (clear flags
                         (Z.lor (Z.lor (Z.lor MAT_NEIGHBOR MAT_EXIT)
                                       MAT_CONTAINER) MAT_REMOTE_CONTENTS)))
          as (_ & _ & M).
        destruct (adjective_toward _ _) as [n3 f3]. cbn [fst snd] in *.
        apply M. apply has_clear_in. reflexivity.
      - apply (restriction_adjectives_narrows (String c r) flags).
        reflexivity. }
    destruct F as [F1 F2]. repeat split; auto;
      eapply plan_without_exit_flag in H; tauto.
  - intros HEx HT.
    destruct (toward_first_letters _ HT) as (c1 & c2 & r & -> & E1 & E2).
    assert (F : has (snd (restriction_adjectives
                            (String c1 (String c2 r)) flags))
                    (Z.lor MAT_POSSESSION MAT_REMOTE_CONTENTS) = false).
    { unfold restriction_adjectives.
      rewrite adjective_this_here_id;
        try (apply strncasecmp_second_differs; rewrite E2; vm_compute;
             discriminate);
        try (apply strncasecmp_head_differs; rewrite E1; vm_compute;
             discriminate).
      rewrite adjective_my_id
        by (apply strncasecmp_head_differs; rewrite E1; vm_compute;
            discriminate).
      unfold adjective_toward. apply Z.eqb_eq in HT. rewrite HEx, HT.
      cbn [andb snd]. apply has_clear_in. reflexivity. }
    split; [assumption |]. intros where_ loc type k x H.
    eapply plan_without_possession_flags; eassumption.
Qed.

(* ================================================================= *)
(** ** The evaluation of a candidate *)

(** Reading a field of an updated state. *)
Ltac fields :=
  unfold set_match, set_bestmatch, set_nocontrol, set_counts, set_done,
    set_parsed in *;
  cbn [mc_match mc_bestmatch mc_abs mc_who mc_where mc_flags mc_type
       mc_final mc_curr mc_nocontrol mc_right_type mc_exact mc_done
       mc_name fst snd] in *.

Lemma matched_break_iff_done (full : bool) (mc : match_context) :
  mc_done mc = false ->
  fst (matched w full mc) = mc_done (snd (matched w full mc)).
Proof.
  intros D. unfold matched.
  repeat match goal with
         | |- context [if ?c then _ else _] => destruct c
         end; cbn; auto.
Qed.

Lemma body_break_iff_done (mc : match_context) :
  mc_done mc = false ->
  fst (match_obj_body w mc) = mc_done (snd (match_obj_body w mc)).
Proof.
  intros D. unfold match_obj_body.
  repeat match goal with
         | |- context [if ?c then _ else _] => destruct c
         end; auto using matched_break_iff_done.
Qed.

Lemma helper_done (atr : ATTR) (mc : match_context) :
  mc_done mc = true -> match_attr_helper w atr mc = (0, mc).
Proof.
  intros D. unfold match_attr_helper. rewrite D. reflexivity.
Qed.

Lemma helper_invalid (atr : ATTR) (mc : match_context) :
  proxy_valid w atr = false -> match_attr_helper w atr mc = (0, mc).
Proof.
  unfold proxy_valid, match_attr_helper, proxy_entity, proxy_priority.
  cbv zeta. intros V. destruct (mc_done mc); [reflexivity |].
  destruct (RealGoodObject w _); [| reflexivity].
  destruct (has_generic_flag w _); [| reflexivity].
  cbn [negb orb andb] in *.
  rewrite Z.ltb_antisym in V. apply negb_false_iff in V.
  rewrite V. reflexivity.
Qed.

Lemma helper_as_body (atr : ATTR) (mc : match_context) :
  mc_done mc = false ->
  proxy_valid w atr = true ->
  snd (match_attr_helper w atr mc)
  = snd (match_obj_body w (set_match (proxy_entity w atr) mc)).
Proof.
  unfold proxy_valid, match_attr_helper, match_obj_body, proxy_entity,
    proxy_priority.
  cbv zeta. intros D V. rewrite D.
  apply andb_true_iff in V. destruct V as [V P].
  apply andb_true_iff in V. destruct V as [R G].
  rewrite R, G. cbn [negb orb].
  rewrite Z.ltb_antisym in P. apply negb_true_iff in P. rewrite P.
  repeat match goal with
         | |- context [if ?c then _ else _] => destruct c
         end; try reflexivity;
    match goal with
    | |- context [matched w ?f ?m] => destruct (matched w f m); reflexivity
    end.
Qed.

(** What [matched] writes when it records a candidate without an ordinal
    target: the requester passes the control check and the tie-breaker
    keeps the candidate. *)
Lemma matched_recorded (full : bool) (mc : match_context) :
  MATCH_CONTROLS w mc = true ->
  mc_final mc = 0 ->
  BEST_MATCH w mc = mc_match mc ->
  let mc' := snd (matched w full mc) in
  fst (matched w full mc) = false
  /\ mc_bestmatch mc' = mc_match mc
  /\ mc_exact mc' = full || mc_exact mc
  /\ mc_curr mc' = (if full && negb (mc_exact mc) then 1 else mc_curr mc + 1)
  /\ mc_right_type mc'
     = (if full && negb (mc_exact mc) then 0 else mc_right_type mc)
       + (if of_preferred_type w (mc_type mc) (mc_match mc) then 1 else 0).
Proof.
  intros C F B. unfold matched, of_preferred_type. rewrite C, F.
  cbn [negb Z.eqb mc_bestmatch mc_match set_bestmatch].
  rewrite B, Z.eqb_refl. cbn [negb]. fields.
  destruct full, (mc_exact mc) eqn:EX; fields;
    destruct (negb (mc_type mc =? NOTYPE)
              && truthy (Z.land (Typeof w (mc_match mc)) (mc_type mc)));
    fields; rewrite ?EX; cbn [andb negb]; repeat split; lia.
Qed.

Lemma matched_counted (full : bool) (mc : match_context) :
  MATCH_CONTROLS w mc = true ->
  mc_final mc <> 0 ->
  mc_curr (snd (matched w full mc)) = mc_curr mc + 1.
Proof.
  intros C F. unfold matched. rewrite C. apply Z.eqb_neq in F. rewrite F.
  cbn [negb]. fields.
  destruct (mc_curr mc + 1 =? mc_final mc); reflexivity.
Qed.

(* ================================================================= *)
(** ** The state in front of the general search *)

Lemma fresh_set_match who where_ xname type flags mc x :
  fresh w who where_ xname type flags mc ->
  fresh w who where_ xname type flags (set_match x mc).
Proof. unfold fresh. fields. tauto. Qed.

Lemma fresh_set_nocontrol who where_ xname type flags mc :
  fresh w who where_ xname type flags mc ->
  fresh w who where_ xname type flags (set_nocontrol mc).
Proof. unfold fresh. fields. tauto. Qed.

Section Fresh.

Variables (who where_ : dbref) (xname : string) (type flags : Z).

Let ok := fresh w who where_ xname type flags.

Lemma check_where_fresh mc mc' :
  ok mc -> check_where w who where_ flags mc = inr mc' -> ok mc'.
Proof.
  unfold check_where. intros F. destruct (_ || _); [discriminate |].
  intros [= <-]. assumption.
Qed.

Lemma shortcut_me_fresh mc mc' :
  ok mc -> shortcut_me w where_ xname flags mc = inr mc' -> ok mc'.
Proof.
  unfold shortcut_me. intros F.
  apply (fresh_set_match _ _ _ _ _ _ where_) in F.
  destruct (_ && _); [| intros [= <-]; assumption].
  destruct (MATCH_CONTROLS w _); [discriminate |].
  intros [= <-]. apply fresh_set_nocontrol. assumption.
Qed.

Lemma shortcut_here_fresh mc mc' :
  ok mc -> shortcut_here w where_ xname flags mc = inr mc' -> ok mc'.
Proof.
  unfold shortcut_here. intros F. cbv zeta.
  match goal with
  | |- context [set_match ?x mc] =>
      apply (fresh_set_match _ _ _ _ _ _ x) in F;
      generalize dependent (set_match x mc)
  end.
  intros m F.
  destruct (_ && _); [| intros [= <-]; assumption].
  destruct (MATCH_CONTROLS w _); [discriminate |].
  intros [= <-]. apply fresh_set_nocontrol. assumption.
Qed.

Lemma shortcut_player_fresh mc mc' :
  ok mc -> shortcut_player w who xname type flags mc = inr mc' -> ok mc'.
Proof.
  unfold shortcut_player. intros F. cbv zeta.
  destruct (_ && _); [| intros [= <-]; assumption].
  match goal with
  | |- context [set_match ?x mc] =>
      apply (fresh_set_match _ _ _ _ _ _ x) in F;
      generalize dependent (set_match x mc)
  end.
  intros m F.
  destruct (MATCH_CONTENTS w m); [| intros [= <-]; assumption].
  destruct (GoodObject w (mc_match m)) eqn:G.
  - destruct (_ || _); [| intros [= <-]; assumption].
    destruct (MATCH_CONTROLS w m); [discriminate |].
    intros [= <-]. apply fresh_set_nocontrol. assumption.
  - intros [= <-]. unfold ok, fresh in *. fields.
    repeat split; try tauto.
    unfold BEST_MATCH.
    destruct (choose_thing_either (mc_who m) (mc_type m) (mc_flags m)
                (mc_bestmatch m) (mc_match m)) as [-> | ->]; tauto.
Qed.

Lemma shortcut_dbref_fresh mc mc' :
  ok mc -> shortcut_dbref w who flags mc = inr mc' -> ok mc'.
Proof.
  unfold shortcut_dbref. intros F. cbv zeta.
  match goal with
  | |- context [set_match ?x mc] =>
      apply (fresh_set_match _ _ _ _ _ _ x) in F;
      generalize dependent (set_match x mc)
  end.
  intros m F.
  destruct (_ && _); [| intros [= <-]; assumption].
  destruct (_ || _); [| intros [= <-]; assumption].
  destruct (MATCH_CONTROLS w m); [discriminate |].
  intros [= <-]. apply fresh_set_nocontrol. assumption.
Qed.

Lemma shortcuts_fresh mc :
  shortcuts w who where_ xname type flags = inr mc -> ok mc.
Proof.
  unfold shortcuts.
  assert (F0 : ok (initial_context w who where_ xname type flags)).
  { unfold ok, fresh, initial_context. fields. repeat split; reflexivity. }
  destruct (check_where w who where_ flags _) as [r | m1] eqn:E1;
    [discriminate |].
  apply (check_where_fresh _ _ F0) in E1. cbn [and_then].
  destruct (shortcut_me w where_ xname flags m1) as [r | m2] eqn:E2;
    [discriminate |].
  apply (shortcut_me_fresh _ _ E1) in E2. cbn [and_then].
  destruct (shortcut_here w where_ xname flags m2) as [r | m3] eqn:E3;
    [discriminate |].
  apply (shortcut_here_fresh _ _ E2) in E3. cbn [and_then].
  destruct (shortcut_player w who xname type flags m3) as [r | m4] eqn:E4;
    [discriminate |].
  apply (shortcut_player_fresh _ _ E3) in E4. cbn [and_then].
  apply shortcut_dbref_fresh. assumption.
Qed.

End Fresh.

(* ================================================================= *)
(** ** The traversal of the pools *)

Lemma while_good_In (l : list dbref) (x : dbref) :
  In x (while_good w l) -> GoodObject w x = true.
Proof.
  induction l as [| y r IH]; simpl; [contradiction |].
  destruct (GoodObject w y) eqn:G; simpl; [| contradiction].
  intros [<- | H]; auto.
Qed.

Lemma proxy_candidates_In (l : list ATTR) (x : dbref) :
  In x (proxy_candidates w l) -> GoodObject w x = true.
Proof.
  unfold proxy_candidates. rewrite in_map_iff.
  intros (atr & <- & H). apply filter_In in H. destruct H as [_ V].
  unfold proxy_valid in V.
  apply andb_true_iff in V. destruct V as [V _].
  apply andb_true_iff in V. destruct V as [V _].
  apply RealGoodObject_good. assumption.
Qed.

Lemma pool_candidates_In (p : pool) (x : dbref) :
  In x (pool_candidates w p) -> GoodObject w x = true.
Proof.
  unfold pool_candidates. destruct (is_proxy_pool (fst p)).
  - apply proxy_candidates_In.
  - apply while_good_In.
Qed.

Lemma atr_iter_done (l : list ATTR) (mc : match_context) :
  mc_done mc = true -> snd (atr_iter w l mc) = mc.
Proof.
  intros D. induction l as [| atr r IH]; simpl; [reflexivity |].
  rewrite helper_done by assumption.
  destruct (atr_iter w r mc). simpl in *. assumption.
Qed.

(** The attribute iterator evaluates the valid proxies as an object list
    evaluates its members. *)
Lemma atr_iter_as_loop (l : list ATTR) (mc : match_context) :
  mc_done mc = false ->
  snd (atr_iter w l mc) = match_obj_loop w (proxy_candidates w l) mc.
Proof.
  revert mc. induction l as [| atr r IH]; intros mc D; [reflexivity |].
  unfold proxy_candidates. cbn [atr_iter filter].
  destruct (proxy_valid w atr) eqn:V.
  - cbn [map match_obj_loop].
    pose proof (helper_as_body atr mc D V) as HB.
    pose proof (body_break_iff_done (set_match (proxy_entity w atr) mc) D)
      as BD.
    destruct (match_attr_helper w atr mc) as [n m1].
    destruct (match_obj_body w (set_match (proxy_entity w atr) mc))
      as [brk m2].
    cbn [fst snd] in *. subst m2.
    destruct (atr_iter w r m1) as [k m3] eqn:E. cbn [snd].
    destruct brk.
    + pose proof (atr_iter_done r m1 (eq_sym BD)) as K.
      rewrite E in K. exact K.
    + specialize (IH m1 (eq_sym BD)). rewrite E in IH. exact IH.
  - rewrite helper_invalid by assumption.
    specialize (IH mc D).
    destruct (atr_iter w r mc) as [k m3]. exact IH.
Qed.

(** A principle for the whole traversal.  [P l mc] reads: [mc] is a state
    in which the candidates [l] are behind the search. *)
Section Scan.

Variable P : list dbref -> match_context -> Prop.

Hypothesis P_match :
  forall l mc x, P l mc -> P l (set_match x mc).

Hypothesis P_body :
  forall l mc x,
    GoodObject w x = true -> mc_done mc = false -> P l mc ->
    P (l ++ [x]) (snd (match_obj_body w (set_match x mc))).

Hypothesis P_skip :
  forall l mc x, mc_done mc = true -> P l mc -> P (l ++ [x]) mc.

Lemma scan_skip (r l : list dbref) (mc : match_context) :
  mc_done mc = true -> P l mc -> P (l ++ r) mc.
Proof.
  revert l. induction r as [| x r IH]; intros l D H.
  - rewrite app_nil_r. assumption.
  - replace (l ++ x :: r)%list with ((l ++ [x]) ++ r)%list
      by (rewrite <- app_assoc; reflexivity).
    apply IH; auto.
Qed.

Lemma scan_loop (r l : list dbref) (mc : match_context) :
  (forall x, In x r -> GoodObject w x = true) ->
  mc_done mc = false -> P l mc ->
  P (l ++ r) (match_obj_loop w r mc).
Proof.
  revert l mc. induction r as [| x r IH]; intros l mc G D H.
  - rewrite app_nil_r. assumption.
  - cbn [match_obj_loop].
    pose proof (P_body l mc x (G x (or_introl eq_refl)) D H) as B.
    pose proof (body_break_iff_done (set_match x mc) D) as BD.
    destruct (match_obj_body w (set_match x mc)) as [brk m1].
    cbn [fst snd] in *.
    replace (l ++ x :: r)%list with ((l ++ [x]) ++ r)%list
      by (rewrite <- app_assoc; reflexivity).
    destruct brk.
    + apply scan_skip; auto.
    + apply IH; auto. intros y Hy. apply G. right. assumption.
Qed.

Lemma scan_pools (plan : list pool) (l : list dbref) (mc : match_context) :
  P l mc ->
  P (l ++ flat_map (pool_candidates w) plan) (run_pools w plan mc).
Proof.
  revert l mc. induction plan as [| [k x] plan IH]; intros l mc H.
  - cbn. rewrite app_nil_r. assumption.
  - cbn [run_pools flat_map]. rewrite app_assoc.
    unfold pool_candidates at 1. cbn [fst snd].
    destruct (mc_done mc) eqn:D.
    + assert (E : (if is_proxy_pool k
                   then let '(brk, mc0) := match_attr_list w x mc in
                        if brk then mc0 else run_pools w plan mc0
                   else let '(result, mc0) := match_obj_list w x mc in
                        if result =? 1 then mc0 else run_pools w plan mc0)
                  = mc).
      { unfold match_attr_list, match_obj_list. rewrite D.
        destruct (is_proxy_pool k); reflexivity. }
      rewrite E. rewrite <- app_assoc. apply scan_skip; assumption.
    + destruct (is_proxy_pool k).
      * unfold match_attr_list. rewrite D.
        pose proof (atr_iter_as_loop (generic_attrs w x) mc D) as A.
        destruct (atr_iter w (generic_attrs w x) mc) as [n m1].
        cbn [snd] in A. subst m1.
        assert (Q : P (l ++ proxy_candidates w (generic_attrs w x))
                      (match_obj_loop w
                         (proxy_candidates w (generic_attrs w x)) mc)).
        { apply scan_loop; auto. intros y. apply proxy_candidates_In. }
        destruct (mc_done (match_obj_loop w _ mc)) eqn:D1.
        -- apply scan_skip; assumption.
        -- apply IH. assumption.
      * unfold match_obj_list. rewrite D. cbn [Z.eqb].
        apply IH. apply scan_loop.
        -- intros y. apply while_good_In.
        -- fields. assumption.
        -- apply P_match. assumption.
Qed.

End Scan.

Lemma match_obj_list_result (start : dbref) (mc : match_context) :
  fst (match_obj_list w start mc) = 1 \/ fst (match_obj_list w start mc) = 2.
Proof.
  unfold match_obj_list. destruct (mc_done mc); auto.
Qed.

(** The body of [while (1)] visits the pools of the plan. *)
Lemma seq_skip_r (s : statement) (mc : match_context) :
  seq s skip mc = s mc.
Proof. unfold seq, skip. destruct (s mc) as [[|] m]; reflexivity. Qed.

Lemma seq_assoc (a b c : statement) (mc : match_context) :
  seq (seq a b) c mc = seq a (seq b c) mc.
Proof.
  unfold seq. destruct (a mc) as [[|] m]; [reflexivity |].
  destruct (b m) as [[|] m']; reflexivity.
Qed.

Lemma seq_ext (a a' b b' : statement) (mc : match_context) :
  (forall m, a m = a' m) -> (forall m, b m = b' m) ->
  seq a b mc = seq a' b' mc.
Proof.
  intros Ha Hb. unfold seq. rewrite Ha.
  destruct (a' mc) as [[|] m]; [reflexivity | apply Hb].
Qed.

Lemma visits_app (l1 l2 : list pool) (mc : match_context) :
  visits w (l1 ++ l2) mc = seq (visits w l1) (visits w l2) mc.
Proof.
  revert mc. induction l1 as [| [k x] r IH]; intros mc; [reflexivity |].
  cbn [app visits]. rewrite seq_assoc. apply seq_ext; auto.
Qed.

Lemma realizes_seq (s1 s2 : statement) (l1 l2 : list pool) :
  realizes w s1 l1 -> realizes w s2 l2 -> realizes w (seq s1 s2) (l1 ++ l2).
Proof.
  intros H1 H2 mc. rewrite visits_app. apply seq_ext; assumption.
Qed.

Lemma realizes_when (c : bool) (s : statement) (l : list pool) :
  realizes w s l -> realizes w (when c s) (if c then l else []).
Proof.
  intros H mc. destruct c; [apply H | reflexivity].
Qed.

Lemma realizes_list (k : pool_kind) (x : dbref) :
  is_proxy_pool k = false -> realizes w (MATCH_LIST w x) [(k, x)].
Proof.
  intros K mc. cbn [visits]. rewrite K, seq_skip_r. reflexivity.
Qed.

Lemma realizes_generic (k : pool_kind) (x : dbref) :
  is_proxy_pool k = true -> realizes w (MATCH_GENERIC w x) [(k, x)].
Proof.
  intros K mc. cbn [visits]. rewrite K, seq_skip_r. reflexivity.
Qed.

Lemma visits_run_pools (l : list pool) (mc : match_context) :
  snd (visits w l mc) = run_pools w l mc.
Proof.
  revert mc. induction l as [| [k x] r IH]; intros mc; [reflexivity |].
  cbn [visits run_pools]. unfold seq.
  destruct (is_proxy_pool k).
  - unfold MATCH_GENERIC. destruct (match_attr_list w x mc) as [[|] m];
      [reflexivity | apply IH].
  - unfold MATCH_LIST. destruct (match_obj_list w x mc) as [res m].
    destruct (res =? 1); [reflexivity | apply IH].
Qed.

Lemma general_search_realizes (where_ loc : dbref) (type flags : Z) :
  realizes w (general_search w where_ loc type flags)
    (search_plan w where_ loc type flags).
Proof.
  unfold general_search, search_plan. cbv zeta.
  apply realizes_seq.
  { apply realizes_when.
    apply (realizes_seq _ _ [(Possessions, _)] [(PossessionProxies, _)]).
    - apply realizes_list. reflexivity.
    - apply realizes_generic. reflexivity. }
  apply realizes_seq.
  { apply realizes_when.
    apply (realizes_seq _ _ [(Neighbors, _)] [(NeighborProxies, _)]).
    - apply realizes_list. reflexivity.
    - apply realizes_generic. reflexivity. }
  apply realizes_seq.
  { apply realizes_when. apply realizes_when.
    apply realizes_seq;
      [apply realizes_when, realizes_list; reflexivity |].
    apply realizes_seq;
      [apply realizes_when, realizes_list; reflexivity |].
    apply realizes_when, realizes_list. reflexivity. }
  apply realizes_seq.
  { apply realizes_when, realizes_list. reflexivity. }
  apply realizes_when. apply realizes_when.
  apply realizes_list. reflexivity.
Qed.

Lemma search_as_plan (where_ : dbref) (type : Z) (mc : match_context) :
  search w where_ type mc
  = run_pools w
      (search_plan w where_ (location_of w where_) type (mc_flags mc)) mc.
Proof.
  unfold search. rewrite general_search_realizes. apply visits_run_pools.
Qed.

(** The result of a call that reaches the general search. *)
Lemma match_result_internal_search who where_ xname type flags mc0 :
  shortcuts w who where_ xname type flags = inr mc0 ->
  let mc1 := search_start xname flags mc0 in
  fst (match_result_internal w who where_ xname type flags)
  = mc_bestmatch (classify w (mc_flags mc1) (search w where_ type mc1)).
Proof.
  intros S. unfold match_result_internal, search_start, search. rewrite S.
  destruct (parsed_phrase xname flags) as [[final name] flags'].
  fields.
  destruct (general_search w where_ (location_of w where_) type flags' _)
    as [brk m].
  reflexivity.
Qed.

Lemma search_start_fields xname flags mc0 :
  let mc1 := search_start xname flags mc0 in
  mc_final mc1 = fst (fst (parsed_phrase xname flags))
  /\ mc_name mc1 = snd (fst (parsed_phrase xname flags))
  /\ mc_flags mc1 = snd (parsed_phrase xname flags)
  /\ mc_abs mc1 = mc_abs mc0 /\ mc_who mc1 = mc_who mc0
  /\ mc_where mc1 = mc_where mc0 /\ mc_type mc1 = mc_type mc0
  /\ mc_curr mc1 = mc_curr mc0 /\ mc_right_type mc1 = mc_right_type mc0
  /\ mc_exact mc1 = mc_exact mc0 /\ mc_done mc1 = mc_done mc0
  /\ mc_bestmatch mc1 = mc_bestmatch mc0
  /\ mc_nocontrol mc1 = mc_nocontrol mc0.
Proof.
  unfold search_start. destruct (parsed_phrase xname flags) as [[c n] f].
  fields. repeat split.
Qed.

(** The phrase parser leaves every flag outside the scope flags as the
    caller gave it. *)
Lemma parsed_phrase_keeps (xname : string) (flags n : Z) :
  0 <= n < 32 -> Z.land (2 ^ n) scope_mask = 0 ->
  has (snd (parsed_phrase xname flags)) (2 ^ n) = has flags (2 ^ n).
Proof.
  intros Hn Hs. unfold parsed_phrase.
  destruct (has flags MAT_ENGLISH); [| reflexivity].
  pose proof (parse_english_cases xname flags) as C. cbv zeta in C.
  destruct C as [[_ C] | [_ (c0 & n0 & C & _ & _)]]; rewrite C; cbn [snd].
  - apply has_int_of_long. assumption.
  - apply (restriction_adjectives_narrows xname flags). assumption.
Qed.

Lemma parsed_phrase_count (xname : string) (flags : Z) :
  0 <= fst (fst (parsed_phrase xname flags)).
Proof.
  unfold parsed_phrase.
  destruct (has flags MAT_ENGLISH); [| cbn; lia].
  pose proof (parse_english_cases xname flags) as C. cbv zeta in C.
  destruct C as [[_ C] | [_ (c0 & n0 & C & _ & H)]]; rewrite C; cbn; lia.
Qed.

(* ================================================================= *)
(** ** The two modes of the evaluator *)

Lemma same_query_refl (mc : match_context) : same_query mc mc.
Proof. unfold same_query. tauto. Qed.

Lemma same_query_trans (a b c : match_context) :
  same_query a b -> same_query b c -> same_query a c.
Proof. unfold same_query. intuition congruence. Qed.

Lemma same_query_set_match (mc : match_context) (x : dbref) :
  same_query mc (set_match x mc).
Proof. unfold same_query. fields. tauto. Qed.

Lemma matched_same_query (full : bool) (mc : match_context) :
  same_query mc (snd (matched w full mc)).
Proof.
  unfold matched, same_query.
  repeat match goal with
         | |- context [if ?c then _ else _] => destruct c
         end; fields; tauto.
Qed.

Lemma body_same_query (mc : match_context) :
  same_query mc (snd (match_obj_body w mc)).
Proof.
  unfold match_obj_body.
  repeat match goal with
         | |- context [if ?c then _ else _] => destruct c
         end;
    auto using matched_same_query, same_query_refl.
Qed.

(** Without an ordinal target [matched] either leaves the best match and
    the counters alone or records the candidate. *)
Lemma matched_unranked (full : bool) (mc : match_context) :
  mc_final mc = 0 ->
  let mc' := snd (matched w full mc) in
  mc_done mc' = mc_done mc
  /\ ((mc_exact mc' = mc_exact mc /\ mc_bestmatch mc' = mc_bestmatch mc
       /\ mc_curr mc' = mc_curr mc
       /\ mc_right_type mc' = mc_right_type mc)
      \/ (MATCH_CONTROLS w mc = true /\ BEST_MATCH w mc = mc_match mc
          /\ mc_bestmatch mc' = mc_match mc
          /\ mc_exact mc' = full || mc_exact mc
          /\ mc_curr mc'
             = (if full && negb (mc_exact mc) then 1 else mc_curr mc + 1)
          /\ mc_right_type mc'
             = (if full && negb (mc_exact mc) then 0
                else mc_right_type mc)
               + (if of_preferred_type w (mc_type mc) (mc_match mc)
                  then 1 else 0))).
Proof.
  intros F. cbv zeta.
  destruct (MATCH_CONTROLS w mc) eqn:C.
  - destruct (Z.eqb_spec (BEST_MATCH w mc) (mc_match mc)) as [B | B].
    + destruct (matched_recorded full mc C F B) as (_ & R1 & R2 & R3 & R4).
      split.
      * unfold matched. rewrite C, F. cbn [negb Z.eqb]. fields.
        rewrite B, Z.eqb_refl. cbn [negb].
        repeat match goal with
               | |- context [if ?c then _ else _] => destruct c
               end; fields; reflexivity.
      * right. tauto.
    + unfold matched. rewrite C, F. cbn [negb Z.eqb]. fields.
      apply Z.eqb_neq in B. rewrite B. cbn [negb]. fields.
      split; [reflexivity |]. left. repeat split.
      apply Z.eqb_neq in B. unfold BEST_MATCH in *.
      destruct (choose_thing_either (mc_who mc) (mc_type mc) (mc_flags mc)
                  (mc_bestmatch mc) (mc_match mc)) as [E | E];
        congruence.
  - unfold matched. rewrite C. cbn [negb]. fields. tauto.
Qed.

(** With an ordinal target [matched] counts the candidate when the
    requester passes the control check, and selects it when the counter
    reaches the target. *)
Lemma matched_ranked (full : bool) (mc : match_context) :
  mc_final mc <> 0 ->
  let mc' := snd (matched w full mc) in
  mc_exact mc' = mc_exact mc
  /\ mc_right_type mc' = mc_right_type mc
  /\ if MATCH_CONTROLS w mc then
       mc_curr mc' = mc_curr mc + 1
       /\ if mc_curr mc + 1 =? mc_final mc
          then mc_done mc' = true /\ mc_bestmatch mc' = mc_match mc
          else mc_done mc' = mc_done mc
               /\ mc_bestmatch mc' = mc_bestmatch mc
     else mc_curr mc' = mc_curr mc /\ mc_done mc' = mc_done mc
          /\ mc_bestmatch mc' = mc_bestmatch mc.
Proof.
  intros F. cbv zeta. unfold matched. apply Z.eqb_neq in F. rewrite F.
  destruct (MATCH_CONTROLS w mc); cbn [negb]; fields.
  - destruct (mc_curr mc + 1 =? mc_final mc); fields; tauto.
  - tauto.
Qed.

(** The tie-breaker keeps a live entity of the preferred type against a
    live entity of another type. *)
Lemma choose_thing_prefers_type (who : dbref) (type flags : Z) (a b : dbref) :
  GoodObject w a = true -> GoodObject w b = true ->
  of_preferred_type w type a = true -> of_preferred_type w type b = false ->
  choose_thing w who type flags a b = a.
Proof.
  unfold choose_thing, of_preferred_type. intros Ga Gb Pa Pb.
  rewrite Ga, Gb. cbn [negb andb].
  apply andb_true_iff in Pa. destruct Pa as [Pt Pa]. rewrite Pt, Pa.
  rewrite Pt in Pb. cbn [andb] in Pb. rewrite Pb. reflexivity.
Qed.

(** The preferred-type counter, when it is not zero, counts matches of a
    search without an ordinal target, and the best match is then a live
    entity of the preferred type. *)
Lemma body_keeps_preferred (mc : match_context) (x : dbref) :
  GoodObject w x = true ->
  (0 <= mc_right_type mc
   /\ (0 < mc_right_type mc ->
       mc_final mc = 0 /\ GoodObject w (mc_bestmatch mc) = true
       /\ of_preferred_type w (mc_type mc) (mc_bestmatch mc) = true)) ->
  let mc' := snd (match_obj_body w (set_match x mc)) in
  0 <= mc_right_type mc'
  /\ (0 < mc_right_type mc' ->
      mc_final mc = 0 /\ GoodObject w (mc_bestmatch mc') = true
      /\ of_preferred_type w (mc_type mc) (mc_bestmatch mc') = true).
Proof.
  intros G (R0 & J). cbv zeta.
  assert (X : forall full,
             0 <= mc_right_type (snd (matched w full (set_match x mc)))
             /\ (0 < mc_right_type (snd (matched w full (set_match x mc))) ->
                 mc_final mc = 0
                 /\ GoodObject w
                      (mc_bestmatch (snd (matched w full (set_match x mc))))
                    = true
                 /\ of_preferred_type w (mc_type mc)
                      (mc_bestmatch (snd (matched w full (set_match x mc))))
                    = true)).
  { intros full. destruct (Z.eq_dec (mc_final mc) 0) as [F | F].
    - destruct (matched_unranked full (set_match x mc) F)
        as (_ & [(_ & B & _ & R) | (_ & BM & B & _ & _ & R)]);
        fields; rewrite B, R.
      + split; assumption.
      + destruct (of_preferred_type w (mc_type mc) x) eqn:Px.
        * split; [destruct (full && negb (mc_exact mc)); lia |].
          intros _. auto.
        * destruct (full && negb (mc_exact mc)); [split; lia |].
          rewrite Z.add_0_r. split; [assumption |]. intros H.
          destruct (J H) as (_ & Gb & Pb).
          unfold BEST_MATCH in BM. fields.
          rewrite (choose_thing_prefers_type _ _ _ _ _ Gb G Pb Px) in BM.
          rewrite BM in Pb. congruence.
    - destruct (matched_ranked full (set_match x mc) F) as (_ & R & _).
      fields. rewrite R. split; [assumption |]. intros H.
      destruct (J H) as (F0 & _). contradiction. }
  unfold match_obj_body.
  repeat match goal with
         | |- context [if ?c then _ else _] => destruct c
         end; try apply X; fields; split; assumption.
Qed.

(* ================================================================= *)
(** ** The classification of the result *)

(** The classification in terms of the counters.  When the general
    search ends without an ordinal target and with a match count above 1,
    the result is [AMBIGUOUS], unless the preferred-type counter stands at
    exactly 1 or the caller asked for the last match ([MAT_LAST]); in both
    of these cases the current best match is the result.  When the counter
    stands at 1, a type filter is given and that best match is a live
    entity whose type intersects it. *)
Lemma classified_by_counters
  (who where_ : dbref) (xname : string) (type flags : Z)
  (mc0 : match_context) :
  shortcuts w who where_ xname type flags = inr mc0 ->
  let mc := search w where_ type (search_start xname flags mc0) in
  let r := fst (match_result_internal w who where_ xname type flags) in
  mc_final mc = 0 ->
  1 < mc_curr mc ->
  r = (if (mc_right_type mc =? 1) || has flags MAT_LAST
       then mc_bestmatch mc else AMBIGUOUS)
  /\ (mc_right_type mc = 1 ->
      r = mc_bestmatch mc /\ GoodObject w r = true
      /\ of_preferred_type w type r = true).
Proof.
  intros S mc r F C.
  assert (R : r = if (mc_right_type mc =? 1) || has flags MAT_LAST
                  then mc_bestmatch mc else AMBIGUOUS).
  { subst r. rewrite (match_result_internal_search _ _ _ _ _ _ S). cbv zeta.
    fold mc. unfold classify. rewrite F.
    cbn [truthy Z.eqb negb]. rewrite andb_false_r. cbn [andb].
    apply Z.ltb_lt in C. rewrite C.
    destruct (search_start_fields xname flags mc0) as (_ & _ & FL & _).
    rewrite FL.
    change MAT_LAST with (2 ^ 25).
    rewrite parsed_phrase_keeps by (try lia; reflexivity).
    destruct (mc_right_type mc =? 1), (has flags (2 ^ 25)); reflexivity. }
  split; [exact R |]. intros R1.
  rewrite R, R1. cbn [Z.eqb orb Pos.eqb].
  split; [reflexivity |].
  pose proof (shortcuts_fresh _ _ _ _ _ _ S) as FR.
  destruct (search_start_fields xname flags mc0)
    as (_ & _ & _ & _ & _ & _ & TY & _ & RT & _).
  destruct FR as (_ & _ & _ & _ & T0 & _ & _ & R0 & _).
  rewrite T0 in TY. rewrite R0 in RT.
  set (mc1 := search_start xname flags mc0) in *.
  set (P := fun (_ : list dbref) (m : match_context) =>
              same_query mc1 m
              /\ 0 <= mc_right_type m
              /\ (0 < mc_right_type m ->
                  mc_final m = 0 /\ GoodObject w (mc_bestmatch m) = true
                  /\ of_preferred_type w (mc_type m) (mc_bestmatch m)
                     = true)).
  assert (H : P ([] ++ flat_map (pool_candidates w)
                   (search_plan w where_ (location_of w where_) type
                      (mc_flags mc1)))%list mc).
  { unfold mc. rewrite search_as_plan. apply scan_pools; unfold P.
    - intros l m x (Q & H). split; [| fields; exact H].
      eapply same_query_trans; [eassumption |].
      apply (same_query_set_match m x).
    - intros l m x G D (Q & H).
      pose proof (body_same_query (set_match x m)) as Q'.
      split.
      { eapply same_query_trans; [eassumption |].
        eapply same_query_trans; [apply (same_query_set_match m x) |].
        exact Q'. }
      destruct Q' as (_ & _ & _ & _ & QT & QF & _). fields.
      rewrite <- QT, <- QF. apply body_keeps_preferred; assumption.
    - intros l m x _ H. exact H.
    - split; [apply same_query_refl |]. rewrite RT. split; lia. }
  destruct H as (Q & _ & J).
  destruct Q as (_ & _ & _ & _ & QT & _).
  rewrite <- QT, TY in J. apply J. lia.
Qed.

(* ================================================================= *)
(** ** Exact matches come first *)

Lemma exact_candidate_query (a b : match_context) (x : dbref) :
  same_query a b -> exact_candidate w a x = exact_candidate w b x.
Proof.
  intros (A & _ & _ & _ & _ & _ & N).
  unfold exact_candidate, exact_name. fields. rewrite A, N. reflexivity.
Qed.

(** The state of a search without an ordinal target in which an exact
    match, once latched, is the best match. *)
Lemma body_keeps_exact (q mc : match_context) (x : dbref) :
  GoodObject w x = true ->
  same_query q mc ->
  mc_final mc = 0 ->
  (mc_exact mc = true ->
   GoodObject w (mc_bestmatch mc) = true
   /\ exact_candidate w q (mc_bestmatch mc) = true) ->
  let mc' := snd (match_obj_body w (set_match x mc)) in
  mc_exact mc' = true ->
  GoodObject w (mc_bestmatch mc') = true
  /\ exact_candidate w q (mc_bestmatch mc') = true.
Proof.
  intros G Q F I. cbv zeta.
  assert (Q' : same_query q (set_match x mc))
    by (eapply same_query_trans; [eassumption | apply same_query_set_match]).
  assert (X : forall full,
             (full = true -> exact_candidate w q x = true) ->
             (full = false -> mc_exact mc = false) ->
             mc_exact (snd (matched w full (set_match x mc))) = true ->
             GoodObject w
               (mc_bestmatch (snd (matched w full (set_match x mc)))) = true
             /\ exact_candidate w q
                  (mc_bestmatch (snd (matched w full (set_match x mc))))
                = true).
  { intros full Hf Hp.
    destruct (matched_unranked full (set_match x mc) F)
      as (_ & [(E & B & _) | (_ & _ & B & E & _)]);
      rewrite B, E; fields.
    - assumption.
    - destruct full; cbn [orb].
      + intros _. auto.
      + intros H. rewrite Hp in H by reflexivity. discriminate. }
  unfold match_obj_body.
  destruct (MATCH_TYPE w (set_match x mc) =? 0); [exact I |].
  destruct (Z.eqb_spec (mc_match (set_match x mc)) (mc_abs (set_match x mc)))
    as [A | A].
  { apply X; [| discriminate]. intros _.
    rewrite (exact_candidate_query _ _ _ Q').
    unfold exact_candidate. fields. rewrite A, Z.eqb_refl. reflexivity. }
  destruct (can_interact_match w _ _); cbn [negb]; [| exact I].
  destruct (exact_name w (set_match x mc)) eqn:EN.
  { apply X; [| discriminate]. intros _.
    rewrite (exact_candidate_query _ _ _ Q').
    unfold exact_candidate. fields.
    unfold set_match in EN. rewrite EN. apply orb_true_r. }
  destruct (partial_name w (set_match x mc)) eqn:PN; [| exact I].
  apply X; [discriminate |]. intros _.
  unfold partial_name in PN. fields.
  destruct (mc_exact mc); [| reflexivity].
  destruct (I eq_refl) as [GB _]. rewrite GB in PN.
  cbn [negb orb] in PN. rewrite andb_false_r in PN. discriminate.
Qed.

(** C1.  In a call that reaches the general search without an ordinal
    target: (1) if the search ends with the exact latch set, the result
    is [AMBIGUOUS] or a live entity that the evaluator took for an exact
    match of the residual name (by alias, by full name, or as the
    absolute reference of the text), never one that matched only
    partially; (2) once the latch is set and the best match is live, no
    candidate passes the partial-name test any more; (3) when the first
    exact match is recorded, the match count becomes 1 and the
    preferred-type counter restarts from 0, counting that match alone, so
    whatever the partial matches had accumulated is discarded. *)
Theorem exact_match_precedence
  (who where_ : dbref) (xname : string) (type flags : Z)
  (mc0 : match_context) :
  shortcuts w who where_ xname type flags = inr mc0 ->
  let mc1 := search_start xname flags mc0 in
  let mc := search w where_ type mc1 in
  let r := fst (match_result_internal w who where_ xname type flags) in
  mc_final mc1 = 0 ->
  (mc_exact mc = true ->
   r = AMBIGUOUS
   \/ (GoodObject w r = true /\ exact_candidate w mc1 r = true))
  /\ (forall m : match_context,
      mc_exact m = true -> GoodObject w (mc_bestmatch m) = true ->
      partial_name w m = false)
  /\ (forall m : match_context,
      MATCH_CONTROLS w m = true -> mc_final m = 0 ->
      BEST_MATCH w m = mc_match m -> mc_exact m = false ->
      let m' := snd (matched w true m) in
      mc_exact m' = true /\ mc_bestmatch m' = mc_match m
      /\ mc_curr m' = 1
      /\ mc_right_type m'
         = if of_preferred_type w (mc_type m) (mc_match m) then 1 else 0).
Proof.
  intros S mc1 mc r F. split; [| split].
  - pose proof (shortcuts_fresh _ _ _ _ _ _ S) as FR.
    destruct (search_start_fields xname flags mc0)
      as (_ & _ & _ & _ & _ & _ & _ & _ & _ & EX & _).
    fold mc1 in EX.
    set (P := fun (_ : list dbref) (m : match_context) =>
                same_query mc1 m
                /\ (mc_exact m = true ->
                    GoodObject w (mc_bestmatch m) = true
                    /\ exact_candidate w mc1 (mc_bestmatch m) = true)).
    assert (H : P ([] ++ flat_map (pool_candidates w)
                     (search_plan w where_ (location_of w where_) type
                        (mc_flags mc1)))%list mc).
    { unfold mc. rewrite search_as_plan. apply scan_pools; unfold P.
      - intros l m x [Q I]. split.
        + eapply same_query_trans; [eassumption | apply same_query_set_match].
        + fields. assumption.
      - intros l m x G D [Q I]. split.
        + eapply same_query_trans; [eassumption |].
          eapply same_query_trans;
            [apply same_query_set_match | apply body_same_query].
        + apply body_keeps_exact; auto.
          destruct Q as (_ & _ & _ & _ & _ & Q & _). congruence.
      - intros l m x _ H. exact H.
      - split; [apply same_query_refl |].
        destruct FR as (_ & _ & _ & _ & _ & _ & _ & _ & E & _).
        rewrite EX, E. discriminate. }
    destruct H as [Q I]. intros E. specialize (I E).
    subst r. rewrite (match_result_internal_search _ _ _ _ _ _ S).
    cbv zeta. fold mc1. fold mc. unfold classify.
    destruct Q as (_ & _ & _ & _ & _ & Q & _). rewrite <- Q, F.
    cbn [truthy Z.eqb negb]. rewrite andb_false_r. cbn [andb].
    destruct (1 <? mc_curr mc); [| right; exact I].
    destruct (_ && _); fields; [left; reflexivity | right; exact I].
  - intros m E G. unfold partial_name. rewrite E, G.
    cbn [negb orb]. rewrite andb_false_r. reflexivity.
  - intros m C F0 B E.
    destruct (matched_recorded true m C F0 B) as (_ & R1 & R2 & R3 & R4).
    cbv zeta. rewrite R1, R2, R3, R4, E. cbn [orb andb negb].
    repeat split.
Qed.

(* ================================================================= *)
(** ** The ordinal target *)

Lemma accepts_query (a b : match_context) (x : dbref) :
  same_query a b -> mc_exact a = false -> mc_exact b = false ->
  accepts w a x = accepts w b x.
Proof.
  intros (A & W & _ & FL & T & _ & N) Ea Eb.
  unfold accepts, MATCH_TYPE, MATCH_CONTROLS, exact_name, partial_name.
  fields. rewrite A, W, FL, T, N, Ea, Eb. reflexivity.
Qed.

(** With an ordinal target and no exact latch, the evaluation of a
    candidate counts it exactly when it is accepted. *)
Lemma body_ranked (mc : match_context) (x : dbref) :
  mc_final mc <> 0 ->
  let mc' := snd (match_obj_body w (set_match x mc)) in
  mc_exact mc' = mc_exact mc
  /\ if accepts w mc x then
       mc_curr mc' = mc_curr mc + 1
       /\ if mc_curr mc + 1 =? mc_final mc
          then mc_done mc' = true /\ mc_bestmatch mc' = x
          else mc_done mc' = mc_done mc
               /\ mc_bestmatch mc' = mc_bestmatch mc
     else mc_curr mc' = mc_curr mc /\ mc_done mc' = mc_done mc
          /\ mc_bestmatch mc' = mc_bestmatch mc.
Proof.
  intros F. cbv zeta. unfold match_obj_body, accepts. cbv zeta.
  assert (M : forall full,
             mc_exact (snd (matched w full (set_match x mc))) = mc_exact mc
             /\ if MATCH_CONTROLS w (set_match x mc) then
                  mc_curr (snd (matched w full (set_match x mc)))
                  = mc_curr mc + 1
                  /\ if mc_curr mc + 1 =? mc_final mc
                     then mc_done (snd (matched w full (set_match x mc)))
                          = true
                          /\ mc_bestmatch
                               (snd (matched w full (set_match x mc))) = x
                     else mc_done (snd (matched w full (set_match x mc)))
                          = mc_done mc
                          /\ mc_bestmatch
                               (snd (matched w full (set_match x mc)))
                             = mc_bestmatch mc
                else mc_curr (snd (matched w full (set_match x mc)))
                     = mc_curr mc
                     /\ mc_done (snd (matched w full (set_match x mc)))
                        = mc_done mc
                     /\ mc_bestmatch (snd (matched w full (set_match x mc)))
                        = mc_bestmatch mc).
  { intros full.
    destruct (matched_ranked full (set_match x mc) F) as (E & _ & R).
    split; [exact E |]. exact R. }
  destruct (MATCH_TYPE w (set_match x mc) =? 0); cbn [negb andb orb].
  { fields. tauto. }
  replace (mc_match (set_match x mc)) with x by reflexivity.
  destruct (x =? mc_abs (set_match x mc)); cbn [negb andb orb].
  { apply M. }
  replace (mc_who (set_match x mc)) with (mc_who mc) by reflexivity.
  destruct (can_interact_match w x (mc_who mc)); cbn [negb andb orb];
    [| fields; tauto].
  destruct (exact_name w (set_match x mc)); cbn [negb andb orb];
    [apply M |].
  destruct (partial_name w (set_match x mc)); cbn [negb andb orb];
    [apply M |].
  fields. tauto.
Qed.

Lemma run_pools_done (plan : list pool) (mc : match_context) :
  mc_done mc = true -> run_pools w plan mc = mc.
Proof.
  intros D. destruct plan as [| [k x] plan]; [reflexivity |].
  cbn [run_pools]. unfold match_attr_list, match_obj_list. rewrite D.
  destruct (is_proxy_pool k); reflexivity.
Qed.

(** C2.  In a call that reaches the general search with the ordinal
    target [K >= 1]: let the accepted candidates be the candidates of the
    visited pools, in traversal order, that pass the type check, are the
    absolute reference of the text or may be matched and match by name,
    and pass the control check.  If there are at least [K] of them, the
    result is the [K]-th one, a live entity; the counter stops at [K], the
    search is done, and every further pool leaves the state as it is.  If
    there are fewer than [K], the result is [NOTHING]. *)
Theorem ordinal_selects_kth
  (who where_ : dbref) (xname : string) (type flags : Z)
  (mc0 : match_context) :
  shortcuts w who where_ xname type flags = inr mc0 ->
  let mc1 := search_start xname flags mc0 in
  let K := mc_final mc1 in
  let accepted :=
    filter (accepts w mc1)
      (flat_map (pool_candidates w)
         (search_plan w where_ (location_of w where_) type (mc_flags mc1))) in
  let N := Z.of_nat (List.length accepted) in
  let mc := search w where_ type mc1 in
  let r := fst (match_result_internal w who where_ xname type flags) in
  1 <= K ->
  (K <= N ->
   r = nth (Z.to_nat (K - 1)) accepted NOTHING
   /\ GoodObject w r = true
   /\ mc_done mc = true /\ mc_curr mc = K
   /\ forall rest : list pool, run_pools w rest mc = mc)
  /\ (N < K -> r = NOTHING /\ mc_done mc = false /\ mc_curr mc = N).
Proof.
  intros S mc1 K accepted N mc r HK.
  pose proof (shortcuts_fresh _ _ _ _ _ _ S) as FR.
  destruct (search_start_fields xname flags mc0)
    as (_ & _ & _ & _ & _ & _ & _ & CU & _ & EX & DO & BE & _).
  fold mc1 in CU, EX, DO, BE.
  destruct FR as (_ & _ & _ & _ & _ & _ & C0 & _ & E0 & D0 & B0).
  rewrite C0 in CU. rewrite E0 in EX. rewrite D0 in DO. rewrite <- BE in B0.
  set (P := fun (l : list dbref) (m : match_context) =>
              same_query mc1 m /\ mc_exact m = false
              /\ (Z.of_nat (List.length (filter (accepts w mc1) l)) < K ->
                  mc_done m = false
                  /\ mc_curr m
                     = Z.of_nat (List.length (filter (accepts w mc1) l))
                  /\ GoodObject w (mc_bestmatch m) = false)
              /\ (K <= Z.of_nat (List.length (filter (accepts w mc1) l)) ->
                  mc_done m = true /\ mc_curr m = K
                  /\ nth_error (filter (accepts w mc1) l)
                       (Z.to_nat (K - 1)) = Some (mc_bestmatch m))).
  assert (H : P ([] ++ flat_map (pool_candidates w)
                   (search_plan w where_ (location_of w where_) type
                      (mc_flags mc1)))%list mc).
  { unfold mc. rewrite search_as_plan. apply scan_pools; unfold P.
    - intros l m x (Q & E & H). split; [| fields; tauto].
      eapply same_query_trans; [eassumption |].
      apply (same_query_set_match m x).
    - intros l m x G D (Q & E & Lo & Hi).
      assert (FK : mc_final m = K)
        by (destruct Q as (_ & _ & _ & _ & _ & Q & _); symmetry; exact Q).
      assert (Fm : mc_final m <> 0) by lia.
      destruct (Z.lt_ge_cases
                  (Z.of_nat (List.length (filter (accepts w mc1) l))) K)
        as [Lt | Ge]; [| destruct (Hi Ge) as (D' & _); congruence].
      destruct (Lo Lt) as (_ & Cm & Bm).
      destruct (body_ranked m x Fm) as (E' & R).
      rewrite <- (accepts_query mc1 m x Q EX E) in R.
      rewrite filter_app, length_app. cbn [filter].
      split.
      { eapply same_query_trans; [eassumption |].
        eapply same_query_trans;
          [apply same_query_set_match | apply body_same_query]. }
      split; [congruence |].
      destruct (accepts w mc1 x); cbn [List.length].
      + destruct R as (Cm' & R). rewrite FK in R.
        destruct (Z.eqb_spec (mc_curr m + 1) K) as [EK | NK].
        * destruct R as (D' & B'). split; [lia |]. intros _.
          repeat split; [assumption | lia |].
          rewrite nth_error_app2 by lia.
          replace (Z.to_nat (K - 1)
                   - List.length (filter (accepts w mc1) l))%nat
            with 0%nat by lia.
          cbn. congruence.
        * destruct R as (D' & B'). split; [| lia]. intros _.
          repeat split; [congruence | lia | congruence].
      + destruct R as (Cm' & D' & B'). rewrite Nat.add_0_r.
        split; [| lia]. intros _.
        repeat split; congruence.
    - intros l m x D (Q & E & Lo & Hi).
      destruct (Z.lt_ge_cases
                  (Z.of_nat (List.length (filter (accepts w mc1) l))) K)
        as [Lt | Ge]; [destruct (Lo Lt) as (D' & _); congruence |].
      destruct (Hi Ge) as (_ & Cm & Nm).
      rewrite filter_app, length_app.
      split; [assumption |]. split; [assumption |].
      split; [lia |]. intros _.
      split; [assumption |]. split; [assumption |].
      rewrite nth_error_app1 by lia. assumption.
    - split; [apply same_query_refl |]. split; [assumption |].
      cbn [filter List.length]. split; [| lia]. intros _.
      repeat split; assumption. }
  cbn [app] in H. fold accepted in H. destruct H as (Q & E & Lo & Hi).
  fold N in Lo, Hi.
  assert (R : r = mc_bestmatch (classify w (mc_flags mc1) mc)).
  { subst r. rewrite (match_result_internal_search _ _ _ _ _ _ S).
    reflexivity. }
  assert (FK : mc_final mc = K)
    by (destruct Q as (_ & _ & _ & _ & _ & Q' & _); symmetry; exact Q').
  split.
  - intros Ge. destruct (Hi Ge) as (D & Cm & Nm).
    assert (G : GoodObject w (mc_bestmatch mc) = true).
    { apply nth_error_In in Nm. apply filter_In in Nm.
      destruct Nm as [Nm _]. apply in_flat_map in Nm.
      destruct Nm as (p & _ & Nm). eapply pool_candidates_In. eassumption. }
    assert (RB : r = mc_bestmatch mc).
    { rewrite R. unfold classify. rewrite G, FK. cbn [negb andb].
      destruct (Z.eqb_spec K 0); [lia |]. reflexivity. }
    rewrite RB. repeat split; auto.
    + symmetry. apply nth_error_nth. assumption.
    + intros rest. apply run_pools_done. assumption.
  - intros Lt. destruct (Lo Lt) as (D & Cm & Bm).
    repeat split; auto.
    rewrite R. unfold classify. rewrite Bm, FK. cbn [negb andb].
    unfold truthy. destruct (Z.eqb_spec K 0); [lia |]. reflexivity.
Qed.

(* ================================================================= *)
(** ** What the shortcuts return *)

Lemma MATCH_TYPE_admits (mc : match_context) :
  truthy (MATCH_TYPE w mc)
  = type_admits w (mc_type mc) (mc_flags mc) (mc_match mc).
Proof.
  unfold MATCH_TYPE, type_admits.
  destruct (truthy (Z.land (mc_type mc) (Typeof w (mc_match mc))));
    [reflexivity |].
  destruct (has (mc_flags mc) MAT_TYPE); reflexivity.
Qed.

Lemma MATCH_CONTROLS_true (mc : match_context) :
  MATCH_CONTROLS w mc = true ->
  has (mc_flags mc) MAT_CONTROL = true ->
  controls w (mc_who mc) (mc_match mc) = true.
Proof.
  unfold MATCH_CONTROLS. intros H C. rewrite C in H. exact H.
Qed.

Section Returns.

Variables (who where_ : dbref) (xname : string) (type flags : Z).

Let ok := fresh w who where_ xname type flags.
Let verdict := shortcut_verdict w who xname type flags.

Lemma verdict_of_state (m : match_context) :
  ok m -> GoodObject w (mc_match m) = true ->
  truthy (MATCH_TYPE w m) = true -> MATCH_CONTROLS w m = true ->
  verdict (mc_match m).
Proof.
  intros F G T C. unfold verdict, shortcut_verdict.
  destruct F as (_ & W & _ & FL & TY & _).
  split; [exact G |]. split.
  - intros HC. pose proof (MATCH_CONTROLS_true m C) as K.
    rewrite FL, W in K. exact (K HC).
  - left. rewrite MATCH_TYPE_admits, TY, FL in T. exact T.
Qed.

Lemma shortcut_me_returns mc r out :
  ok mc -> shortcut_me w where_ xname flags mc = inl (r, out) ->
  out = [] /\ verdict r.
Proof.
  unfold shortcut_me. intros F.
  apply (fresh_set_match _ _ _ _ _ _ where_) in F.
  destruct (_ && _) eqn:E; [| discriminate].
  destruct (MATCH_CONTROLS w _) eqn:C; [| discriminate].
  intros [= <- <-]. split; [reflexivity |].
  rewrite !andb_true_iff in E. destruct E as ((((A & B) & _) & _) & _).
  apply (verdict_of_state (set_match where_ mc)); auto.
  fields. apply RealGoodObject_good. assumption.
Qed.

Lemma shortcut_here_returns mc r out :
  ok mc -> shortcut_here w where_ xname flags mc = inl (r, out) ->
  out = [] /\ verdict r.
Proof.
  unfold shortcut_here. intros F. cbv zeta.
  match goal with
  | |- context [set_match ?x mc] =>
      apply (fresh_set_match _ _ _ _ _ _ x) in F;
      generalize dependent (set_match x mc)
  end.
  intros m F.
  destruct (_ && _) eqn:E; [| discriminate].
  destruct (MATCH_CONTROLS w _) eqn:C; [| discriminate].
  intros [= <- <-]. split; [reflexivity |].
  rewrite !andb_true_iff in E. destruct E as ((((_ & _) & _) & A) & B).
  apply (verdict_of_state m); auto.
Qed.

Lemma shortcut_player_returns mc r out :
  ok mc -> shortcut_player w who xname type flags mc = inl (r, out) ->
  out = [] /\ verdict r.
Proof.
  unfold shortcut_player. intros F. cbv zeta.
  destruct (_ && _) eqn:E; [| discriminate].
  pose proof (fresh_set_match _ _ _ _ _ _
                (match_player w who xname (negb (has flags MAT_EXACT))) F)
    as F'.
  set (m := set_match (match_player w who xname (negb (has flags MAT_EXACT)))
              mc) in *.
  destruct (MATCH_CONTENTS w m); [| discriminate].
  destruct (GoodObject w (mc_match m)) eqn:G; [| discriminate].
  match goal with
  | |- (if ?c then _ else _) = _ -> _ => destruct c; [| discriminate]
  end.
  destruct (MATCH_CONTROLS w m) eqn:C; [| discriminate].
  intros [= <- <-]. split; [reflexivity |].
  unfold verdict, shortcut_verdict.
  destruct F' as (_ & W & _ & FL & _).
  split; [exact G |]. split.
  - intros HC. pose proof (MATCH_CONTROLS_true m C) as K.
    rewrite FL, W in K. exact (K HC).
  - right. split; [reflexivity |].
    apply andb_true_iff in E. tauto.
Qed.

Lemma shortcut_dbref_returns mc r out :
  ok mc -> shortcut_dbref w who flags mc = inl (r, out) ->
  out = [] /\ verdict r.
Proof.
  unfold shortcut_dbref. intros F. cbv zeta.
  match goal with
  | |- context [set_match ?x mc] =>
      apply (fresh_set_match _ _ _ _ _ _ x) in F;
      generalize dependent (set_match x mc)
  end.
  intros m F.
  destruct (_ && _) eqn:E; [| discriminate].
  match goal with
  | |- (if ?c then _ else _) = _ -> _ => destruct c; [| discriminate]
  end.
  destruct (MATCH_CONTROLS w m) eqn:C; [| discriminate].
  intros [= <- <-]. split; [reflexivity |].
  rewrite !andb_true_iff in E. destruct E as (((A & _) & B) & _).
  apply (verdict_of_state m); auto.
  apply RealGoodObject_good. assumption.
Qed.

(** A call that a shortcut ends returns either [NOTHING] from the check
    of the anchor, or a reference with the verdict, and then no
    message. *)
Lemma shortcuts_return (r : dbref) (out : list notice) :
  shortcuts w who where_ xname type flags = inl (r, out) ->
  (r = NOTHING /\ RealGoodObject w where_ = false
   /\ has flags MAT_NEAR || has flags MAT_CONTENTS = true
   /\ out = if has flags MAT_NOISY && GoodObject w who
            then [(who, CANT_SEE)] else [])
  \/ (out = [] /\ verdict r).
Proof.
  unfold shortcuts.
  assert (F0 : ok (initial_context w who where_ xname type flags)).
  { unfold ok, fresh, initial_context. fields. repeat split; reflexivity. }
  destruct (check_where w who where_ flags _) as [a | m1] eqn:E1.
  { cbn [and_then]. intros [= ->]. left.
    unfold check_where in E1. cbv zeta in E1.
    destruct (RealGoodObject w where_); cbn [negb] in E1.
    - rewrite !andb_false_r in E1. discriminate.
    - rewrite !andb_true_r in E1.
      destruct (has flags MAT_NEAR || has flags MAT_CONTENTS) eqn:N;
        [| discriminate].
      inversion E1. auto. }
  apply (check_where_fresh _ _ _ _ _ _ _ F0) in E1. cbn [and_then].
  destruct (shortcut_me w where_ xname flags m1) as [[r2 o2] | m2] eqn:E2.
  { cbn [and_then]. intros [= <- <-]. right.
    eapply shortcut_me_returns; eassumption. }
  apply (shortcut_me_fresh _ _ _ _ _ _ _ E1) in E2. cbn [and_then].
  destruct (shortcut_here w where_ xname flags m2) as [[r3 o3] | m3] eqn:E3.
  { cbn [and_then]. intros [= <- <-]. right.
    eapply shortcut_here_returns; eassumption. }
  apply (shortcut_here_fresh _ _ _ _ _ _ _ E2) in E3. cbn [and_then].
  destruct (shortcut_player w who xname type flags m3)
    as [[r4 o4] | m4] eqn:E4.
  { cbn [and_then]. intros [= <- <-]. right.
    eapply shortcut_player_returns; eassumption. }
  apply (shortcut_player_fresh _ _ _ _ _ _ _ E3) in E4. cbn [and_then].
  intros E5. right. eapply shortcut_dbref_returns; eassumption.
Qed.

End Returns.

(* ================================================================= *)
(** ** What the shortcuts leave behind *)

Section Moves.

Variables (who where_ : dbref) (xname : string) (type flags : Z).

Let ok := fresh w who where_ xname type flags.
Let move := shortcut_move w who xname flags.
Let ready := prepared w who xname flags.

Ltac head_if :=
  match goal with
  | |- (if ?c then _ else _) = _ -> _ => destruct c eqn:?
  end.

Lemma shortcut_me_moves mc mc' :
  shortcut_me w where_ xname flags mc = inr mc' -> move mc mc'.
Proof.
  unfold shortcut_me. cbv zeta.
  head_if; [head_if; [discriminate |] |]; intros [= <-].
  - apply move_nocontrol. assumption.
  - apply move_match.
Qed.

Lemma shortcut_here_moves mc mc' :
  shortcut_here w where_ xname flags mc = inr mc' -> move mc mc'.
Proof.
  unfold shortcut_here. cbv zeta.
  head_if; [head_if; [discriminate |] |]; intros [= <-].
  - apply move_nocontrol. assumption.
  - apply move_match.
Qed.

Lemma shortcut_player_moves mc mc' :
  shortcut_player w who xname type flags mc = inr mc' ->
  mc' = mc \/ move mc mc'.
Proof.
  unfold shortcut_player. cbv zeta.
  head_if; [| intros [= <-]; auto].
  head_if; [| intros [= <-]; right; apply move_match].
  head_if.
  - head_if; [| intros [= <-]; right; apply move_match].
    head_if; [discriminate |]. intros [= <-]. right.
    apply move_nocontrol. assumption.
  - intros [= <-]. right. eapply move_best; [reflexivity | assumption].
Qed.

Lemma shortcut_dbref_moves mc mc' :
  shortcut_dbref w who flags mc = inr mc' -> move mc mc'.
Proof.
  unfold shortcut_dbref. cbv zeta.
  head_if; [| intros [= <-]; apply move_match].
  head_if; [| intros [= <-]; apply move_match].
  head_if; [discriminate |]. intros [= <-].
  apply move_nocontrol. assumption.
Qed.

Lemma move_prepared mc mc' :
  ok mc -> ready mc -> move mc mc' -> ready mc'.
Proof.
  intros F (B & N) M. unfold ready, prepared.
  destruct F as (_ & W & _ & FL & TY & _).
  destruct M as [x | x C | m E G]; fields.
  - split; assumption.
  - split; [assumption |]. intros _.
    unfold MATCH_CONTROLS in C. fields. rewrite FL in C.
    destruct (has flags MAT_CONTROL); [reflexivity | discriminate].
  - split; [| subst m; fields; assumption].
    right. unfold BEST_MATCH. subst m. fields.
    destruct B as [B | B]; rewrite B.
    + unfold choose_thing. rewrite G. reflexivity.
    + destruct (choose_thing_either (mc_who mc) (mc_type mc) (mc_flags mc)
                  (match_player w who xname (negb (has flags MAT_EXACT)))
                  (match_player w who xname (negb (has flags MAT_EXACT))))
        as [-> | ->]; reflexivity.
Qed.

Lemma shortcuts_prepared mc :
  shortcuts w who where_ xname type flags = inr mc -> ready mc.
Proof.
  unfold shortcuts.
  assert (F0 : ok (initial_context w who where_ xname type flags)).
  { unfold ok, fresh, initial_context. fields. repeat split; reflexivity. }
  assert (R0 : ready (initial_context w who where_ xname type flags)).
  { unfold ready, prepared, initial_context. fields.
    split; [left; reflexivity | discriminate]. }
  destruct (check_where w who where_ flags _) as [r | m1] eqn:E1;
    [discriminate |].
  assert (M1 : m1 = initial_context w who where_ xname type flags).
  { unfold check_where in E1. cbv zeta in E1.
    destruct (_ || _); [discriminate | congruence]. }
  subst m1. clear E1. cbn [and_then].
  destruct (shortcut_me w where_ xname flags _) as [r | m2] eqn:E2;
    [discriminate |].
  pose proof (shortcut_me_fresh _ _ _ _ _ _ _ F0 E2) as F2.
  pose proof (move_prepared _ _ F0 R0 (shortcut_me_moves _ _ E2)) as R2.
  cbn [and_then].
  destruct (shortcut_here w where_ xname flags m2) as [r | m3] eqn:E3;
    [discriminate |].
  pose proof (shortcut_here_fresh _ _ _ _ _ _ _ F2 E3) as F3.
  pose proof (move_prepared _ _ F2 R2 (shortcut_here_moves _ _ E3)) as R3.
  cbn [and_then].
  destruct (shortcut_player w who xname type flags m3) as [r | m4] eqn:E4;
    [discriminate |].
  pose proof (shortcut_player_fresh _ _ _ _ _ _ _ F3 E4) as F4.
  assert (R4 : ready m4).
  { destruct (shortcut_player_moves _ _ E4) as [-> | M];
      [assumption | exact (move_prepared _ _ F3 R3 M)]. }
  cbn [and_then]. intros E5.
  eapply move_prepared; [exact F4 | exact R4 |].
  apply shortcut_dbref_moves. assumption.
Qed.

End Moves.

(* ================================================================= *)
(** ** What the general search can return *)

Lemma admissible_query (a b : match_context) (x : dbref) :
  same_query a b -> admissible w a x = admissible w b x.
Proof.
  intros (A & W & _ & FL & T & _ & N).
  unfold admissible, exact_name, partial_text. fields.
  rewrite A, W, FL, T, N. reflexivity.
Qed.

Lemma matched_verdict (full : bool) (mc : match_context) :
  let mc' := snd (matched w full mc) in
  (mc_bestmatch mc' = mc_bestmatch mc
   \/ (mc_bestmatch mc' = mc_match mc /\ MATCH_CONTROLS w mc = true))
  /\ (mc_nocontrol mc' = true ->
      mc_nocontrol mc = true \/ has (mc_flags mc) MAT_CONTROL = true).
Proof.
  cbv zeta. split.
  - destruct (Z.eq_dec (mc_final mc) 0) as [F | F].
    + destruct (matched_unranked full mc F)
        as (_ & [(_ & B & _) | (C & _ & B & _)]); auto.
    + destruct (matched_ranked full mc F) as (_ & _ & R).
      destruct (MATCH_CONTROLS w mc).
      * destruct R as (_ & R).
        destruct (mc_curr mc + 1 =? mc_final mc); destruct R; auto.
      * destruct R as (_ & _ & R). auto.
  - unfold matched.
    destruct (MATCH_CONTROLS w mc) eqn:C; cbn [negb].
    + repeat match goal with
             | |- context [if ?c then _ else _] => destruct c
             end; fields; auto.
    + fields. intros _. right.
      unfold MATCH_CONTROLS in C.
      destruct (has (mc_flags mc) MAT_CONTROL); [reflexivity | discriminate].
Qed.

Lemma body_verdict (mc : match_context) (x : dbref) :
  let mc' := snd (match_obj_body w (set_match x mc)) in
  (mc_bestmatch mc' = mc_bestmatch mc
   \/ (mc_bestmatch mc' = x /\ admissible w mc x = true))
  /\ (mc_nocontrol mc' = true ->
      mc_nocontrol mc = true \/ has (mc_flags mc) MAT_CONTROL = true).
Proof.
  cbv zeta. unfold match_obj_body.
  assert (M : forall full,
             admissible w mc x
             = negb (has (mc_flags mc) MAT_CONTROL)
               || controls w (mc_who mc) x ->
             (mc_bestmatch (snd (matched w full (set_match x mc)))
              = mc_bestmatch mc
              \/ (mc_bestmatch (snd (matched w full (set_match x mc))) = x
                  /\ admissible w mc x = true))
             /\ (mc_nocontrol (snd (matched w full (set_match x mc))) = true ->
                 mc_nocontrol mc = true
                 \/ has (mc_flags mc) MAT_CONTROL = true)).
  { intros full A.
    destruct (matched_verdict full (set_match x mc)) as (B & N).
    split; [| exact N].
    destruct B as [B | (B & C)]; [left; exact B | right].
    split; [exact B |]. rewrite A. exact C. }
  assert (T : negb (MATCH_TYPE w (set_match x mc) =? 0)
              = type_admits w (mc_type mc) (mc_flags mc) x)
    by exact (MATCH_TYPE_admits (set_match x mc)).
  destruct (MATCH_TYPE w (set_match x mc) =? 0); cbn [negb] in T.
  { clear M. fields. auto. }
  replace (mc_match (set_match x mc)) with x by reflexivity.
  replace (mc_abs (set_match x mc)) with (mc_abs mc) by reflexivity.
  replace (mc_who (set_match x mc)) with (mc_who mc) by reflexivity.
  destruct (x =? mc_abs mc) eqn:A.
  { apply M. unfold admissible. rewrite <- T, A. cbn [orb andb].
    rewrite andb_true_r. reflexivity. }
  destruct (can_interact_match w x (mc_who mc)) eqn:I; cbn [negb];
    [| clear M; fields; auto].
  destruct (exact_name w (set_match x mc)) eqn:EN.
  { apply M. unfold admissible. rewrite <- T, A, I, EN. cbn [orb andb].
    rewrite andb_true_r. reflexivity. }
  destruct (partial_name w (set_match x mc)) eqn:PN;
    [| clear M; fields; auto].
  apply M. unfold admissible. rewrite <- T, A, I, EN. cbn [orb andb].
  assert (PT : partial_text w mc x = true).
  { clear M. unfold partial_name in PN. unfold partial_text. fields.
    rewrite !andb_true_iff in PN. rewrite !andb_true_iff. tauto. }
  rewrite PT, andb_true_r. reflexivity.
Qed.

Lemma classify_result (flags : Z) (mc : match_context) :
  mc_bestmatch (classify w flags mc) = mc_bestmatch mc
  \/ mc_bestmatch (classify w flags mc) = NOTHING
  \/ mc_bestmatch (classify w flags mc) = AMBIGUOUS.
Proof.
  unfold classify.
  repeat match goal with
         | |- context [if ?c then _ else _] => destruct c
         end; fields; auto.
Qed.

Lemma classify_live (flags : Z) (mc : match_context) :
  GoodObject w (mc_bestmatch (classify w flags mc)) = true ->
  mc_bestmatch (classify w flags mc) = mc_bestmatch mc.
Proof.
  destruct (classify_result flags mc) as [E | [E | E]]; rewrite E;
    [reflexivity | discriminate | discriminate].
Qed.

(** The state after the general search: a live best match is a candidate
    of a visited pool that passed the checks; a best match that is not
    live is the one the search started with; and the [nocontrol] latch is
    only set under [MAT_CONTROL]. *)
Lemma search_verdict (where_ : dbref) (type : Z) (mc1 : match_context) :
  GoodObject w (mc_bestmatch mc1) = false ->
  let mc := search w where_ type mc1 in
  same_query mc1 mc
  /\ (GoodObject w (mc_bestmatch mc) = true ->
      In (mc_bestmatch mc) (all_candidates w where_ type mc1)
      /\ admissible w mc1 (mc_bestmatch mc) = true)
  /\ (GoodObject w (mc_bestmatch mc) = false ->
      mc_bestmatch mc = mc_bestmatch mc1)
  /\ (mc_nocontrol mc = true ->
      mc_nocontrol mc1 = true \/ has (mc_flags mc1) MAT_CONTROL = true).
Proof.
  intros G0. cbv zeta. rewrite search_as_plan. unfold all_candidates.
  set (P := fun (l : list dbref) (m : match_context) =>
              same_query mc1 m
              /\ (GoodObject w (mc_bestmatch m) = true ->
                  In (mc_bestmatch m) l
                  /\ admissible w mc1 (mc_bestmatch m) = true)
              /\ (GoodObject w (mc_bestmatch m) = false ->
                  mc_bestmatch m = mc_bestmatch mc1)
              /\ (mc_nocontrol m = true ->
                  mc_nocontrol mc1 = true
                  \/ has (mc_flags mc1) MAT_CONTROL = true)).
  change (P ([] ++ flat_map (pool_candidates w)
               (search_plan w where_ (location_of w where_) type
                  (mc_flags mc1)))%list
            (run_pools w
               (search_plan w where_ (location_of w where_) type
                  (mc_flags mc1)) mc1)).
  apply scan_pools; unfold P.
  - intros l m x (Q & H). split; [| fields; exact H].
    eapply same_query_trans; [eassumption |].
    apply (same_query_set_match m x).
  - intros l m x G D (Q & HG & HB & HN).
    pose proof (body_same_query (set_match x m)) as Q'.
    assert (Q2 : same_query mc1 (snd (match_obj_body w (set_match x m)))).
    { eapply same_query_trans; [eassumption |].
      eapply same_query_trans; [apply (same_query_set_match m x) |].
      exact Q'. }
    split; [exact Q2 |].
    destruct (body_verdict m x) as (B & N).
    rewrite <- (admissible_query mc1 m x Q) in B.
    destruct B as [B | (B & A)]; rewrite B.
    + split; [| split; [exact HB |]].
      * intros Gb. destruct (HG Gb) as (I & A).
        split; [apply in_or_app; left; exact I | exact A].
      * intros Nc. destruct (N Nc) as [Nm | C]; [auto |].
        right. destruct Q as (_ & _ & _ & FL & _). rewrite FL. exact C.
    + split; [| split].
      * intros _. split; [| exact A].
        apply in_or_app. right. left. reflexivity.
      * intros Gx. congruence.
      * intros Nc. destruct (N Nc) as [Nm | C]; [auto |].
        right. destruct Q as (_ & _ & _ & FL & _). rewrite FL. exact C.
  - intros l m x _ (Q & HG & H). split; [exact Q |]. split; [| exact H].
    intros Gb. destruct (HG Gb) as (I & A).
    split; [apply in_or_app; left; exact I | exact A].
  - split; [apply same_query_refl |]. split; [| split].
    + intros Gb. congruence.
    + reflexivity.
    + auto.
Qed.

(* ================================================================= *)
(** ** What a caller can rely on *)

Lemma has_lor_l (a b c : Z) : has (Z.lor a b) c = has a c || has b c.
Proof.
  unfold has, truthy. rewrite Z.land_lor_distr_l.
  destruct (Z.eqb_spec (Z.land a c) 0) as [Ha | Ha];
    destruct (Z.eqb_spec (Z.land b c) 0) as [Hb | Hb]; simpl;
    try (rewrite negb_false_iff; apply Z.eqb_eq, Z.lor_eq_0_iff; tauto);
    rewrite negb_true_iff; apply Z.eqb_neq; rewrite Z.lor_eq_0_iff; tauto.
Qed.

(** A single bit of a bit set. *)
Lemma has_bit (x n : Z) : 0 <= n -> has x (2 ^ n) = Z.testbit x n.
Proof.
  intros Hn. unfold has, truthy.
  destruct (Z.testbit x n) eqn:B.
  - apply negb_true_iff, Z.eqb_neq. intros E.
    assert (T : Z.testbit (Z.land x (2 ^ n)) n = true)
      by (rewrite Z.land_spec, B, Z.pow2_bits_true; auto).
    rewrite E, Z.bits_0 in T. discriminate.
  - apply negb_false_iff, Z.eqb_eq. apply Z.bits_inj'. intros k Hk.
    rewrite Z.land_spec, Z.bits_0, Z.pow2_bits_eqb by lia.
    destruct (Z.eqb_spec n k) as [<- | _];
      [rewrite B; reflexivity | apply andb_false_r].
Qed.

(** The flags with which the general search runs agree with the flags
    of the call outside the scope flags. *)
Lemma search_start_flag (xname : string) (flags : Z) (mc0 : match_context)
  (n : Z) :
  0 <= n < 32 -> Z.land (2 ^ n) scope_mask = 0 ->
  has (mc_flags (search_start xname flags mc0)) (2 ^ n) = has flags (2 ^ n).
Proof.
  intros Hn Hs.
  destruct (search_start_fields xname flags mc0) as (_ & _ & FL & _).
  rewrite FL. apply parsed_phrase_keeps; assumption.
Qed.

(** The answer of a call that reaches the general search. *)
Lemma match_result_internal_answer who where_ xname type flags mc0 :
  shortcuts w who where_ xname type flags = inr mc0 ->
  let mc1 := search_start xname flags mc0 in
  match_result_internal w who where_ xname type flags
  = conclude w who (mc_flags mc1) (search w where_ type mc1).
Proof.
  intros S. unfold match_result_internal, search_start, search. rewrite S.
  destruct (parsed_phrase xname flags) as [[final name] flags'].
  fields.
  destruct (general_search w where_ (location_of w where_) type flags' _)
    as [brk m].
  reflexivity.
Qed.

(** The general search starts with a best match that is not live. *)
Lemma search_start_not_live who where_ xname type flags mc0 :
  shortcuts w who where_ xname type flags = inr mc0 ->
  GoodObject w (mc_bestmatch (search_start xname flags mc0)) = false.
Proof.
  intros S.
  destruct (search_start_fields xname flags mc0)
    as (_ & _ & _ & _ & _ & _ & _ & _ & _ & _ & _ & B & _).
  rewrite B. apply (shortcuts_fresh _ _ _ _ _ _ S).
Qed.

(** A live result of the general search is a candidate of a visited
    pool, and it passed the checks of the evaluator. *)
Lemma live_result_verdict who where_ xname type flags mc0 :
  shortcuts w who where_ xname type flags = inr mc0 ->
  let mc1 := search_start xname flags mc0 in
  let r := fst (match_result_internal w who where_ xname type flags) in
  GoodObject w r = true ->
  r = mc_bestmatch (search w where_ type mc1)
  /\ In r (all_candidates w where_ type mc1)
  /\ admissible w mc1 r = true.
Proof.
  intros S mc1 r G. subst r.
  rewrite (match_result_internal_search _ _ _ _ _ _ S) in *.
  cbv zeta in *. fold mc1 in G |- *.
  pose proof (classify_live _ _ G) as E. rewrite E in G |- *.
  split; [reflexivity |].
  apply (search_verdict where_ type mc1); [| exact G].
  apply (search_start_not_live _ _ _ _ _ _ S).
Qed.

(** X1.  When no shortcut ends the call, a live result is one of the
    candidates of the pools that the search visits, and it passed the
    checks of the evaluator: the type check, the control check, and either
    it is the absolute reference of the text or it may be matched and its
    alias, its full name or (without [MAT_EXACT], and for no exit) a part
    of its name matches the residual text. *)
Theorem live_result_is_admissible_candidate
  (who where_ : dbref) (xname : string) (type flags : Z)
  (mc0 : match_context) :
  shortcuts w who where_ xname type flags = inr mc0 ->
  let mc1 := search_start xname flags mc0 in
  let r := fst (match_result_internal w who where_ xname type flags) in
  GoodObject w r = true ->
  In r (all_candidates w where_ type mc1) /\ admissible w mc1 r = true.
Proof.
  intros S mc1 r G.
  apply (live_result_verdict _ _ _ _ _ _ S G).
Qed.

(** Under [MAT_CONTROL] a live result is controlled by the requester,
    whichever way the call ends. *)
Lemma result_controlled who where_ xname type flags :
  has flags MAT_CONTROL = true ->
  GoodObject w (fst (match_result_internal w who where_ xname type flags))
  = true ->
  controls w who (fst (match_result_internal w who where_ xname type flags))
  = true.
Proof.
  intros C G.
  destruct (shortcuts w who where_ xname type flags) as [[r out] | mc0] eqn:S.
  - assert (E : match_result_internal w who where_ xname type flags
                = (r, out))
      by (unfold match_result_internal; rewrite S; reflexivity).
    rewrite E in *. cbn [fst] in *.
    destruct (shortcuts_return _ _ _ _ _ _ _ S) as [(N & _) | (_ & V)].
    + subst r. discriminate.
    + apply V. exact C.
  - destruct (live_result_verdict _ _ _ _ _ _ S G) as (_ & _ & A).
    unfold admissible in A. rewrite !andb_true_iff in A.
    destruct A as ((_ & A) & _).
    change MAT_CONTROL with (2 ^ 3) in A, C.
    rewrite search_start_flag in A by (try lia; reflexivity).
    rewrite C in A. cbn [negb orb] in A.
    destruct (search_start_fields xname flags mc0)
      as (_ & _ & _ & _ & W & _).
    rewrite W in A.
    destruct (shortcuts_fresh _ _ _ _ _ _ S) as (_ & W0 & _).
    rewrite W0 in A. exact A.
Qed.

(** X2.  With [MAT_CONTROL] in the flags, every live result of
    [match_result_internal] is an object that the requester controls: by
    a shortcut ("me", "here", a player, an absolute reference) as well as
    by the general search. *)
Theorem control_is_enforced
  (who where_ : dbref) (xname : string) (type flags : Z) :
  has flags MAT_CONTROL = true ->
  let r := fst (match_result_internal w who where_ xname type flags) in
  GoodObject w r = true -> controls w who r = true.
Proof.
  intros C r G. apply result_controlled; assumption.
Qed.

(** X3.  [match_controlled] returns [NOTHING] or a live entity that the
    player controls, whatever [MAT_EVERYTHING] stands for. *)
Theorem match_controlled_controls
  (MAT_EVERYTHING : Z) (player : dbref) (name : string) :
  let r := fst (match_controlled w MAT_EVERYTHING player name) in
  r = NOTHING \/ (GoodObject w r = true /\ controls w player r = true).
Proof.
  cbv zeta. unfold match_controlled, noisy_match_result, match_result.
  set (flags := Z.lor (Z.lor MAT_EVERYTHING MAT_CONTROL) MAT_NOISY).
  assert (C : has flags MAT_CONTROL = true).
  { unfold flags. rewrite !has_lor_l.
    replace (has MAT_CONTROL MAT_CONTROL) with true by reflexivity.
    rewrite orb_true_r. reflexivity. }
  pose proof (result_controlled player player name NOTYPE flags C) as K.
  destruct (match_result_internal w player player name NOTYPE flags)
    as [m out].
  cbn [fst] in K.
  destruct (GoodObject w m) eqn:G; cbn [negb fst]; auto.
Qed.

Lemma shared_bit (a b n : Z) :
  0 <= n -> has a (2 ^ n) = true -> has b (2 ^ n) = true ->
  truthy (Z.land a b) = true.
Proof.
  intros Hn Ha Hb. rewrite has_bit in Ha, Hb by assumption.
  unfold truthy. apply negb_true_iff, Z.eqb_neq. intros E.
  assert (T : Z.testbit (Z.land a b) n = true)
    by (rewrite Z.land_spec, Ha, Hb; reflexivity).
  rewrite E, Z.bits_0 in T. discriminate.
Qed.

(** X4.  With [MAT_TYPE] in the flags, and a player lookup that finds
    players only, every live result has a type that intersects the type
    filter. *)
Theorem type_is_enforced
  (who where_ : dbref) (xname : string) (type flags : Z) :
  has flags MAT_TYPE = true ->
  (GoodObject w (match_player w who xname (negb (has flags MAT_EXACT)))
   = true ->
   IsPlayer w (match_player w who xname (negb (has flags MAT_EXACT)))
   = true) ->
  let r := fst (match_result_internal w who where_ xname type flags) in
  GoodObject w r = true -> truthy (Z.land type (Typeof w r)) = true.
Proof.
  intros T HP r G. subst r.
  destruct (shortcuts w who where_ xname type flags) as [[r out] | mc0] eqn:S.
  - assert (E : match_result_internal w who where_ xname type flags
                = (r, out))
      by (unfold match_result_internal; rewrite S; reflexivity).
    rewrite E in *. cbn [fst] in *.
    destruct (shortcuts_return _ _ _ _ _ _ _ S) as [(N & _) | (_ & V)].
    + subst r. discriminate.
    + destruct V as (_ & _ & [A | (R & A)]).
      * unfold type_admits in A. rewrite T in A. cbn [negb] in A.
        rewrite orb_false_r in A. exact A.
      * rewrite T in A. cbn [negb] in A. rewrite orb_false_r in A.
        rewrite R in G |- *. specialize (HP G).
        unfold IsPlayer in HP.
        apply (shared_bit _ _ 3); [lia | exact A | exact HP].
  - destruct (live_result_verdict _ _ _ _ _ _ S G) as (_ & _ & A).
    unfold admissible, type_admits in A. rewrite !andb_true_iff in A.
    destruct A as ((A & _) & _).
    change MAT_TYPE with (2 ^ 17) in A, T.
    rewrite search_start_flag in A by (try lia; reflexivity).
    rewrite T in A. cbn [negb] in A. rewrite orb_false_r in A.
    destruct (search_start_fields xname flags mc0)
      as (_ & _ & _ & _ & _ & _ & TY & _).
    rewrite TY in A.
    destruct (shortcuts_fresh _ _ _ _ _ _ S) as (_ & _ & _ & _ & T0 & _).
    rewrite T0 in A. exact A.
Qed.

(** X5.  When the player lookup answers with a live entity, [NOTHING] or
    [AMBIGUOUS], the result of [match_result_internal] is a live entity,
    [NOTHING] or [AMBIGUOUS]. *)
Theorem result_is_entity_or_sentinel
  (who where_ : dbref) (xname : string) (type flags : Z) :
  let p := match_player w who xname (negb (has flags MAT_EXACT)) in
  (GoodObject w p = true \/ p = NOTHING \/ p = AMBIGUOUS) ->
  let r := fst (match_result_internal w who where_ xname type flags) in
  GoodObject w r = true \/ r = NOTHING \/ r = AMBIGUOUS.
Proof.
  intros p HP r. subst r.
  destruct (shortcuts w who where_ xname type flags) as [[r out] | mc0] eqn:S.
  - assert (E : match_result_internal w who where_ xname type flags
                = (r, out))
      by (unfold match_result_internal; rewrite S; reflexivity).
    rewrite E. cbn [fst].
    destruct (shortcuts_return _ _ _ _ _ _ _ S) as [(N & _) | (_ & V)];
      [auto | left; apply V].
  - rewrite (match_result_internal_search _ _ _ _ _ _ S). cbv zeta.
    destruct (classify_result (mc_flags (search_start xname flags mc0))
                (search w where_ type (search_start xname flags mc0)))
      as [E | [E | E]]; rewrite E; auto.
    destruct (GoodObject w
                (mc_bestmatch
                   (search w where_ type (search_start xname flags mc0))))
      eqn:G; [auto | right].
    pose proof (search_start_not_live _ _ _ _ _ _ S) as G0.
    destruct (search_verdict where_ type _ G0) as (_ & _ & B & _).
    rewrite (B G) in G |- *.
    destruct (search_start_fields xname flags mc0)
      as (_ & _ & _ & _ & _ & _ & _ & _ & _ & _ & _ & B1 & _).
    rewrite B1 in G |- *.
    destruct (shortcuts_prepared _ _ _ _ _ _ S) as ([B0 | B0] & _);
      rewrite B0 in G |- *; [auto |].
    fold p in G |- *. destruct HP as [HP | HP]; [congruence | exact HP].
Qed.

(** The messages of a call: none, or one message to the requester, sent
    under [MAT_NOISY] to a live requester when the result is no live
    entity; it names the ambiguity when the result is [AMBIGUOUS],
    otherwise the denied permission when a control check failed, which
    takes [MAT_CONTROL], otherwise that nothing is seen. *)
Lemma notices_shape who where_ xname type flags :
  let r := fst (match_result_internal w who where_ xname type flags) in
  let out := snd (match_result_internal w who where_ xname type flags) in
  (out = []
   /\ (has flags MAT_NOISY = false \/ GoodObject w who = false
       \/ GoodObject w r = true))
  \/ (exists msg,
        out = [(who, msg)]
        /\ has flags MAT_NOISY = true /\ GoodObject w who = true
        /\ GoodObject w r = false
        /\ ((msg = WHICH_ONE /\ r = AMBIGUOUS)
            \/ (msg = DENIED /\ r <> AMBIGUOUS
                /\ has flags MAT_CONTROL = true)
            \/ (msg = CANT_SEE /\ r <> AMBIGUOUS))).
Proof.
  cbv zeta.
  destruct (shortcuts w who where_ xname type flags) as [[r out] | mc0] eqn:S.
  - assert (E : match_result_internal w who where_ xname type flags
                = (r, out))
      by (unfold match_result_internal; rewrite S; reflexivity).
    rewrite E. cbn [fst snd].
    destruct (shortcuts_return _ _ _ _ _ _ _ S)
      as [(N & _ & _ & O) | (O & V)].
    + subst r out.
      destruct (has flags MAT_NOISY) eqn:HN; [| left; auto].
      destruct (GoodObject w who) eqn:GW; [| left; auto].
      right. exists CANT_SEE. cbn [andb].
      repeat split; auto. right. right. split; [reflexivity | discriminate].
    + left. split; [exact O |]. right. right. apply V.
  - rewrite (match_result_internal_answer _ _ _ _ _ _ S). cbv zeta.
    set (mc1 := search_start xname flags mc0).
    unfold conclude. cbn [fst snd]. unfold failure_notice.
    set (mcf := classify w (mc_flags mc1) (search w where_ type mc1)).
    assert (HN : has (mc_flags mc1) MAT_NOISY = has flags MAT_NOISY).
    { change MAT_NOISY with (2 ^ 24).
      apply search_start_flag; [lia | reflexivity]. }
    rewrite HN.
    destruct (GoodObject w (mc_bestmatch mcf)) eqn:G; cbn [negb andb];
      [left; auto |].
    destruct (has flags MAT_NOISY) eqn:N; cbn [andb]; [| left; auto].
    destruct (GoodObject w who) eqn:GW; [| left; auto].
    right.
    destruct (Z.eqb_spec (mc_bestmatch mcf) AMBIGUOUS) as [A | A].
    { exists WHICH_ONE. repeat split; auto. }
    destruct (mc_nocontrol mcf) eqn:NC.
    + exists DENIED. repeat split; auto. right. left.
      repeat split; auto.
      assert (NS : mc_nocontrol (search w where_ type mc1) = true).
      { unfold mcf, classify in NC.
        repeat match type of NC with
               | context [if ?c then _ else _] => destruct c
               end; fields; exact NC. }
      pose proof (search_start_not_live _ _ _ _ _ _ S) as G0.
      destruct (search_verdict where_ type mc1 G0) as (_ & _ & _ & K).
      destruct (K NS) as [K1 | K1].
      * destruct (search_start_fields xname flags mc0)
          as (_ & _ & _ & _ & _ & _ & _ & _ & _ & _ & _ & _ & N1).
        fold mc1 in N1. rewrite N1 in K1.
        apply (shortcuts_prepared _ _ _ _ _ _ S). exact K1.
      * change MAT_CONTROL with (2 ^ 3) in K1 |- *.
        unfold mc1 in K1.
        rewrite search_start_flag in K1 by (try lia; reflexivity).
        exact K1.
    + exists CANT_SEE. repeat split; auto.
Qed.

(** X6.  [match_result_internal] sends at most one message, and only to
    the requester; it sends none without [MAT_NOISY], none to a requester
    that is no live entity, and none when the result is a live entity.
    The message "Permission denied." is only sent under [MAT_CONTROL],
    and the message of the ambiguity exactly when the result is
    [AMBIGUOUS]. *)
Theorem notices_are_few
  (who where_ : dbref) (xname : string) (type flags : Z) :
  let r := fst (match_result_internal w who where_ xname type flags) in
  let out := snd (match_result_internal w who where_ xname type flags) in
  (List.length out <= 1)%nat
  /\ (forall to msg, In (to, msg) out ->
      to = who /\ has flags MAT_NOISY = true /\ GoodObject w who = true
      /\ GoodObject w r = false
      /\ (msg = DENIED -> has flags MAT_CONTROL = true)
      /\ (msg = WHICH_ONE <-> r = AMBIGUOUS))
  /\ (has flags MAT_NOISY = false -> out = []).
Proof.
  cbv zeta.
  destruct (notices_shape who where_ xname type flags)
    as [(O & H) | (msg & O & N & GW & G & M)]; cbv zeta in *; rewrite O.
  - split; [cbn; lia |]. split; [intros to msg []| reflexivity].
  - split; [cbn; lia |]. split; [| congruence].
    intros to m [[= <- <-] | []].
    repeat split; auto.
    + intros ->. destruct M as [(M & _) | [(_ & _ & M) | (M & _)]];
        [discriminate | exact M | discriminate].
    + intros ->. destruct M as [(_ & M) | [(M & _) | (M & _)]];
        [exact M | discriminate | discriminate].
    + intros A. destruct M as [(M & _) | [(_ & M & _) | (_ & M)]];
        [exact M | contradiction | contradiction].
Qed.

(** X7.  [noisy_match_result] tells a live requester of every failure,
    once: when it returns [NOTHING], exactly one message goes to the
    requester, and when it returns a live entity, none does. *)
Theorem noisy_match_result_notifies
  (who : dbref) (name : string) (type flags : Z) :
  let r := fst (noisy_match_result w who name type flags) in
  let out := snd (noisy_match_result w who name type flags) in
  (GoodObject w r = true -> out = [])
  /\ (GoodObject w who = false -> out = [])
  /\ (r = NOTHING -> GoodObject w who = true ->
      exists msg, out = [(who, msg)]
                  /\ (msg = WHICH_ONE \/ msg = DENIED \/ msg = CANT_SEE)).
Proof.
  cbv zeta. unfold noisy_match_result, match_result.
  assert (N : has (Z.lor flags MAT_NOISY) MAT_NOISY = true).
  { rewrite has_lor_l.
    replace (has MAT_NOISY MAT_NOISY) with true by reflexivity.
    apply orb_true_r. }
  pose proof (notices_shape who who name type (Z.lor flags MAT_NOISY)) as K.
  cbv zeta in K.
  destruct (match_result_internal w who who name type
              (Z.lor flags MAT_NOISY)) as [m out].
  cbn [fst snd] in K.
  destruct (GoodObject w m) eqn:G; cbn [negb fst snd].
  - destruct K as [(O & _) | (msg & _ & _ & _ & G' & _)]; [| congruence].
    repeat split; auto.
    intros E. rewrite E in G. discriminate.
  - split; [discriminate |].
    destruct K as [(O & [H | [H | H]]) | (msg & O & _ & GW & _ & M)];
      try congruence.
    + split; [auto |]. congruence.
    + split; [congruence |]. intros _ _. exists msg.
      split; [exact O |]. tauto.
Qed.

(* ================================================================= *)
(** ** The match count of a search without an ordinal target *)

(** Without an ordinal target, the evaluation of a candidate either
    leaves the best match and the counters alone or records the
    candidate; it never ends the search. *)
Lemma body_unranked (mc : match_context) (x : dbref) :
  mc_final mc = 0 ->
  let mc' := snd (match_obj_body w (set_match x mc)) in
  mc_done mc' = mc_done mc
  /\ ((mc_exact mc' = mc_exact mc /\ mc_bestmatch mc' = mc_bestmatch mc
       /\ mc_curr mc' = mc_curr mc
       /\ mc_right_type mc' = mc_right_type mc)
      \/ (mc_bestmatch mc' = x
          /\ (mc_curr mc' = 1 \/ mc_curr mc' = mc_curr mc + 1))).
Proof.
  intros F. cbv zeta.
  assert (M : forall full,
             mc_done (snd (matched w full (set_match x mc))) = mc_done mc
             /\ ((mc_exact (snd (matched w full (set_match x mc)))
                  = mc_exact mc
                  /\ mc_bestmatch (snd (matched w full (set_match x mc)))
                     = mc_bestmatch mc
                  /\ mc_curr (snd (matched w full (set_match x mc)))
                     = mc_curr mc
                  /\ mc_right_type (snd (matched w full (set_match x mc)))
                     = mc_right_type mc)
                 \/ (mc_bestmatch (snd (matched w full (set_match x mc))) = x
                     /\ (mc_curr (snd (matched w full (set_match x mc))) = 1
                         \/ mc_curr (snd (matched w full (set_match x mc)))
                            = mc_curr mc + 1)))).
  { intros full.
    destruct (matched_unranked full (set_match x mc) F)
      as (D & [H | (_ & _ & B & _ & C & _)]).
    - split; [exact D |]. left. exact H.
    - split; [exact D |]. right. split; [exact B |].
      replace (mc_curr (set_match x mc)) with (mc_curr mc) in C
        by reflexivity.
      destruct (full && negb (mc_exact (set_match x mc))); auto. }
  unfold match_obj_body.
  repeat match goal with
         | |- context [if ?c then _ else _] => destruct c
         end; try apply M; clear M; fields;
    (split; [reflexivity | left; repeat split]).
Qed.

(** In a search without an ordinal target the match count is zero as
    long as the best match is the one the search started with, and at
    least one as soon as a candidate is recorded, which is then live. *)
Lemma search_counts (where_ : dbref) (type : Z) (mc1 : match_context) :
  mc_final mc1 = 0 -> mc_curr mc1 = 0 -> mc_done mc1 = false ->
  GoodObject w (mc_bestmatch mc1) = false ->
  let mc := search w where_ type mc1 in
  same_query mc1 mc /\ mc_done mc = false /\ 0 <= mc_curr mc
  /\ (mc_curr mc = 0 -> mc_bestmatch mc = mc_bestmatch mc1)
  /\ (1 <= mc_curr mc -> GoodObject w (mc_bestmatch mc) = true).
Proof.
  intros F C0 D0 G0. cbv zeta. rewrite search_as_plan.
  set (P := fun (_ : list dbref) (m : match_context) =>
              same_query mc1 m /\ mc_done m = false /\ 0 <= mc_curr m
              /\ (mc_curr m = 0 -> mc_bestmatch m = mc_bestmatch mc1)
              /\ (1 <= mc_curr m -> GoodObject w (mc_bestmatch m) = true)).
  change (P ([] ++ flat_map (pool_candidates w)
               (search_plan w where_ (location_of w where_) type
                  (mc_flags mc1)))%list
            (run_pools w
               (search_plan w where_ (location_of w where_) type
                  (mc_flags mc1)) mc1)).
  apply scan_pools; unfold P.
  - intros l m x (Q & H). split; [| fields; exact H].
    eapply same_query_trans; [eassumption |].
    apply (same_query_set_match m x).
  - intros l m x G D (Q & _ & C & HZ & HP).
    assert (Fm : mc_final m = 0)
      by (destruct Q as (_ & _ & _ & _ & _ & Q & _); congruence).
    split.
    { eapply same_query_trans; [eassumption |].
      eapply same_query_trans; [apply (same_query_set_match m x) |].
      apply body_same_query. }
    destruct (body_unranked m x Fm) as (Dn & [(_ & B & Cu & _) | (B & Cu)]).
    + rewrite Dn, B, Cu. auto.
    + rewrite Dn, B. split; [exact D |].
      destruct Cu as [Cu | Cu]; rewrite Cu;
        (split; [lia |]); (split; [lia |]); auto.
  - intros l m x D (_ & D' & _). congruence.
  - split; [apply same_query_refl |]. repeat split; auto; lia.
Qed.

(** The state of [search_counts] for a call. *)
Lemma call_counts who where_ xname type flags mc0 :
  shortcuts w who where_ xname type flags = inr mc0 ->
  let mc1 := search_start xname flags mc0 in
  let mc := search w where_ type mc1 in
  mc_final mc1 = 0 ->
  mc_final mc = 0 /\ 0 <= mc_curr mc
  /\ (mc_curr mc = 0 -> mc_bestmatch mc = mc_bestmatch mc0
                        /\ GoodObject w (mc_bestmatch mc) = false)
  /\ (1 <= mc_curr mc -> GoodObject w (mc_bestmatch mc) = true).
Proof.
  intros S mc1 mc F.
  pose proof (shortcuts_fresh _ _ _ _ _ _ S) as FR.
  destruct (search_start_fields xname flags mc0)
    as (_ & _ & _ & _ & _ & _ & _ & CU & _ & _ & DO & BE & _).
  fold mc1 in CU, DO, BE.
  destruct FR as (_ & _ & _ & _ & _ & _ & C0 & _ & _ & D0 & B0).
  destruct (search_counts where_ type mc1 F) as (Q & _ & C & HZ & HP);
    try congruence.
  fold mc in Q, C, HZ, HP.
  destruct Q as (_ & _ & _ & _ & _ & Q & _).
  split; [congruence |]. split; [exact C |]. split; [| exact HP].
  intros Z0. rewrite (HZ Z0). split; congruence.
Qed.

(** X8.  In a call that reaches the general search without an ordinal
    target the result is a live entity exactly when at least one
    candidate was recorded and either only one was, or exactly one of the
    preferred type was, or [MAT_LAST] was requested; and then it is the
    best match of the search. *)
Theorem unranked_result_is_live_iff
  (who where_ : dbref) (xname : string) (type flags : Z)
  (mc0 : match_context) :
  shortcuts w who where_ xname type flags = inr mc0 ->
  let mc1 := search_start xname flags mc0 in
  let mc := search w where_ type mc1 in
  let r := fst (match_result_internal w who where_ xname type flags) in
  mc_final mc1 = 0 ->
  (GoodObject w r = true <->
   1 <= mc_curr mc
   /\ (mc_curr mc = 1 \/ mc_right_type mc = 1 \/ has flags MAT_LAST = true))
  /\ (GoodObject w r = true -> r = mc_bestmatch mc).
Proof.
  intros S mc1 mc r F.
  destruct (call_counts _ _ _ _ _ _ S F) as (Fm & C & HZ & HP).
  fold mc1 in Fm, C, HZ, HP. fold mc in Fm, C, HZ, HP.
  assert (R : r = mc_bestmatch (classify w (mc_flags mc1) mc)).
  { subst r. rewrite (match_result_internal_search _ _ _ _ _ _ S).
    reflexivity. }
  assert (L : has (mc_flags mc1) MAT_LAST = has flags MAT_LAST).
  { change MAT_LAST with (2 ^ 25).
    apply search_start_flag; [lia | reflexivity]. }
  split; [| intros G; rewrite R in G |- *; apply classify_live; exact G].
  rewrite R. unfold classify. rewrite Fm, L.
  cbn [truthy Z.eqb negb]. rewrite andb_false_r. cbn [andb].
  destruct (Z.ltb_spec 1 (mc_curr mc)) as [C1 | C1].
  - destruct (Z.eqb_spec (mc_right_type mc) 1) as [R1 | R1];
      destruct (has flags MAT_LAST) eqn:HL; cbn [negb andb]; fields.
    + split; [intros _; split; [lia | auto] | intros _; apply HP; lia].
    + split; [intros _; split; [lia | auto] | intros _; apply HP; lia].
    + split; [intros _; split; [lia | auto] | intros _; apply HP; lia].
    + split; [discriminate |]. intros (_ & [H | [H | H]]);
        [lia | contradiction | discriminate].
  - split.
    + intros G. destruct (Z.eq_dec (mc_curr mc) 0) as [Z0 | Z0].
      * destruct (HZ Z0) as (_ & NG). congruence.
      * split; [lia |]. left. lia.
    + intros (H & _). apply HP. exact H.
Qed.

(** X9.  [last_match_result] never trades the best match of the search
    for [AMBIGUOUS]: without an ordinal target its result is the last
    candidate that the search recorded, a live entity, whenever one was
    recorded, and otherwise what the shortcuts left, which is no live
    entity. *)
Theorem last_match_result_keeps_best
  (who : dbref) (name : string) (type flags : Z) (mc0 : match_context) :
  shortcuts w who who name type (Z.lor flags MAT_LAST) = inr mc0 ->
  let mc1 := search_start name (Z.lor flags MAT_LAST) mc0 in
  let mc := search w who type mc1 in
  let r := fst (last_match_result w who name type flags) in
  mc_final mc1 = 0 ->
  r = mc_bestmatch mc
  /\ (1 <= mc_curr mc -> GoodObject w r = true)
  /\ (mc_curr mc < 1 -> r = mc_bestmatch mc0 /\ GoodObject w r = false).
Proof.
  intros S mc1 mc r F.
  destruct (call_counts _ _ _ _ _ _ S F) as (Fm & C & HZ & HP).
  fold mc1 in Fm, C, HZ, HP. fold mc in Fm, C, HZ, HP.
  assert (L : has (mc_flags mc1) MAT_LAST = true).
  { change MAT_LAST with (2 ^ 25). unfold mc1.
    rewrite search_start_flag by (try lia; reflexivity).
    rewrite has_lor_l.
    replace (has (2 ^ 25) (2 ^ 25)) with true by reflexivity.
    apply orb_true_r. }
  assert (R : r = mc_bestmatch mc).
  { subst r. unfold last_match_result, match_result.
    rewrite (match_result_internal_search _ _ _ _ _ _ S). cbv zeta.
    fold mc1. fold mc. unfold classify. rewrite Fm, L.
    cbn [truthy Z.eqb negb]. rewrite !andb_false_r. cbn [andb].
    destruct (1 <? mc_curr mc); reflexivity. }
  rewrite R. split; [reflexivity |]. split; [exact HP |].
  intros Z0. apply HZ. lia.
Qed.

(* ================================================================= *)
(** ** The decision of a search with a neutral tie-breaker *)

(** Without a type preference and without the lock preference the
    tie-breaker prefers its second argument whenever that is live. *)
Lemma choose_thing_second (who : dbref) (type flags : Z) (a b : dbref) :
  type = NOTYPE -> has flags MAT_CHECK_KEYS = false ->
  GoodObject w b = true ->
  choose_thing w who type flags a b = b.
Proof.
  intros -> K G. unfold choose_thing. rewrite G, K, Z.eqb_refl.
  destruct (GoodObject w a); reflexivity.
Qed.

Lemma accepted_query (a b : match_context) (x : dbref) :
  same_query a b ->
  exact_accepted w a x = exact_accepted w b x
  /\ partial_accepted w a x = partial_accepted w b x.
Proof.
  intros (A & W & _ & FL & T & _ & N).
  unfold exact_accepted, partial_accepted, partial_text, exact_name.
  fields. rewrite A, W, FL, T, N. split; reflexivity.
Qed.

Lemma partial_name_text (m : match_context) (x : dbref) :
  partial_name w (set_match x m)
  = partial_text w m x
    && (negb (mc_exact m) || negb (GoodObject w (mc_bestmatch m))).
Proof.
  unfold partial_name, partial_text. fields.
  destruct (has (mc_flags m) MAT_EXACT), (mc_exact m),
    (GoodObject w (mc_bestmatch m)), (IsExit w x),
    (string_match w (Name w x) (mc_name m)); reflexivity.
Qed.

(** The evaluation of one candidate when the tie-breaker is neutral: a
    full match is recorded and restarts the count when it is the first
    one; a partial match is recorded while no full match is latched;
    everything else leaves the best match and the counters alone. *)
Lemma body_neutral (m : match_context) (x : dbref) :
  mc_final m = 0 -> mc_type m = NOTYPE ->
  has (mc_flags m) MAT_CHECK_KEYS = false ->
  GoodObject w x = true ->
  let m' := snd (match_obj_body w (set_match x m)) in
  if exact_accepted w m x then
    mc_bestmatch m' = x /\ mc_exact m' = true
    /\ mc_curr m' = (if mc_exact m then mc_curr m + 1 else 1)
    /\ mc_right_type m' = (if mc_exact m then mc_right_type m else 0)
  else if partial_accepted w m x
          && (negb (mc_exact m) || negb (GoodObject w (mc_bestmatch m)))
  then
    mc_bestmatch m' = x /\ mc_exact m' = mc_exact m
    /\ mc_curr m' = mc_curr m + 1
    /\ mc_right_type m' = mc_right_type m
  else
    mc_bestmatch m' = mc_bestmatch m /\ mc_exact m' = mc_exact m
    /\ mc_curr m' = mc_curr m
    /\ mc_right_type m' = mc_right_type m.
Proof.
  intros F T K G. cbv zeta.
  set (mx := set_match x m).
  assert (HT : (MATCH_TYPE w mx =? 0)
               = negb (type_admits w (mc_type m) (mc_flags m) x)).
  { unfold MATCH_TYPE, type_admits, mx. fields.
    destruct (truthy (Z.land (mc_type m) (Typeof w x))); [reflexivity |].
    destruct (has (mc_flags m) MAT_TYPE); reflexivity. }
  assert (HB : BEST_MATCH w mx = mc_match mx).
  { unfold BEST_MATCH, mx. fields. apply choose_thing_second; assumption. }
  assert (HP : of_preferred_type w (mc_type mx) (mc_match mx) = false).
  { unfold of_preferred_type, mx. fields. rewrite T. reflexivity. }
  assert (REC : forall full,
             MATCH_CONTROLS w mx = true ->
             mc_bestmatch (snd (matched w full mx)) = x
             /\ mc_exact (snd (matched w full mx)) = full || mc_exact m
             /\ mc_curr (snd (matched w full mx))
                = (if full && negb (mc_exact m) then 1 else mc_curr m + 1)
             /\ mc_right_type (snd (matched w full mx))
                = (if full && negb (mc_exact m) then 0
                   else mc_right_type m)).
  { intros full C.
    destruct (matched_recorded full mx C F HB) as (_ & R1 & R2 & R3 & R4).
    rewrite HP, Z.add_0_r in R4. auto. }
  assert (NOC : forall full,
             MATCH_CONTROLS w mx = false ->
             snd (matched w full mx) = set_nocontrol mx).
  { intros full C. unfold matched. rewrite C. reflexivity. }
  unfold match_obj_body, exact_accepted, partial_accepted.
  fold mx. rewrite HT.
  replace (partial_name w mx)
    with (partial_text w m x
          && (negb (mc_exact m) || negb (GoodObject w (mc_bestmatch m))))
    by (symmetry; apply partial_name_text).
  change (mc_match mx) with x. change (mc_abs mx) with (mc_abs m).
  change (mc_who mx) with (mc_who m).
  destruct (type_admits w (mc_type m) (mc_flags m) x);
    cbn [negb andb orb fst snd]; [| repeat split].
  destruct (negb (has (mc_flags m) MAT_CONTROL) || controls w (mc_who m) x)
    eqn:C; cbn [negb andb orb fst snd].
  - destruct (x =? mc_abs m); cbn [negb andb orb fst snd].
    + destruct (REC true C) as (R1 & R2 & R3 & R4).
      rewrite R1, R2, R3, R4.
      destruct (mc_exact m); cbn [negb andb orb]; repeat split.
    + destruct (can_interact_match w x (mc_who m));
        cbn [negb andb orb fst snd]; [| repeat split].
      destruct (exact_name w mx); cbn [negb andb orb fst snd].
      * destruct (REC true C) as (R1 & R2 & R3 & R4).
        rewrite R1, R2, R3, R4.
        destruct (mc_exact m); cbn [negb andb orb]; repeat split.
      * destruct (partial_text w m x
                  && (negb (mc_exact m)
                      || negb (GoodObject w (mc_bestmatch m)))) eqn:PA.
        -- destruct (REC false C) as (R1 & R2 & R3 & R4).
           cbn [andb orb] in R2, R3, R4. auto.
        -- repeat split.
  - destruct (x =? mc_abs m); cbn [negb andb orb fst snd];
      [rewrite (NOC true C); repeat split |].
    destruct (can_interact_match w x (mc_who m));
      cbn [negb andb orb fst snd]; [| repeat split].
    destruct (exact_name w mx); cbn [negb andb orb fst snd];
      [rewrite (NOC true C); repeat split |].
    destruct (partial_text w m x
              && (negb (mc_exact m)
                  || negb (GoodObject w (mc_bestmatch m))));
      [rewrite (NOC false C) |]; repeat split.
Qed.

Lemma last_default {A : Type} (l : list A) (d d' : A) :
  l <> [] -> last l d = last l d'.
Proof.
  induction l as [| a [| b t] IH]; intros N;
    [contradiction | reflexivity |].
  change (last (b :: t) d = last (b :: t) d'). apply IH. discriminate.
Qed.

(** The outcome of the general search when the tie-breaker is neutral, in
    terms of the candidates of the visited pools: the full matches count
    if there is one, the partial matches otherwise, and the best match is
    the last of those that count. *)
Lemma search_decides (where_ : dbref) (type : Z) (mc1 : match_context) :
  mc_final mc1 = 0 -> mc_type mc1 = NOTYPE ->
  has (mc_flags mc1) MAT_CHECK_KEYS = false ->
  mc_curr mc1 = 0 -> mc_exact mc1 = false -> mc_done mc1 = false ->
  mc_right_type mc1 = 0 ->
  let mc := search w where_ type mc1 in
  let E := filter (exact_accepted w mc1) (all_candidates w where_ type mc1) in
  let Pl :=
    filter (partial_accepted w mc1) (all_candidates w where_ type mc1) in
  mc_final mc = 0 /\ mc_right_type mc = 0
  /\ (E = [] ->
      mc_curr mc = Z.of_nat (List.length Pl)
      /\ mc_bestmatch mc = last Pl (mc_bestmatch mc1))
  /\ (E <> [] ->
      mc_curr mc = Z.of_nat (List.length E)
      /\ mc_bestmatch mc = last E (mc_bestmatch mc1)).
Proof.
  intros F T K C0 E0 D0 R0. cbv zeta. unfold all_candidates.
  rewrite search_as_plan.
  set (P := fun (l : list dbref) (m : match_context) =>
              same_query mc1 m /\ mc_done m = false
              /\ mc_right_type m = 0
              /\ (filter (exact_accepted w mc1) l = [] ->
                  mc_exact m = false
                  /\ mc_curr m
                     = Z.of_nat (List.length (filter (partial_accepted w mc1) l))
                  /\ mc_bestmatch m
                     = last (filter (partial_accepted w mc1) l)
                         (mc_bestmatch mc1))
              /\ (filter (exact_accepted w mc1) l <> [] ->
                  mc_exact m = true
                  /\ GoodObject w (mc_bestmatch m) = true
                  /\ mc_curr m
                     = Z.of_nat (List.length (filter (exact_accepted w mc1) l))
                  /\ mc_bestmatch m
                     = last (filter (exact_accepted w mc1) l)
                         (mc_bestmatch mc1))).
  assert (H : P ([] ++ flat_map (pool_candidates w)
                   (search_plan w where_ (location_of w where_) type
                      (mc_flags mc1)))%list
                (run_pools w
                   (search_plan w where_ (location_of w where_) type
                      (mc_flags mc1)) mc1)).
  { apply scan_pools; unfold P.
    - intros l m x (Q & H). split; [| fields; exact H].
      eapply same_query_trans; [eassumption |].
      apply (same_query_set_match m x).
    - intros l m x G D (Q & _ & R & HE & HF).
      assert (Q' := Q).
      destruct Q' as (_ & _ & _ & QF & QT & QN & _).
      assert (Fm : mc_final m = 0) by congruence.
      assert (Tm : mc_type m = NOTYPE) by congruence.
      assert (Km : has (mc_flags m) MAT_CHECK_KEYS = false) by congruence.
      split.
      { eapply same_query_trans; [eassumption |].
        eapply same_query_trans; [apply (same_query_set_match m x) |].
        apply body_same_query. }
      destruct (body_unranked m x Fm) as (Dn & _).
      split; [congruence |].
      pose proof (body_neutral m x Fm Tm Km G) as B. cbv zeta in B.
      destruct (accepted_query _ _ x Q) as (AE & AP).
      rewrite <- AE, <- AP in B.
      rewrite !filter_app. cbn [filter].
      destruct (exact_accepted w mc1 x).
      + destruct B as (B1 & B2 & B3 & B4).
        rewrite B1, B2, B3, B4.
        split.
        { destruct (filter (exact_accepted w mc1) l) eqn:EL.
          - destruct (HE eq_refl) as (X & _). rewrite X. reflexivity.
          - assert (N : d :: l0 <> []) by discriminate.
            destruct (HF N) as (X & _). rewrite X. exact R. }
        split.
        { intros N. apply app_eq_nil in N. destruct N as (_ & N).
          discriminate. }
        intros _. split; [reflexivity |]. split; [exact G |].
        rewrite last_last, length_app. cbn [List.length].
        split; [| reflexivity].
        destruct (filter (exact_accepted w mc1) l) eqn:EL.
        * destruct (HE eq_refl) as (X & _). rewrite X. reflexivity.
        * assert (N : d :: l0 <> []) by discriminate.
          destruct (HF N) as (X & _ & Y & _). rewrite X, Y. lia.
      + rewrite app_nil_r.
        destruct (filter (exact_accepted w mc1) l) eqn:EL.
        * destruct (HE eq_refl) as (X & Y & Z0).
          rewrite X in B. cbn [negb orb] in B. rewrite andb_true_r in B.
          destruct (partial_accepted w mc1 x).
          -- destruct B as (B1 & B2 & B3 & B4).
             rewrite B1, B2, B3, B4.
             split; [exact R |]. split; [| intros N; contradiction].
             intros _. split; [reflexivity |].
             rewrite last_last, length_app. cbn [List.length].
             split; [lia | reflexivity].
          -- destruct B as (B1 & B2 & B3 & B4).
             rewrite B1, B2, B3, B4, app_nil_r.
             split; [exact R |]. split; [| intros N; contradiction].
             intros _. auto.
        * assert (N : d :: l0 <> []) by discriminate.
          destruct (HF N) as (X & Y & Z0 & U).
          rewrite X, Y in B. cbn [negb orb] in B. rewrite andb_false_r in B.
          destruct B as (B1 & B2 & B3 & B4).
          rewrite B1, B2, B3, B4.
          split; [exact R |]. split; [intros N'; discriminate |].
          intros _. auto.
    - intros l m x D (_ & D' & _). congruence.
    - split; [apply same_query_refl |]. cbn [filter List.length last].
      repeat split; auto; contradiction. }
  destruct H as (Q & _ & R & HE & HF). cbn [app] in HE, HF.
  split; [destruct Q as (_ & _ & _ & _ & _ & Q & _); congruence |].
  split; [exact R |]. split.
  - intros N. destruct (HE N) as (_ & X). exact X.
  - intros N. destruct (HF N) as (_ & _ & X). exact X.
Qed.

(** X10.  Decision table of a call that reaches the general search with
    no ordinal target, no type preference ([NOTYPE]) and no lock
    preference: the candidates that count are the full matches of the
    visited pools if there is any, and the partial matches otherwise.
    With none the result is what the shortcuts left, which is no live
    entity; with one it is that candidate; with several it is
    [AMBIGUOUS], or the last of them under [MAT_LAST]. *)
Theorem match_decisions
  (who where_ : dbref) (xname : string) (flags : Z) (mc0 : match_context) :
  shortcuts w who where_ xname NOTYPE flags = inr mc0 ->
  has flags MAT_CHECK_KEYS = false ->
  let mc1 := search_start xname flags mc0 in
  let cands := all_candidates w where_ NOTYPE mc1 in
  let found :=
    match filter (exact_accepted w mc1) cands with
    | [] => filter (partial_accepted w mc1) cands
    | full => full
    end in
  let r := fst (match_result_internal w who where_ xname NOTYPE flags) in
  mc_final mc1 = 0 ->
  match found with
  | [] => r = mc_bestmatch mc0 /\ GoodObject w r = false
  | [x] => r = x
  | _ => r = if has flags MAT_LAST then last found NOTHING else AMBIGUOUS
  end.
Proof.
  intros S K mc1 cands found r F.
  pose proof (shortcuts_fresh _ _ _ _ _ _ S) as FR.
  destruct (search_start_fields xname flags mc0)
    as (_ & _ & _ & _ & _ & _ & TY & CU & RT & EX & DO & BE & _).
  fold mc1 in TY, CU, RT, EX, DO, BE.
  destruct FR as (_ & _ & _ & _ & T0 & _ & C0 & R0 & E0 & D0 & B0).
  assert (K1 : has (mc_flags mc1) MAT_CHECK_KEYS = false).
  { rewrite <- K. change MAT_CHECK_KEYS with (2 ^ 0).
    apply search_start_flag; [lia | reflexivity]. }
  assert (L : has (mc_flags mc1) MAT_LAST = has flags MAT_LAST).
  { change MAT_LAST with (2 ^ 25).
    apply search_start_flag; [lia | reflexivity]. }
  destruct (search_decides where_ NOTYPE mc1)
    as (Fm & R & HE & HF); try congruence.
  fold cands in HE, HF.
  set (mc := search w where_ NOTYPE mc1) in *.
  assert (FO : mc_curr mc = Z.of_nat (List.length found)
               /\ mc_bestmatch mc = last found (mc_bestmatch mc1)).
  { subst found. destruct (filter (exact_accepted w mc1) cands) eqn:EL.
    - apply HE. reflexivity.
    - apply HF. discriminate. }
  destruct FO as (CN & BM).
  assert (RR : r = if (1 <? mc_curr mc) && negb (has flags MAT_LAST)
                   then AMBIGUOUS else mc_bestmatch mc).
  { subst r. rewrite (match_result_internal_search _ _ _ _ _ _ S).
    cbv zeta. fold mc1. fold mc. unfold classify. rewrite Fm, R, L.
    cbn [truthy Z.eqb negb andb]. rewrite andb_false_r.
    destruct (1 <? mc_curr mc); cbn [andb]; [| reflexivity].
    destruct (has flags MAT_LAST); reflexivity. }
  destruct found as [| a [| b t]].
  - cbn [List.length last] in CN, BM. rewrite CN in RR. cbn in RR.
    rewrite RR, BM, BE. split; [reflexivity | exact B0].
  - cbn [List.length last] in CN, BM. rewrite CN in RR. cbn in RR.
    rewrite RR, BM. reflexivity.
  - assert (C2 : (1 <? mc_curr mc) = true).
    { apply Z.ltb_lt. rewrite CN. cbn [List.length]. lia. }
    rewrite RR, C2, BM. cbn [andb].
    destruct (has flags MAT_LAST); cbn [negb]; [| reflexivity].
    apply last_default. discriminate.
Qed.

(* ================================================================= *)
(** ** The pools of the general search *)

(** X11.  The general search visits its pools in one fixed order,
    whatever the flags: possessions, their proxies, neighbors, their
    proxies, the exits of the zone, of the master room and of the room,
    the container, and the exits carried by the anchor; no kind of pool
    comes twice. *)
Theorem search_visits_in_order
  (where_ : dbref) (type : Z) (mc : match_context) :
  let plan :=
    search_plan w where_ (location_of w where_) type (mc_flags mc) in
  search w where_ type mc = run_pools w plan mc
  /\ increasing (map (fun p : pool => pool_rank (fst p)) plan) = true.
Proof.
  cbv zeta. split; [apply search_as_plan |].
  unfold search_plan.
  repeat match goal with
         | |- context [if ?c then _ else _] => destruct c
         end; reflexivity.
Qed.

(** X12.  When the search visits the pool of the room exits, it does not
    visit the pool of the exits carried by the anchor: for an anchor that
    is its own location the gate of the carried exits is closed as long as
    [MAT_EXIT] is set.  (Nothing is said of the other exit pools: at the
    master room the same list is visited as master exits and as room
    exits.) *)
Theorem room_exits_scanned_once
  (where_ : dbref) (type flags : Z) (x : dbref) :
  let plan := search_plan w where_ (location_of w where_) type flags in
  In (RoomExits, x) plan -> forall y, ~ In (CarriedExits, y) plan.
Proof.
  cbv zeta. intros HR y HC.
  assert (R : has flags MAT_EXIT = true).
  { unfold search_plan in HR.
    destruct (has flags MAT_EXIT); [reflexivity |].
    rewrite !andb_false_r in HR.
    repeat match type of HR with
           | context [if ?c then _ else _] => destruct c
           end;
      cbn in HR; intuition discriminate. }
  assert (C : RealGoodObject w where_ && IsRoom w where_
              && (negb (location_of w where_ =? where_)
                  || negb (has flags MAT_EXIT)) = true).
  { unfold search_plan in HC.
    destruct (RealGoodObject w where_ && IsRoom w where_
              && (negb (location_of w where_ =? where_)
                  || negb (has flags MAT_EXIT))) eqn:E; [reflexivity |].
    replace (has flags MAT_CARRIED_EXIT && RealGoodObject w where_
             && IsRoom w where_
             && (negb (location_of w where_ =? where_)
                 || negb (has flags MAT_EXIT)))
      with false in HC
      by (rewrite <- !andb_assoc; rewrite <- !andb_assoc in E;
          rewrite E; symmetry; apply andb_false_r).
    repeat match type of HC with
           | context [if ?c then _ else _] => destruct c
           end;
      cbn in HC; intuition discriminate. }
  rewrite R in C. rewrite !andb_true_iff in C.
  destruct C as ((G & I) & L). cbn [negb] in L. rewrite orb_false_r in L.
  unfold location_of in L. rewrite G, I in L. cbn [negb] in L.
  rewrite Z.eqb_refl in L. discriminate.
Qed.

(** With an anchor that is no live entity there is no pool to visit. *)
Lemma invalid_anchor_plan (where_ : dbref) (type flags : Z) :
  RealGoodObject w where_ = false ->
  search_plan w where_ (location_of w where_) type flags = [].
Proof.
  intros G. unfold search_plan, location_of. rewrite G.
  replace (GoodObject w NOTHING) with false by reflexivity.
  cbn [negb andb]. rewrite !andb_false_r.
  destruct (truthy (Z.land type TYPE_EXIT) || negb (has flags MAT_TYPE));
    reflexivity.
Qed.

Section Anchor.

Variables (who where_ : dbref) (xname : string) (type flags : Z).

Hypothesis invalid : RealGoodObject w where_ = false.

Lemma shortcut_me_invalid mc : 
  exists mc', shortcut_me w where_ xname flags mc = inr mc'.
Proof.
  unfold shortcut_me. rewrite invalid. cbn [andb]. eauto.
Qed.

Lemma shortcut_here_invalid mc : 
  exists mc', shortcut_here w where_ xname flags mc = inr mc'.
Proof.
  unfold shortcut_here. rewrite invalid. cbv zeta.
  replace (GoodObject w (mc_match (set_match NOTHING mc))) with false
    by reflexivity.
  rewrite andb_false_r. cbn [andb]. eauto.
Qed.

Lemma shortcut_player_names mc r out :
  shortcut_player w who xname type flags mc = inl (r, out) ->
  r = match_player w who xname (negb (has flags MAT_EXACT)).
Proof.
  unfold shortcut_player. cbv zeta.
  repeat match goal with
         | |- context [if ?c then _ else _] => destruct c
         end; try discriminate.
  intros [= <- _]. reflexivity.
Qed.

Lemma shortcut_dbref_names mc r out :
  shortcut_dbref w who flags mc = inl (r, out) ->
  r = mc_abs mc /\ has flags MAT_ABSOLUTE = true.
Proof.
  unfold shortcut_dbref. cbv zeta.
  destruct (has flags MAT_ABSOLUTE);
    [| rewrite andb_false_r; cbn [andb]; discriminate].
  repeat match goal with
         | |- context [if ?c then _ else _] => destruct c
         end; try discriminate.
  intros [= <- _]. split; reflexivity.
Qed.

(** What a shortcut can return when the anchor is no live entity. *)
Lemma shortcuts_return_invalid r out :
  shortcuts w who where_ xname type flags = inl (r, out) ->
  r = NOTHING
  \/ r = match_player w who xname (negb (has flags MAT_EXACT))
  \/ (r = parse_objid w xname /\ has flags MAT_ABSOLUTE = true).
Proof.
  unfold shortcuts.
  assert (F0 : fresh w who where_ xname type flags
                 (initial_context w who where_ xname type flags)).
  { unfold fresh, initial_context. fields. repeat split; reflexivity. }
  destruct (check_where w who where_ flags _) as [a | m1] eqn:E1.
  { cbn [and_then]. intros [= ->]. left.
    unfold check_where in E1.
    destruct (_ || _); [| discriminate]. congruence. }
  apply (check_where_fresh _ _ _ _ _ _ _ F0) in E1. cbn [and_then].
  destruct (shortcut_me_invalid m1) as (m2 & E2). rewrite E2.
  apply (shortcut_me_fresh _ _ _ _ _ _ _ E1) in E2. cbn [and_then].
  destruct (shortcut_here_invalid m2) as (m3 & E3). rewrite E3.
  apply (shortcut_here_fresh _ _ _ _ _ _ _ E2) in E3. cbn [and_then].
  destruct (shortcut_player w who xname type flags m3) as [a | m4] eqn:E4.
  { cbn [and_then]. intros [= ->]. right. left.
    eapply shortcut_player_names. eassumption. }
  apply (shortcut_player_fresh _ _ _ _ _ _ _ E3) in E4. cbn [and_then].
  intros E5. right. right.
  destruct (shortcut_dbref_names _ _ _ E5) as (R & A).
  destruct E4 as (AB & _). split; congruence.
Qed.

End Anchor.

(** X13.  With an anchor that is no live entity (or a garbage one) a
    call finds nothing by searching: under [MAT_NEAR] or [MAT_CONTENTS]
    the result is [NOTHING], and a live result is always the player that
    the name designates or the entity of the absolute reference, the
    latter only under [MAT_ABSOLUTE]. *)
Theorem invalid_anchor_finds_by_reference_only
  (who where_ : dbref) (xname : string) (type flags : Z) :
  RealGoodObject w where_ = false ->
  let r := fst (match_result_internal w who where_ xname type flags) in
  (has flags MAT_NEAR || has flags MAT_CONTENTS = true -> r = NOTHING)
  /\ (GoodObject w r = true ->
      r = match_player w who xname (negb (has flags MAT_EXACT))
      \/ (r = parse_objid w xname /\ has flags MAT_ABSOLUTE = true)).
Proof.
  intros G r. split.
  - intros N. subst r. unfold match_result_internal, shortcuts, check_where.
    rewrite G. cbn [negb]. rewrite !andb_true_r, N. reflexivity.
  - intros L.
    destruct (shortcuts w who where_ xname type flags) as [[r' out] | mc0]
      eqn:S.
    + assert (R : r = r')
        by (subst r; unfold match_result_internal; rewrite S; reflexivity).
      destruct (shortcuts_return_invalid who where_ xname type flags G _ _ S)
        as [E | E]; [| rewrite R; exact E].
      rewrite R, E in L. discriminate.
    + exfalso.
      pose proof (shortcuts_fresh _ _ _ _ _ _ S) as FR.
      destruct FR as (_ & _ & _ & _ & _ & _ & _ & _ & _ & _ & B0).
      destruct (search_start_fields xname flags mc0)
        as (_ & _ & _ & _ & _ & _ & _ & _ & _ & _ & _ & BE & _).
      assert (R : r = mc_bestmatch
                        (classify w (mc_flags (search_start xname flags mc0))
                           (search_start xname flags mc0))).
      { subst r. rewrite (match_result_internal_search _ _ _ _ _ _ S).
        cbv zeta. rewrite search_as_plan, invalid_anchor_plan by exact G.
        reflexivity. }
      rewrite R in L. pose proof (classify_live _ _ L) as E.
      rewrite E, BE in L. congruence.
Qed.

(* ================================================================= *)
(** ** The phrase parser on every input *)

(** X14.  Whatever the phrase, [parse_english] returns a count that is
    not negative, leaves a residual name that is a suffix of the phrase,
    and never adds a flag: among the 32 flags of an [int] it leaves every
    flag outside the scope flags as it was and may only clear scope
    flags. *)
Theorem parse_english_narrows (name : string) (flags : Z) :
  let count := fst (fst (parse_english name flags)) in
  let name' := snd (fst (parse_english name flags)) in
  let flags' := snd (parse_english name flags) in
  0 <= count
  /\ is_suffix name' name
  /\ (forall n, 0 <= n < 32 ->
      (has flags' (2 ^ n) = true -> has flags (2 ^ n) = true)
      /\ (Z.land (2 ^ n) scope_mask = 0 ->
          has flags' (2 ^ n) = has flags (2 ^ n))).
Proof.
  cbv zeta.
  pose proof (parse_english_cases name flags) as C. cbv zeta in C.
  pose proof (restriction_adjectives_narrows name flags) as (N1 & N2 & N3).
  destruct C as [(_ & C) | (_ & count & name' & C & S & P)];
    rewrite C; cbn [fst snd].
  - split; [lia |]. split; [apply is_suffix_refl |].
    intros n Hn. rewrite has_int_of_long by exact Hn. auto.
  - split; [exact P |].
    split; [eapply is_suffix_trans; eassumption |].
    intros n Hn. split; [| apply N2].
    intros H. destruct (has flags (2 ^ n)) eqn:E; [reflexivity |].
    rewrite (N3 _ E) in H. discriminate.
Qed.

(* ----------------------------------------------------------------- *)
(** *** Decimal numerals and [strtoul] *)

Lemma string_append_assoc (a b c : string) :
  String.append (String.append a b) c = String.append a (String.append b c).
Proof.
  induction a as [| x a IH]; cbn [String.append];
    [reflexivity | rewrite IH; reflexivity].
Qed.

Lemma digit_char_code (d : Z) : 0 <= d <= 9 -> zchar (digit_char d) = 48 + d.
Proof.
  intros H.
  assert (E : d = 0 \/ d = 1 \/ d = 2 \/ d = 3 \/ d = 4 \/ d = 5 \/ d = 6
              \/ d = 7 \/ d = 8 \/ d = 9) by lia.
  repeat (destruct E as [-> | E]; [reflexivity |]). subst d. reflexivity.
Qed.

Lemma digit_char_isdigit (d : Z) :
  0 <= d <= 9 -> isdigit (digit_char d) = true.
Proof.
  intros H. unfold isdigit. rewrite digit_char_code by exact H.
  apply andb_true_iff. split; apply Z.leb_le; lia.
Qed.

Lemma all_digits_app (s t : string) :
  all_digits (String.append s t) = all_digits s && all_digits t.
Proof.
  induction s as [| c s IH]; cbn [String.append all_digits];
    [reflexivity | rewrite IH, andb_assoc; reflexivity].
Qed.

Lemma decimal_digits_all (fuel : nat) (n : Z) :
  0 <= n -> all_digits (decimal_digits fuel n) = true.
Proof.
  revert n. induction fuel as [| f IH]; intros n H; cbn [decimal_digits];
    [reflexivity |].
  destruct (Z.ltb_spec n 10).
  - cbn [all_digits]. rewrite digit_char_isdigit by lia. reflexivity.
  - rewrite all_digits_app, IH by (apply Z.div_pos; lia).
    cbn [all_digits andb]. rewrite digit_char_isdigit; [reflexivity |].
    pose proof (Z.mod_pos_bound n 10). lia.
Qed.

Lemma decimal_digits_nonempty (fuel : nat) (n : Z) :
  decimal_digits (S fuel) n <> EmptyString.
Proof.
  cbn [decimal_digits]. destruct (n <? 10); [discriminate |].
  destruct (decimal_digits fuel (n / 10)); discriminate.
Qed.

Lemma strtoul_from_app (s t : string) (acc : Z) :
  all_digits s = true ->
  strtoul_from acc (String.append s t)
  = strtoul_from (fst (strtoul_from acc s)) t.
Proof.
  revert acc. induction s as [| c s IH]; intros acc H;
    cbn [String.append strtoul_from all_digits] in *; [reflexivity |].
  apply andb_true_iff in H. destruct H as [D H]. rewrite D.
  apply IH. exact H.
Qed.

(** [strtoul] reads a decimal numeral back. *)
Lemma decimal_digits_value (fuel : nat) (n : Z) :
  0 <= n < 10 ^ Z.of_nat fuel -> n <= ULONG_MAX ->
  strtoul_from 0 (decimal_digits fuel n) = (n, EmptyString).
Proof.
  revert n. induction fuel as [| f IH]; intros n H U.
  - cbn in H. assert (n = 0) by lia. subst n. reflexivity.
  - cbn [decimal_digits]. destruct (Z.ltb_spec n 10) as [L | L].
    + cbn [strtoul_from].
      rewrite digit_char_isdigit, digit_char_code by lia.
      f_equal. lia.
    + rewrite Nat2Z.inj_succ, Z.pow_succ_r in H by lia.
      assert (B : 0 <= n / 10 < 10 ^ Z.of_nat f).
      { split; [apply Z.div_pos; lia |].
        apply Z.div_lt_upper_bound; lia. }
      assert (U' : n / 10 <= ULONG_MAX).
      { pose proof (Z.div_le_upper_bound n 10 n). lia. }
      pose proof (Z.mod_pos_bound n 10 ltac:(lia)) as M.
      rewrite strtoul_from_app by (apply decimal_digits_all; lia).
      rewrite (IH _ B U'). cbn [fst strtoul_from].
      rewrite digit_char_isdigit, digit_char_code by lia.
      f_equal. pose proof (Z.div_mod n 10 ltac:(lia)). lia.
Qed.

Lemma strtoul_token (n : Z) (s : string) :
  0 <= n < 2 ^ 31 -> digit_first s = false ->
  strtoul (String.append (decimal n) s) = (n, s).
Proof.
  intros H D. unfold strtoul, decimal.
  assert (P : 10 ^ Z.of_nat 20 = 100000000000000000000) by reflexivity.
  assert (U : ULONG_MAX = 18446744073709551615) by reflexivity.
  rewrite strtoul_from_app by (apply decimal_digits_all; lia).
  rewrite decimal_digits_value by lia. cbn [fst].
  destruct s as [| c s]; cbn [strtoul_from]; [reflexivity |].
  cbn [digit_first] in D. rewrite D. reflexivity.
Qed.

Ltac by_suffix :=
  unfold ordinal_suffix;
  repeat match goal with
         | |- context [if ?c then _ else _] => destruct c
         end; reflexivity.

Ltac suffix_test :=
  cbv beta iota;
  match goal with
  | |- context [strcasecmp ?a ?b =? 0] =>
      destruct (strcasecmp a b =? 0); reflexivity
  end.

Lemma ordinal_suffix_shape (n : Z) :
  no_blank (ordinal_suffix n) = true
  /\ digit_first (ordinal_suffix n) = false
  /\ strcasecmp (ordinal_suffix n) (ordinal_suffix n) = 0
  /\ (strcasecmp EmptyString (ordinal_suffix n) =? 0) = false.
Proof. repeat split; by_suffix. Qed.

(** The count adjective on a numeral followed by a suffix: the number
    when it is at least one and the suffix is the one of the number, up
    to letter case, and [-1] otherwise. *)
Lemma count_adjective_token (n : Z) (s : string) :
  0 <= n < 2 ^ 31 -> digit_first s = false ->
  count_adjective (String.append (decimal n) s)
  = if (1 <=? n) && (strcasecmp s (ordinal_suffix n) =? 0) then n else -1.
Proof.
  intros H D. unfold count_adjective.
  rewrite strtoul_token, int_of_long_small by assumption.
  destruct s as [| c s].
  - destruct (ordinal_suffix_shape n) as (_ & _ & _ & E). rewrite E.
    rewrite andb_false_r. reflexivity.
  - destruct (Z.ltb_spec n 1) as [L | L].
    + replace (1 <=? n) with false by (symmetry; apply Z.leb_gt; lia).
      reflexivity.
    + replace (1 <=? n) with true by (symmetry; apply Z.leb_le; lia).
      replace (n <? 1) with false by (symmetry; apply Z.ltb_ge; lia).
      cbn [andb]. unfold ordinal_suffix, truthy.
      destruct ((10 <? n) && (n <? 14)); [suffix_test |].
      destruct (Z.rem n 10 =? 1); [suffix_test |].
      destruct (Z.rem n 10 =? 2); [suffix_test |].
      destruct (Z.rem n 10 =? 3); suffix_test.
Qed.

Lemma all_digits_no_blank (s : string) :
  all_digits s = true -> no_blank s = true.
Proof.
  induction s as [| c s IH]; cbn [all_digits no_blank]; [reflexivity |].
  intros H. apply andb_true_iff in H. destruct H as [D H].
  rewrite (IH H), andb_true_r.
  destruct (digit_is_no_letter c D) as [_ B].
  apply negb_true_iff, Z.eqb_neq. lia.
Qed.

Lemma no_blank_app (s t : string) :
  no_blank (String.append s t) = no_blank s && no_blank t.
Proof.
  induction s as [| c s IH]; cbn [String.append no_blank];
    [reflexivity | rewrite IH, andb_assoc; reflexivity].
Qed.

Lemma split_blank_app (tok rest : string) :
  no_blank tok = true ->
  split_blank (String.append tok (String " "%char rest)) = Some (tok, rest).
Proof.
  induction tok as [| c tok IH]; cbn [String.append no_blank split_blank].
  - reflexivity.
  - intros H. apply andb_true_iff in H. destruct H as [B H].
    apply negb_true_iff in B. rewrite B, (IH H). reflexivity.
Qed.

(** A phrase that starts with a numeral, a suffix and a blank. *)
Lemma parse_english_token (n : Z) (s rest : string) (flags : Z) :
  0 <= n < 2 ^ 31 -> no_blank s = true -> digit_first s = false ->
  let phrase :=
    String.append (decimal n) (String.append s (String " "%char rest)) in
  parse_english phrase flags
  = if (1 <=? n) && (strcasecmp s (ordinal_suffix n) =? 0)
    then (n, skip_blanks rest, flags)
    else (0, phrase, flags).
Proof.
  intros H B D phrase.
  assert (AD : all_digits (decimal n) = true)
    by (apply decimal_digits_all; lia).
  assert (SB : split_blank phrase = Some (String.append (decimal n) s, rest)).
  { unfold phrase. rewrite <- string_append_assoc. apply split_blank_app.
    rewrite no_blank_app, B, (all_digits_no_blank _ AD). reflexivity. }
  assert (P : exists c q, phrase = String c q /\ isdigit c = true).
  { unfold phrase. pose proof (decimal_digits_nonempty 19 n) as NE.
    fold (decimal n) in NE.
    destruct (decimal n) as [| c q]; [contradiction |].
    cbn [all_digits] in AD. apply andb_true_iff in AD.
    cbn [String.append]. eexists _, _. split; [reflexivity | apply AD]. }
  destruct P as (c & q & P & DC).
  pose proof (count_adjective_token n s H D) as CA.
  unfold parse_english. rewrite P in SB |- *.
  rewrite digit_first_no_adjective by exact DC.
  rewrite DC, SB, CA. cbn [negb].
  destruct ((1 <=? n) && (strcasecmp s (ordinal_suffix n) =? 0)).
  - replace (n <? 0) with false by (symmetry; apply Z.ltb_ge; lia).
    reflexivity.
  - reflexivity.
Qed.

(** X15.  A phrase that starts with the decimal numeral of [n], a suffix
    without blanks and a blank is read as a count exactly when [n] is at
    least one and the suffix is, up to letter case, the one that goes
    with [n]: "th" for 11 to 13, and otherwise "st", "nd", "rd" or "th"
    by the last digit.  Then the count is [n] and the name starts behind
    the blanks; otherwise the count is 0 and the phrase is left whole.
    The flags stay as they are. *)
Theorem parse_english_count_token
  (n : Z) (s rest : string) (flags : Z) :
  0 <= n < 2 ^ 31 -> no_blank s = true -> digit_first s = false ->
  let phrase :=
    String.append (decimal n) (String.append s (String " "%char rest)) in
  parse_english phrase flags
  = if (1 <=? n) && (strcasecmp s (ordinal_suffix n) =? 0)
    then (n, skip_blanks rest, flags)
    else (0, phrase, flags).
Proof.
  intros H B D. apply parse_english_token; assumption.
Qed.

(** X16.  Round trip: the ordinal word of a count from 1 up to the
    largest [int], followed by a blank and a name, is parsed back to that
    count and to the name behind the blanks, with the flags untouched. *)
Theorem parse_english_reads_ordinal (n : Z) (rest : string) (flags : Z) :
  1 <= n < 2 ^ 31 ->
  parse_english
    (String.append (ordinal_word n) (String " "%char rest)) flags
  = (n, skip_blanks rest, flags).
Proof.
  intros H.
  destruct (ordinal_suffix_shape n) as (B & D & E & _).
  unfold ordinal_word. rewrite string_append_assoc.
  pose proof (parse_english_token n (ordinal_suffix n) rest flags
                ltac:(lia) B D) as T.
  cbv zeta in T. rewrite T, E.
  replace (1 <=? n) with true by (symmetry; apply Z.leb_le; lia).
  reflexivity.
Qed.

(** What [count_adjective] returns: [-1], or a count of at least one
    that is the number in front of the token, as an [int], and is
    followed by its own suffix. *)
Lemma count_adjective_sound (tok : string) :
  count_adjective tok = -1
  \/ (1 <= count_adjective tok
      /\ count_adjective tok = int_of_long (fst (strtoul tok))
      /\ strcasecmp (snd (strtoul tok))
           (ordinal_suffix (count_adjective tok)) = 0).
Proof.
  unfold count_adjective. destruct (strtoul tok) as [v e]. cbn [fst snd].
  set (count := int_of_long v).
  destruct e as [| c e]; [left; reflexivity |].
  destruct (Z.ltb_spec count 1) as [L | L]; [left; reflexivity |].
  unfold truthy.
  destruct ((10 <? count) && (count <? 14)) eqn:C1.
  { destruct (Z.eqb_spec (strcasecmp (String c e) "th") 0) as [S0 | S0];
      cbn [negb]; [right | left; reflexivity].
    split; [exact L |]. split; [reflexivity |].
    unfold ordinal_suffix. rewrite C1. exact S0. }
  destruct (Z.rem count 10 =? 1) eqn:C2.
  { destruct (Z.eqb_spec (strcasecmp (String c e) "st") 0) as [S0 | S0];
      cbn [negb]; [right | left; reflexivity].
    split; [exact L |]. split; [reflexivity |].
    unfold ordinal_suffix. rewrite C1, C2. exact S0. }
  destruct (Z.rem count 10 =? 2) eqn:C3.
  { destruct (Z.eqb_spec (strcasecmp (String c e) "nd") 0) as [S0 | S0];
      cbn [negb]; [right | left; reflexivity].
    split; [exact L |]. split; [reflexivity |].
    unfold ordinal_suffix. rewrite C1, C2, C3. exact S0. }
  destruct (Z.rem count 10 =? 3) eqn:C4.
  { destruct (Z.eqb_spec (strcasecmp (String c e) "rd") 0) as [S0 | S0];
      cbn [negb]; [right | left; reflexivity].
    split; [exact L |]. split; [reflexivity |].
    unfold ordinal_suffix. rewrite C1, C2, C3, C4. exact S0. }
  destruct (Z.eqb_spec (strcasecmp (String c e) "th") 0) as [S0 | S0];
    cbn [negb]; [right | left; reflexivity].
  split; [exact L |]. split; [reflexivity |].
  unfold ordinal_suffix. rewrite C1, C2, C3, C4. exact S0.
Qed.

(** X17.  [parse_english] returns a count other than 0 only when the
    text behind the restriction adjectives has, in front of its first
    blank, a token made of a number and the suffix of that number: the
    count is that number, as an [int], and at least one; the residual
    name starts behind the blanks that follow the token, and the flags
    are the ones that the adjectives left. *)
Theorem counted_phrase_has_ordinal
  (name : string) (flags : Z) (count : Z) (name' : string) (flags' : Z) :
  parse_english name flags = (count, name', flags') ->
  count <> 0 ->
  exists tok rest,
    split_blank (fst (restriction_adjectives name flags)) = Some (tok, rest)
    /\ name' = skip_blanks rest
    /\ flags' = snd (restriction_adjectives name flags)
    /\ 1 <= count
    /\ count = int_of_long (fst (strtoul tok))
    /\ strcasecmp (snd (strtoul tok)) (ordinal_suffix count) = 0.
Proof.
  unfold parse_english.
  destruct (restriction_adjectives name flags) as [n1 f1]. cbn [fst snd].
  destruct n1 as [| c r]; [intros [= <- _ _] N; contradiction |].
  destruct (isdigit c); cbn [negb];
    [| intros [= <- _ _] N; contradiction].
  destruct (split_blank (String c r)) as [[tok rest] |];
    [| intros [= <- _ _] N; contradiction].
  destruct (Z.ltb_spec (count_adjective tok) 0) as [L | L];
    [intros [= <- _ _] N; contradiction |].
  intros [= <- <- <-] N. exists tok, rest.
  destruct (count_adjective_sound tok) as [E | (P & V & S0)]; [lia |].
  auto 10.
Qed.

(* ================================================================= *)
(** ** How the result of a search is named *)

(** What [match_aliases] accepts: an exit whose name, read as a list of
    aliases, holds the text, or a player or an exit whose ALIAS attribute
    holds it. *)
Lemma match_aliases_kind (x : dbref) (name : string) :
  match_aliases w x name = true ->
  (IsExit w x = true /\ check_alias w name (Name w x) = true)
  \/ ((IsPlayer w x = true \/ IsExit w x = true)
      /\ exists a, alias_attr w x = Some a /\ check_alias w name a = true).
Proof.
  unfold match_aliases.
  destruct (IsPlayer w x) eqn:P, (IsExit w x) eqn:E; cbn [negb andb];
    try discriminate;
    try (destruct (check_alias w name (Name w x)); [auto |]);
    (destruct (alias_attr w x) as [a |]; [| discriminate]);
    intros H; right; (split; [auto | exists a; auto]).
Qed.

(** X18.  When no shortcut ends the call, a live result is the entity of
    the absolute reference in the text, or an entity that may be matched
    by the requester and that the residual name designates in one of
    these ways: it is an exit and the text is among the aliases that make
    up its name; it is a player or an exit and the text is among the
    aliases of its ALIAS attribute; it is no exit and the text is its
    full name up to letter case; or it is no exit, [MAT_EXACT] is not
    requested, and the text matches a part of its name. *)
Theorem live_result_is_named
  (who where_ : dbref) (xname : string) (type flags : Z)
  (mc0 : match_context) :
  shortcuts w who where_ xname type flags = inr mc0 ->
  let name := mc_name (search_start xname flags mc0) in
  let r := fst (match_result_internal w who where_ xname type flags) in
  GoodObject w r = true ->
  r = parse_objid w xname
  \/ (can_interact_match w r who = true
      /\ ((IsExit w r = true /\ check_alias w name (Name w r) = true)
          \/ ((IsPlayer w r = true \/ IsExit w r = true)
              /\ exists a, alias_attr w r = Some a
                           /\ check_alias w name a = true)
          \/ (IsExit w r = false
              /\ (strcasecmp (Name w r) name = 0
                  \/ (has flags MAT_EXACT = false
                      /\ string_match w (Name w r) name = true))))).
Proof.
  intros S name r G.
  destruct (live_result_verdict _ _ _ _ _ _ S G) as (_ & _ & A).
  fold r in A.
  destruct (search_start_fields xname flags mc0)
    as (_ & _ & _ & AB & W & _).
  destruct (shortcuts_fresh _ _ _ _ _ _ S) as (AB0 & W0 & _).
  unfold admissible in A. rewrite !andb_true_iff in A.
  destruct A as (_ & A). rewrite orb_true_iff in A.
  destruct A as [A | A].
  - left. apply Z.eqb_eq in A. congruence.
  - right. rewrite andb_true_iff in A. destruct A as (I & A).
    rewrite W, W0 in I. split; [exact I |].
    rewrite orb_true_iff in A. destruct A as [A | A].
    + unfold exact_name in A. fields. fold name in A.
      rewrite orb_true_iff in A. destruct A as [A | A].
      * destruct (match_aliases_kind _ _ A) as [K | K]; auto.
      * right. right. rewrite andb_true_iff in A. destruct A as (E & A).
        apply negb_true_iff in E. apply Z.eqb_eq in A. auto.
    + right. right. unfold partial_text in A. fold name in A.
      rewrite !andb_true_iff in A. destruct A as ((X & E) & A).
      apply negb_true_iff in E. apply negb_true_iff in X.
      change MAT_EXACT with (2 ^ 18) in X |- *.
      rewrite search_start_flag in X by (try lia; reflexivity).
      auto.
Qed.

Lemma skip_spaces_idem (s : string) :
  skip_spaces (skip_spaces s) = skip_spaces s.
Proof.
  induction s as [| c s IH]; cbn [skip_spaces]; [reflexivity |].
  destruct (isspace c) eqn:E; [exact IH |].
  cbn [skip_spaces]. rewrite E. reflexivity.
Qed.

(** X19.  [match_player] looks at the name without its decoration: the
    lookup token in front and the white space behind it.  For the name
    stripped in this way (when what is left does not itself start with
    the token) it finds the same player as for the decorated name, with
    or without a token in front. *)
Theorem match_player_ignores_decoration
  (who : dbref) (name : string) (partial : bool) :
  let core :=
    skip_spaces (if starts_with_token name then advance 1 name else name) in
  starts_with_token core = false ->
  match_player w who core partial = match_player w who name partial
  /\ match_player w who (String "*"%char core) partial
     = match_player w who name partial.
Proof.
  intros core H.
  assert (E : skip_spaces core = core) by apply skip_spaces_idem.
  split.
  - unfold match_player at 1. rewrite H, E. reflexivity.
  - unfold match_player at 1.
    replace (starts_with_token (String "*"%char core)) with true
      by reflexivity.
    cbn [advance]. rewrite E. reflexivity.
Qed.

(* ================================================================= *)
(** ** What [MAT_LAST] changes *)

Lemma has_same_but_last (f g b : Z) :
  same_but_last f g -> plain_mask b = true -> has f b = has g b.
Proof.
  intros A M. unfold plain_mask in M. rewrite !andb_true_iff in M.
  destruct M as ((M1 & M2) & M3).
  apply Z.leb_le in M1. apply Z.ltb_lt in M2. apply negb_true_iff in M3.
  unfold has. f_equal. apply Z.bits_inj'. intros n Hn.
  rewrite !Z.land_spec.
  destruct (Z.eq_dec n 25) as [-> | N];
    [rewrite M3, !andb_false_r; reflexivity |].
  destruct (Z_lt_le_dec n 32) as [L | L].
  - rewrite (A n) by lia. reflexivity.
  - replace (Z.testbit b n) with false; [rewrite !andb_false_r; reflexivity |].
    rewrite <- (Z.mod_small b (2 ^ 32)) by lia.
    symmetry. apply Z.mod_pow2_bits_high. lia.
Qed.

Lemma same_but_last_lor (f : Z) : same_but_last f (Z.lor f MAT_LAST).
Proof.
  intros n Hn N. rewrite Z.lor_spec.
  change MAT_LAST with (2 ^ 25). rewrite Z.pow2_bits_false by lia.
  rewrite orb_false_r. reflexivity.
Qed.

Lemma same_but_last_clear (f g m : Z) :
  same_but_last f g -> same_but_last (clear f m) (clear g m).
Proof.
  intros A n Hn N. unfold clear. rewrite !Z.land_spec, (A n) by lia.
  reflexivity.
Qed.

Lemma same_but_last_int (f g : Z) :
  same_but_last f g -> same_but_last (int_of_long f) (int_of_long g).
Proof.
  intros A n Hn N. rewrite !int_of_long_bits by lia. apply A; lia.
Qed.

Ltac flag_fields :=
  unfold set_flags in *; fields.

Ltac split_ifs :=
  repeat match goal with
         | |- context [if ?c then _ else _] => destruct c
         end.

Section Relabel.

Variable g : Z.

Lemma MATCH_TYPE_relabel (mc : match_context) :
  same_but_last (mc_flags mc) g ->
  MATCH_TYPE w (set_flags g mc) = MATCH_TYPE w mc.
Proof.
  intros A. unfold MATCH_TYPE. flag_fields.
  rewrite (has_same_but_last _ _ MAT_TYPE A eq_refl). reflexivity.
Qed.

Lemma MATCH_CONTROLS_relabel (mc : match_context) :
  same_but_last (mc_flags mc) g ->
  MATCH_CONTROLS w (set_flags g mc) = MATCH_CONTROLS w mc.
Proof.
  intros A. unfold MATCH_CONTROLS. flag_fields.
  rewrite (has_same_but_last _ _ MAT_CONTROL A eq_refl). reflexivity.
Qed.

Lemma MATCH_CONTENTS_relabel (mc : match_context) :
  same_but_last (mc_flags mc) g ->
  MATCH_CONTENTS w (set_flags g mc) = MATCH_CONTENTS w mc.
Proof.
  intros A. unfold MATCH_CONTENTS. flag_fields.
  rewrite (has_same_but_last _ _ MAT_CONTENTS A eq_refl). reflexivity.
Qed.

Lemma BEST_MATCH_relabel (mc : match_context) :
  same_but_last (mc_flags mc) g ->
  BEST_MATCH w (set_flags g mc) = BEST_MATCH w mc.
Proof.
  intros A. unfold BEST_MATCH, choose_thing. flag_fields.
  rewrite (has_same_but_last _ _ MAT_CHECK_KEYS A eq_refl). reflexivity.
Qed.

Lemma partial_name_relabel (mc : match_context) :
  same_but_last (mc_flags mc) g ->
  partial_name w (set_flags g mc) = partial_name w mc.
Proof.
  intros A. unfold partial_name. flag_fields.
  rewrite (has_same_but_last _ _ MAT_EXACT A eq_refl). reflexivity.
Qed.

Lemma matched_relabel (full : bool) (mc : match_context) :
  same_but_last (mc_flags mc) g ->
  matched w full (set_flags g mc)
  = (fst (matched w full mc), set_flags g (snd (matched w full mc))).
Proof.
  intros A. unfold matched.
  rewrite (MATCH_CONTROLS_relabel mc A), (BEST_MATCH_relabel mc A).
  cbv zeta.
  destruct (MATCH_CONTROLS w mc); cbn [negb]; [| reflexivity].
  flag_fields. destruct (mc_final mc =? 0).
  - destruct (BEST_MATCH w mc =? mc_match mc); cbn [negb]; [| reflexivity].
    destruct full; [destruct (mc_exact mc) |]; flag_fields;
      match goal with
      | |- context [if ?c then _ else _] => destruct c; reflexivity
      end.
  - destruct (mc_curr mc + 1 =? mc_final mc); reflexivity.
Qed.

Lemma matched_flags (full : bool) (mc : match_context) :
  mc_flags (snd (matched w full mc)) = mc_flags mc.
Proof.
  symmetry. apply (matched_same_query full mc).
Qed.

Lemma body_relabel (mc : match_context) :
  same_but_last (mc_flags mc) g ->
  match_obj_body w (set_flags g mc)
  = (fst (match_obj_body w mc), set_flags g (snd (match_obj_body w mc))).
Proof.
  intros A. unfold match_obj_body.
  rewrite (MATCH_TYPE_relabel mc A), (partial_name_relabel mc A).
  change (exact_name w (set_flags g mc)) with (exact_name w mc).
  change (mc_match (set_flags g mc)) with (mc_match mc).
  change (mc_abs (set_flags g mc)) with (mc_abs mc).
  change (mc_who (set_flags g mc)) with (mc_who mc).
  split_ifs; try reflexivity; apply matched_relabel; exact A.
Qed.

Lemma body_flags (mc : match_context) :
  mc_flags (snd (match_obj_body w mc)) = mc_flags mc.
Proof.
  symmetry. apply (body_same_query mc).
Qed.

Lemma loop_relabel (l : list dbref) (mc : match_context) :
  same_but_last (mc_flags mc) g ->
  match_obj_loop w l (set_flags g mc) = set_flags g (match_obj_loop w l mc)
  /\ mc_flags (match_obj_loop w l mc) = mc_flags mc.
Proof.
  revert mc. induction l as [| x l IH]; intros mc A; [split; reflexivity |].
  cbn [match_obj_loop].
  change (set_match x (set_flags g mc)) with (set_flags g (set_match x mc)).
  rewrite (body_relabel (set_match x mc) A).
  pose proof (body_flags (set_match x mc)) as FL.
  destruct (match_obj_body w (set_match x mc)) as [brk m1].
  cbn [fst snd] in *.
  destruct brk; [split; [reflexivity | exact FL] |].
  assert (A1 : same_but_last (mc_flags m1) g) by (rewrite FL; exact A).
  destruct (IH m1 A1) as (E & F). split; [exact E |].
  rewrite F. exact FL.
Qed.

Lemma match_obj_list_relabel (start : dbref) (mc : match_context) :
  same_but_last (mc_flags mc) g ->
  match_obj_list w start (set_flags g mc)
  = (fst (match_obj_list w start mc),
     set_flags g (snd (match_obj_list w start mc)))
  /\ mc_flags (snd (match_obj_list w start mc)) = mc_flags mc.
Proof.
  intros A. unfold match_obj_list.
  change (mc_done (set_flags g mc)) with (mc_done mc).
  destruct (mc_done mc); [split; reflexivity |].
  change (set_match start (set_flags g mc))
    with (set_flags g (set_match start mc)).
  destruct (loop_relabel (DOLIST w start) (set_match start mc) A) as (E & F).
  rewrite E. split; [reflexivity | exact F].
Qed.

Lemma helper_relabel (atr : ATTR) (mc : match_context) :
  same_but_last (mc_flags mc) g ->
  match_attr_helper w atr (set_flags g mc)
  = (fst (match_attr_helper w atr mc),
     set_flags g (snd (match_attr_helper w atr mc)))
  /\ mc_flags (snd (match_attr_helper w atr mc)) = mc_flags mc.
Proof.
  intros A. unfold match_attr_helper. cbv zeta.
  change (mc_done (set_flags g mc)) with (mc_done mc).
  destruct (mc_done mc); [split; reflexivity |].
  destruct (negb (RealGoodObject w _) || negb (has_generic_flag w _));
    [split; reflexivity |].
  destruct (parse_integer w (atr_value atr) <=? 0); [split; reflexivity |].
  match goal with
  | |- context [set_match ?x (set_flags g mc)] =>
      change (set_match x (set_flags g mc))
        with (set_flags g (set_match x mc));
      assert (A1 : same_but_last (mc_flags (set_match x mc)) g) by exact A;
      assert (FM : mc_flags (set_match x mc) = mc_flags mc) by reflexivity;
      generalize dependent (set_match x mc)
  end.
  intros m A1 FM.
  rewrite (MATCH_TYPE_relabel m A1), (partial_name_relabel m A1).
  change (exact_name w (set_flags g m)) with (exact_name w m).
  change (mc_match (set_flags g m)) with (mc_match m).
  change (mc_abs (set_flags g m)) with (mc_abs m).
  change (mc_who (set_flags g m)) with (mc_who m).
  rewrite !(matched_relabel _ m A1).
  pose proof (matched_flags true m) as F1.
  pose proof (matched_flags false m) as F2.
  destruct (matched w true m) as [r1 m1], (matched w false m) as [r2 m2].
  cbn [fst snd] in *.
  split_ifs; split; try reflexivity; cbn [snd]; congruence.
Qed.

Lemma atr_iter_relabel (l : list ATTR) (mc : match_context) :
  same_but_last (mc_flags mc) g ->
  atr_iter w l (set_flags g mc)
  = (fst (atr_iter w l mc), set_flags g (snd (atr_iter w l mc)))
  /\ mc_flags (snd (atr_iter w l mc)) = mc_flags mc.
Proof.
  revert mc. induction l as [| atr l IH]; intros mc A; [split; reflexivity |].
  cbn [atr_iter].
  destruct (helper_relabel atr mc A) as (E & F). rewrite E.
  destruct (match_attr_helper w atr mc) as [n m1]. cbn [fst snd] in *.
  assert (A1 : same_but_last (mc_flags m1) g) by (rewrite F; exact A).
  destruct (IH m1 A1) as (E1 & F1). rewrite E1.
  destruct (atr_iter w l m1) as [k m2]. cbn [fst snd] in *.
  split; [reflexivity | congruence].
Qed.

Lemma match_attr_list_relabel (obj : dbref) (mc : match_context) :
  same_but_last (mc_flags mc) g ->
  match_attr_list w obj (set_flags g mc)
  = (fst (match_attr_list w obj mc),
     set_flags g (snd (match_attr_list w obj mc)))
  /\ mc_flags (snd (match_attr_list w obj mc)) = mc_flags mc.
Proof.
  intros A. unfold match_attr_list.
  change (mc_done (set_flags g mc)) with (mc_done mc).
  destruct (mc_done mc); [split; reflexivity |].
  destruct (atr_iter_relabel (generic_attrs w obj) mc A) as (E & F).
  rewrite E.
  destruct (atr_iter w (generic_attrs w obj) mc) as [k m]. cbn [fst snd] in *.
  change (mc_done (set_flags g m)) with (mc_done m).
  destruct (mc_done m); split; try reflexivity; exact F.
Qed.

Lemma run_pools_relabel (plan : list pool) (mc : match_context) :
  same_but_last (mc_flags mc) g ->
  run_pools w plan (set_flags g mc) = set_flags g (run_pools w plan mc).
Proof.
  revert mc. induction plan as [| [k x] plan IH]; intros mc A;
    [reflexivity |].
  cbn [run_pools]. destruct (is_proxy_pool k).
  - destruct (match_attr_list_relabel x mc A) as (E & F). rewrite E.
    destruct (match_attr_list w x mc) as [brk m]. cbn [fst snd] in *.
    destruct brk; [reflexivity |]. apply IH. rewrite F. exact A.
  - destruct (match_obj_list_relabel x mc A) as (E & F). rewrite E.
    destruct (match_obj_list w x mc) as [res m]. cbn [fst snd] in *.
    destruct (res =? 1); [reflexivity |]. apply IH. rewrite F. exact A.
Qed.

Lemma search_plan_relabel (where_ loc : dbref) (type f : Z) :
  same_but_last f g ->
  search_plan w where_ loc type g = search_plan w where_ loc type f.
Proof.
  intros A. unfold search_plan.
  rewrite <- !(has_same_but_last f g
                 (Z.lor MAT_POSSESSION MAT_REMOTE_CONTENTS) A eq_refl).
  rewrite <- !(has_same_but_last f g (Z.lor MAT_NEAR MAT_CONTENTS) A eq_refl).
  rewrite <- !(has_same_but_last f g MAT_NEIGHBOR A eq_refl).
  rewrite <- !(has_same_but_last f g MAT_CONTENTS A eq_refl).
  rewrite <- !(has_same_but_last f g MAT_TYPE A eq_refl).
  rewrite <- !(has_same_but_last f g MAT_EXIT A eq_refl).
  rewrite <- !(has_same_but_last f g MAT_REMOTES A eq_refl).
  rewrite <- !(has_same_but_last f g MAT_GLOBAL A eq_refl).
  rewrite <- !(has_same_but_last f g MAT_CONTAINER A eq_refl).
  rewrite <- !(has_same_but_last f g MAT_CARRIED_EXIT A eq_refl).
  reflexivity.
Qed.

(** The general search reads the flags only through flags other than
    [MAT_LAST]. *)
Lemma search_relabel (where_ : dbref) (type : Z) (mc : match_context) :
  same_but_last (mc_flags mc) g ->
  search w where_ type (set_flags g mc)
  = set_flags g (search w where_ type mc).
Proof.
  intros A. rewrite !search_as_plan.
  change (mc_flags (set_flags g mc)) with g.
  rewrite (search_plan_relabel _ _ _ _ A).
  apply run_pools_relabel. exact A.
Qed.

End Relabel.

Ltac to_first A :=
  repeat match goal with
         | |- context [has ?g' ?b] =>
             lazymatch type of A with
             | same_but_last ?f g' =>
                 rewrite <- (has_same_but_last f g' b A eq_refl)
             end
         end.

Section Shortcuts.

Variables (who where_ : dbref) (xname : string) (type f g : Z).

Hypothesis agree : same_but_last f g.

Lemma check_where_relabel (mc : match_context) :
  check_where w who where_ g (set_flags g mc)
  = relabel_step g (check_where w who where_ f mc).
Proof.
  unfold check_where. cbv zeta. to_first agree.
  split_ifs; reflexivity.
Qed.

Lemma shortcut_me_relabel (mc : match_context) :
  mc_flags mc = f ->
  shortcut_me w where_ xname g (set_flags g mc)
  = relabel_step g (shortcut_me w where_ xname f mc).
Proof.
  intros F. unfold shortcut_me. cbv zeta.
  change (set_match where_ (set_flags g mc))
    with (set_flags g (set_match where_ mc)).
  assert (A1 : same_but_last (mc_flags (set_match where_ mc)) g)
    by (fields; rewrite F; exact agree).
  generalize dependent (set_match where_ mc). intros m A1.
  rewrite (MATCH_TYPE_relabel g m A1), (MATCH_CONTROLS_relabel g m A1).
  change (mc_match (set_flags g m)) with (mc_match m).
  to_first agree. split_ifs; reflexivity.
Qed.

Lemma shortcut_here_relabel (mc : match_context) :
  mc_flags mc = f ->
  shortcut_here w where_ xname g (set_flags g mc)
  = relabel_step g (shortcut_here w where_ xname f mc).
Proof.
  intros F. unfold shortcut_here. cbv zeta.
  match goal with
  | |- context [set_match ?x (set_flags g mc)] =>
      change (set_match x (set_flags g mc))
        with (set_flags g (set_match x mc));
      assert (A1 : same_but_last (mc_flags (set_match x mc)) g)
        by (fields; rewrite F; exact agree);
      generalize dependent (set_match x mc)
  end.
  intros m A1.
  rewrite (MATCH_TYPE_relabel g m A1), (MATCH_CONTROLS_relabel g m A1).
  change (mc_match (set_flags g m)) with (mc_match m).
  to_first agree. split_ifs; reflexivity.
Qed.

Lemma shortcut_player_relabel (mc : match_context) :
  mc_flags mc = f ->
  shortcut_player w who xname type g (set_flags g mc)
  = relabel_step g (shortcut_player w who xname type f mc).
Proof.
  intros F. unfold shortcut_player. cbv zeta. to_first agree.
  match goal with
  | |- context [set_match ?x (set_flags g mc)] =>
      change (set_match x (set_flags g mc))
        with (set_flags g (set_match x mc));
      assert (A1 : same_but_last (mc_flags (set_match x mc)) g)
        by (fields; rewrite F; exact agree);
      generalize dependent (set_match x mc)
  end.
  intros m A1.
  rewrite (MATCH_CONTENTS_relabel g m A1), (MATCH_CONTROLS_relabel g m A1),
    (BEST_MATCH_relabel g m A1).
  change (mc_match (set_flags g m)) with (mc_match m).
  split_ifs; reflexivity.
Qed.

Lemma shortcut_dbref_relabel (mc : match_context) :
  mc_flags mc = f ->
  shortcut_dbref w who g (set_flags g mc)
  = relabel_step g (shortcut_dbref w who f mc).
Proof.
  intros F. unfold shortcut_dbref. cbv zeta.
  change (mc_abs (set_flags g mc)) with (mc_abs mc).
  change (set_match (mc_abs mc) (set_flags g mc))
    with (set_flags g (set_match (mc_abs mc) mc)).
  assert (A1 : same_but_last (mc_flags (set_match (mc_abs mc) mc)) g)
    by (fields; rewrite F; exact agree).
  generalize dependent (set_match (mc_abs mc) mc). intros m A1.
  rewrite (MATCH_TYPE_relabel g m A1), (MATCH_CONTENTS_relabel g m A1),
    (MATCH_CONTROLS_relabel g m A1).
  change (mc_match (set_flags g m)) with (mc_match m).
  to_first agree. split_ifs; reflexivity.
Qed.

(** The shortcuts read the flags only through flags other than
    [MAT_LAST]. *)
Lemma shortcuts_relabel :
  shortcuts w who where_ xname type g
  = relabel_step g (shortcuts w who where_ xname type f).
Proof.
  unfold shortcuts.
  assert (F0 : fresh w who where_ xname type f
                 (initial_context w who where_ xname type f)).
  { unfold fresh, initial_context. fields. repeat split; reflexivity. }
  change (initial_context w who where_ xname type g)
    with (set_flags g (initial_context w who where_ xname type f)).
  rewrite check_where_relabel.
  destruct (check_where w who where_ f _) as [a | m1] eqn:E1;
    cbn [relabel_step and_then]; [reflexivity |].
  apply (check_where_fresh _ _ _ _ _ _ _ F0) in E1.
  rewrite (shortcut_me_relabel m1) by apply E1.
  destruct (shortcut_me w where_ xname f m1) as [a | m2] eqn:E2;
    cbn [relabel_step and_then]; [reflexivity |].
  apply (shortcut_me_fresh _ _ _ _ _ _ _ E1) in E2.
  rewrite (shortcut_here_relabel m2) by apply E2.
  destruct (shortcut_here w where_ xname f m2) as [a | m3] eqn:E3;
    cbn [relabel_step and_then]; [reflexivity |].
  apply (shortcut_here_fresh _ _ _ _ _ _ _ E2) in E3.
  rewrite (shortcut_player_relabel m3) by apply E3.
  destruct (shortcut_player w who xname type f m3) as [a | m4] eqn:E4;
    cbn [relabel_step and_then]; [reflexivity |].
  apply (shortcut_player_fresh _ _ _ _ _ _ _ E3) in E4.
  apply shortcut_dbref_relabel. apply E4.
Qed.

End Shortcuts.

Lemma restriction_adjectives_relabel (name : string) (f g : Z) :
  same_but_last f g ->
  fst (restriction_adjectives name g) = fst (restriction_adjectives name f)
  /\ same_but_last (snd (restriction_adjectives name f))
       (snd (restriction_adjectives name g)).
Proof.
  intros A. unfold restriction_adjectives.
  assert (H1 : fst (adjective_this_here name g)
               = fst (adjective_this_here name f)
               /\ same_but_last (snd (adjective_this_here name f))
                    (snd (adjective_this_here name g))).
  { unfold adjective_this_here. to_first A.
    split_ifs; cbn [fst snd]; split;
      auto using same_but_last_clear. }
  destruct (adjective_this_here name g) as [n1 g1],
    (adjective_this_here name f) as [n1' f1].
  cbn [fst snd] in H1. destruct H1 as (<- & A1).
  assert (H2 : fst (adjective_my n1 g1) = fst (adjective_my n1 f1)
               /\ same_but_last (snd (adjective_my n1 f1))
                    (snd (adjective_my n1 g1))).
  { unfold adjective_my. to_first A1.
    split_ifs; cbn [fst snd]; split;
      auto using same_but_last_clear. }
  destruct (adjective_my n1 g1) as [n2 g2],
    (adjective_my n1 f1) as [n2' f2].
  cbn [fst snd] in H2. destruct H2 as (<- & A2).
  assert (H3 : fst (adjective_toward n2 g2) = fst (adjective_toward n2 f2)
               /\ same_but_last (snd (adjective_toward n2 f2))
                    (snd (adjective_toward n2 g2))).
  { unfold adjective_toward. to_first A2.
    split_ifs; cbn [fst snd]; split;
      auto using same_but_last_clear. }
  destruct (adjective_toward n2 g2) as [n3 g3],
    (adjective_toward n2 f2) as [n3' f3].
  cbn [fst snd] in *. destruct H3 as (<- & A3). auto.
Qed.

(** The phrase parser reads the flags only through flags other than
    [MAT_LAST], and leaves that flag as it is. *)
Lemma parsed_phrase_relabel (xname : string) (f g : Z) :
  same_but_last f g ->
  fst (parsed_phrase xname g) = fst (parsed_phrase xname f)
  /\ same_but_last (snd (parsed_phrase xname f))
       (snd (parsed_phrase xname g)).
Proof.
  intros A. unfold parsed_phrase.
  rewrite <- (has_same_but_last f g MAT_ENGLISH A eq_refl).
  destruct (has f MAT_ENGLISH); [| split; [reflexivity | exact A]].
  unfold parse_english. cbv zeta.
  destruct (restriction_adjectives_relabel xname f g A) as (N & A1).
  destruct (restriction_adjectives xname g) as [n1 g1],
    (restriction_adjectives xname f) as [n1' f1].
  cbn [fst snd] in N, A1. subst n1'.
  destruct n1 as [| c r];
    [split; [reflexivity | apply same_but_last_int; exact A] |].
  destruct (negb (isdigit c)); [split; [reflexivity | exact A1] |].
  destruct (split_blank (String c r)) as [[tok rest] |];
    [| split; [reflexivity | exact A1]].
  destruct (count_adjective tok <? 0); split;
    try reflexivity; exact A1.
Qed.

(** The classification of the final state with and without [MAT_LAST]:
    the two answers are the same unless the one without is [AMBIGUOUS]
    for several matches. *)
Lemma conclude_last (who : dbref) (f g : Z) (mc : match_context) :
  same_but_last f g -> has g MAT_LAST = true ->
  (fst (conclude w who f mc) <> AMBIGUOUS ->
   conclude w who g (set_flags g mc) = conclude w who f mc)
  /\ (fst (conclude w who f mc) = AMBIGUOUS ->
      fst (conclude w who g (set_flags g mc)) = AMBIGUOUS
      \/ (fst (conclude w who g (set_flags g mc)) = mc_bestmatch mc
          /\ mc_final mc = 0 /\ 1 < mc_curr mc)).
Proof.
  intros A L. unfold conclude, classify, failure_notice. cbv zeta.
  rewrite L. rewrite <- (has_same_but_last f g MAT_NOISY A eq_refl).
  flag_fields.
  destruct (negb (GoodObject w (mc_bestmatch mc)) && truthy (mc_final mc))
    eqn:C1; flag_fields.
  { split; [reflexivity | intros E; discriminate E]. }
  destruct (Z.eqb_spec (mc_final mc) 0) as [F | F];
    destruct (Z.ltb_spec 1 (mc_curr mc)) as [C | C]; cbn [andb negb];
    rewrite ?andb_false_r; flag_fields;
    try (split; [reflexivity | intros E; left; exact E]).
  destruct (negb (mc_right_type mc =? 1) && negb (has f MAT_LAST));
    flag_fields.
  - split; [intros N; contradiction N; reflexivity |].
    intros _. right. auto.
  - split; [reflexivity | intros E; left; exact E].
Qed.

(** The general search only reads the query. *)
Lemma search_same_query (where_ : dbref) (type : Z) (mc1 : match_context) :
  same_query mc1 (search w where_ type mc1).
Proof.
  rewrite search_as_plan.
  set (P := fun (_ : list dbref) (m : match_context) => same_query mc1 m).
  change (P ([] ++ flat_map (pool_candidates w)
               (search_plan w where_ (location_of w where_) type
                  (mc_flags mc1)))%list
            (run_pools w
               (search_plan w where_ (location_of w where_) type
                  (mc_flags mc1)) mc1)).
  apply scan_pools; unfold P.
  - intros l m x Q. eapply same_query_trans; [eassumption |].
    apply (same_query_set_match m x).
  - intros l m x _ _ Q. eapply same_query_trans; [eassumption |].
    eapply same_query_trans; [apply (same_query_set_match m x) |].
    apply body_same_query.
  - intros l m x _ Q. exact Q.
  - apply same_query_refl.
Qed.

(** X20.  [last_match_result] differs from [match_result] only where the
    latter is [AMBIGUOUS]: whenever [match_result] returns anything else,
    [last_match_result] returns the same reference and sends the same
    messages; and where [match_result] returns [AMBIGUOUS],
    [last_match_result] returns a live entity, or [AMBIGUOUS] when that
    is what the player lookup left and the search recorded nothing. *)
Theorem last_match_result_refines
  (who : dbref) (name : string) (type flags : Z) :
  let a := match_result w who name type flags in
  let b := last_match_result w who name type flags in
  (fst a <> AMBIGUOUS -> b = a)
  /\ (fst a = AMBIGUOUS ->
      fst b = AMBIGUOUS \/ GoodObject w (fst b) = true).
Proof.
  cbv zeta. unfold last_match_result, match_result.
  set (g := Z.lor flags MAT_LAST).
  assert (A : same_but_last flags g) by apply same_but_last_lor.
  pose proof (shortcuts_relabel who who name type flags g A) as SR.
  destruct (shortcuts w who who name type flags) as [a | mc0] eqn:S;
    cbn [relabel_step] in SR.
  { unfold match_result_internal. rewrite S, SR.
    split; [reflexivity | intros E; left; exact E]. }
  rewrite (match_result_internal_answer _ _ _ _ _ _ S).
  rewrite (match_result_internal_answer _ _ _ _ _ _ SR). cbv zeta.
  destruct (parsed_phrase_relabel name flags g A) as (PN & PA).
  assert (L : has (snd (parsed_phrase name g)) MAT_LAST = true).
  { change MAT_LAST with (2 ^ 25).
    rewrite parsed_phrase_keeps by (try lia; reflexivity).
    unfold g. rewrite has_lor_l.
    replace (has MAT_LAST (2 ^ 25)) with true by reflexivity.
    apply orb_true_r. }
  assert (M : search_start name g (set_flags g mc0)
              = set_flags (snd (parsed_phrase name g))
                  (search_start name flags mc0)).
  { unfold search_start.
    destruct (parsed_phrase name g) as [[c n] g'],
      (parsed_phrase name flags) as [[c' n'] f'].
    cbn [fst snd] in PN |- *. injection PN as <- <-. reflexivity. }
  destruct (search_start_fields name flags mc0) as (_ & _ & FL & _).
  set (mc1 := search_start name flags mc0) in *.
  rewrite M. change (mc_flags (set_flags _ mc1)) with
    (snd (parsed_phrase name g)).
  rewrite search_relabel by (rewrite FL; exact PA).
  rewrite FL.
  destruct (conclude_last who _ _ (search w who type mc1) PA L) as (K1 & K2).
  split; [exact K1 |].
  intros E. destruct (K2 E) as [K | (K & F & C)]; [left; exact K |].
  right. rewrite K.
  assert (F1 : mc_final mc1 = 0).
  { destruct (search_same_query who type mc1)
      as (_ & _ & _ & _ & _ & Q & _). congruence. }
  destruct (call_counts _ _ _ _ _ _ S F1) as (_ & _ & _ & HP).
  apply HP. fold mc1. lia.
Qed.

(* ================================================================= *)
(** ** The enumeration of the proxies *)

(** C8, as the code has it.  An attribute whose priority is not positive
    is ignored, and so is one whose decoded id names no live entity or one
    without the GENERIC flag.  Every other attribute is offered to the
    evaluator as a candidate, exactly as a member of an object list is:
    [match_attr_list] evaluates the entities of the valid attributes, one
    per attribute and in the order of the enumeration, as
    [match_obj_list] evaluates the members of a list, and it reports the
    early stop.  The priority is only tested for being positive, and the
    proxies of one entity are not ranked by it. *)
Theorem proxy_enumeration (obj : dbref) (atr : ATTR) (mc : match_context) :
  (proxy_priority w atr <= 0 -> match_attr_helper w atr mc = (0, mc))
  /\ (RealGoodObject w (proxy_entity w atr) = false
      \/ has_generic_flag w (proxy_entity w atr) = false ->
      match_attr_helper w atr mc = (0, mc))
  /\ (mc_done mc = false -> proxy_valid w atr = true ->
      snd (match_attr_helper w atr mc)
      = snd (match_obj_body w (set_match (proxy_entity w atr) mc)))
  /\ (forall atr' : ATTR,
      proxy_entity w atr' = proxy_entity w atr ->
      0 < proxy_priority w atr -> 0 < proxy_priority w atr' ->
      match_attr_helper w atr' mc = match_attr_helper w atr mc)
  /\ (let offered :=
        map (proxy_entity w)
          (filter (fun a => RealGoodObject w (proxy_entity w a)
                            && has_generic_flag w (proxy_entity w a)
                            && (0 <? proxy_priority w a))
             (generic_attrs w obj)) in
      mc_done mc = false ->
      match_attr_list w obj mc
      = (mc_done (match_obj_loop w offered mc), match_obj_loop w offered mc))
  /\ (mc_done mc = true -> match_attr_list w obj mc = (true, mc)).
Proof.
  split; [| split; [| split; [| split; [| split]]]].
  - intros P. apply helper_invalid. unfold proxy_valid.
    apply Z.ltb_ge in P. rewrite P. apply andb_false_r.
  - intros [R | G]; apply helper_invalid; unfold proxy_valid.
    + rewrite R. reflexivity.
    + rewrite G. apply andb_false_iff. left. apply andb_false_r.
  - apply helper_as_body.
  - intros atr' E P P'. unfold match_attr_helper. cbv zeta.
    fold (proxy_entity w atr) (proxy_entity w atr')
      (proxy_priority w atr) (proxy_priority w atr').
    rewrite E.
    apply Z.leb_gt in P, P'. rewrite P, P'. reflexivity.
  - intros offered D.
    change offered with (proxy_candidates w (generic_attrs w obj)).
    unfold match_attr_list. rewrite D.
    pose proof (atr_iter_as_loop (generic_attrs w obj) mc D) as E.
    destruct (atr_iter w (generic_attrs w obj) mc) as [n m].
    cbn [snd] in E. rewrite <- E.
    destruct (mc_done m); reflexivity.
  - intros D. unfold match_attr_list. rewrite D. reflexivity.
Qed.

(* ================================================================= *)
(** ** The pairs that the tie-breaker is given *)

(** The player lookup calls the tie-breaker with [NOTHING] as the current
    best: nothing in front of it writes [mc->bestmatch]. *)
Lemma player_lookup_first_is_nothing
  (who where_ : dbref) (xname : string) (type flags : Z)
  (m1 m2 m3 : match_context) :
  check_where w who where_ flags
    (initial_context w who where_ xname type flags) = inr m1 ->
  shortcut_me w where_ xname flags m1 = inr m2 ->
  shortcut_here w where_ xname flags m2 = inr m3 ->
  mc_bestmatch m3 = NOTHING.
Proof.
  unfold check_where, shortcut_me, shortcut_here. cbv zeta.
  intros E1 E2 E3.
  destruct (_ || _) in E1; [discriminate |]. injection E1 as <-.
  assert (B2 : mc_bestmatch m2 = NOTHING).
  { destruct (_ && _) in E2;
      [destruct (MATCH_CONTROLS w _) in E2; [discriminate |] |];
      injection E2 as <-; reflexivity. }
  destruct (_ && _) in E3;
    [destruct (MATCH_CONTROLS w _) in E3; [discriminate |] |];
    injection E3 as <-; exact B2.
Qed.

(** C4.  The tie-breaker decides in this order: (1) of two invalid
    references it returns the second, unless the second is [NOTHING] and
    the first is some other invalid value, which is then returned; (2) if
    exactly one is a live entity, that one; (3) if a type filter is given
    and exactly one has a type intersecting it, that one; (4) if
    preference by lock is requested and exactly one passes the lock, that
    one; (5) otherwise the second.

    Rule (1) is stated for the pairs of invalid references that
    [choose_thing], a static function, is given: one of the two is
    [NOTHING], or the two are the same.  The last two parts say what the
    two callers pass: the player lookup passes a current best that is
    still [NOTHING], and the evaluator passes a candidate of a pool,
    which is a live entity. *)
Theorem choose_thing_order (who : dbref) (type flags : Z) (a b : dbref) :
  let r := choose_thing w who type flags a b in
  (GoodObject w a = false -> GoodObject w b = false ->
   a = NOTHING \/ b = NOTHING \/ a = b ->
   r = claimed_choice_of_invalid a b)
  /\ (GoodObject w a = true -> GoodObject w b = false -> r = a)
  /\ (GoodObject w a = false -> GoodObject w b = true -> r = b)
  /\ (GoodObject w a = true -> GoodObject w b = true ->
      (of_preferred_type w type a = true ->
       of_preferred_type w type b = false -> r = a)
      /\ (of_preferred_type w type a = false ->
          of_preferred_type w type b = true -> r = b)
      /\ (of_preferred_type w type a = of_preferred_type w type b ->
          (passes_key w who flags a = true ->
           passes_key w who flags b = false -> r = a)
          /\ (passes_key w who flags a = false ->
              passes_key w who flags b = true -> r = b)
          /\ (passes_key w who flags a = passes_key w who flags b ->
              r = b)))
  /\ (forall where_ xname m1 m2 m3,
      check_where w who where_ flags
        (initial_context w who where_ xname type flags) = inr m1 ->
      shortcut_me w where_ xname flags m1 = inr m2 ->
      shortcut_here w where_ xname flags m2 = inr m3 ->
      mc_bestmatch m3 = NOTHING)
  /\ (forall (p : pool) (x : dbref),
      In x (pool_candidates w p) -> GoodObject w x = true).
Proof.
  cbv zeta.
  split; [| split; [| split; [| split; [| split]]]];
    [| | | | intros where_ xname m1 m2 m3;
             apply player_lookup_first_is_nothing
           | apply pool_candidates_In].
  all: unfold choose_thing, of_preferred_type, passes_key;
    intros Ga Gb; rewrite Ga, Gb; simpl; try reflexivity.
  - unfold claimed_choice_of_invalid. intros [-> | [-> | ->]].
    + rewrite Z.eqb_refl. cbn [negb]. rewrite andb_false_r. reflexivity.
    + rewrite Z.eqb_refl. cbn [andb].
      destruct (Z.eqb_spec a NOTHING) as [-> | N]; reflexivity.
    + destruct (b =? NOTHING); reflexivity.
  - destruct (type =? NOTYPE); simpl;
      destruct (truthy (Z.land (Typeof w a) type));
      destruct (truthy (Z.land (Typeof w b) type)); simpl;
      destruct (has flags MAT_CHECK_KEYS); simpl;
      destruct (could_doit w who a); destruct (could_doit w who b); simpl;
      repeat split; intros; try discriminate; try reflexivity.
Qed.

(* ================================================================= *)
(** ** "this here" *)


(* ================================================================= *)
(** ** Malformed counts *)

Lemma numeral_from_ge (s : string) (acc : Z) :
  all_digits s = true -> 0 <= acc -> acc <= numeral_from acc s.
Proof.
  revert acc. induction s as [| c s IH]; intros acc D A;
    cbn [numeral_from all_digits] in *; [lia |].
  apply andb_true_iff in D. destruct D as [D1 D2].
  destruct (digit_is_no_letter c D1) as [_ B].
  specialize (IH (10 * acc + (zchar c - 48)) D2 ltac:(lia)). lia.
Qed.

(** [strtoul] reads a run of digits whose number fits. *)
Lemma strtoul_from_numeral (s : string) (acc : Z) :
  all_digits s = true -> 0 <= acc -> numeral_from acc s <= ULONG_MAX ->
  strtoul_from acc s = (numeral_from acc s, EmptyString).
Proof.
  revert acc. induction s as [| c s IH]; intros acc D A U;
    cbn [numeral_from strtoul_from all_digits] in *; [reflexivity |].
  apply andb_true_iff in D. destruct D as [D1 D2]. rewrite D1.
  destruct (digit_is_no_letter c D1) as [_ B].
  pose proof (numeral_from_ge s (10 * acc + (zchar c - 48)) D2 ltac:(lia)).
  rewrite Z.min_r by lia. apply IH; [assumption | lia | assumption].
Qed.

(** The count adjective on a run of digits followed by a suffix: the
    number of the run when it is at least one and the suffix is the one
    of the number, up to letter case, and [-1] otherwise. *)
Lemma count_adjective_digits (d s : string) :
  all_digits d = true -> numeral d < 2 ^ 31 -> digit_first s = false ->
  count_adjective (String.append d s)
  = if (1 <=? numeral d) && (strcasecmp s (ordinal_suffix (numeral d)) =? 0)
    then numeral d else -1.
Proof.
  intros D H F.
  pose proof (numeral_from_ge d 0 D ltac:(lia)) as P. fold (numeral d) in P.
  assert (U : ULONG_MAX = 18446744073709551615) by reflexivity.
  unfold count_adjective, strtoul.
  rewrite strtoul_from_app by exact D.
  assert (V : numeral_from 0 d <= ULONG_MAX)
    by (unfold numeral in H; lia).
  rewrite (strtoul_from_numeral d 0 D ltac:(lia) V).
  fold (numeral d). cbn [fst].
  replace (strtoul_from (numeral d) s) with (numeral d, s)
    by (destruct s as [| c s]; cbn [strtoul_from]; [reflexivity |];
        cbn [digit_first] in F; rewrite F; reflexivity).
  rewrite int_of_long_small by lia.
  set (n := numeral d) in *.
  destruct s as [| c s].
  - destruct (ordinal_suffix_shape n) as (_ & _ & _ & E). rewrite E.
    rewrite andb_false_r. reflexivity.
  - destruct (Z.ltb_spec n 1) as [L | L].
    + replace (1 <=? n) with false by (symmetry; apply Z.leb_gt; lia).
      reflexivity.
    + replace (1 <=? n) with true by (symmetry; apply Z.leb_le; lia).
      cbn [andb]. unfold ordinal_suffix, truthy.
      destruct ((10 <? n) && (n <? 14)); [suffix_test |].
      destruct (Z.rem n 10 =? 1); [suffix_test |].
      destruct (Z.rem n 10 =? 2); [suffix_test |].
      destruct (Z.rem n 10 =? 3); suffix_test.
Qed.

Lemma split_blank_none (t : string) :
  no_blank t = true -> split_blank t = None.
Proof.
  induction t as [| c t IH]; cbn [no_blank split_blank]; [reflexivity |].
  intros H. apply andb_true_iff in H. destruct H as [B H].
  apply negb_true_iff in B. rewrite B, (IH H). reflexivity.
Qed.

(** C5, as the code has it.  The text behind the restriction adjectives
    starts with a run of digits whose number is below 2^31, and the run
    is followed, up to the next blank, by a suffix.  When no blank
    follows at all, or when the number is 0 or the suffix is not the one
    that goes with the number ("th" for 11 to 13, otherwise "st", "nd",
    "rd" or "th" by the last digit; letter case apart), [parse_english]
    returns the count 0 and leaves the name at the digits, with the flags
    as the adjectives masked them: an adjective in front stays consumed.
    The residual name is a suffix of the phrase and holds the malformed
    token; the flags differ from the original ones in scope flags only;
    and the residual name is the phrase itself exactly when the phrase
    starts with the digits, in which case the flags are the original ones
    too. *)
Theorem parse_english_malformed_count
  (name : string) (flags : Z) (name1 : string) (flags1 : Z)
  (digits suffix tail : string) :
  restriction_adjectives name flags = (name1, flags1) ->
  name1 = String.append digits (String.append suffix tail) ->
  digits <> EmptyString -> all_digits digits = true ->
  numeral digits < 2 ^ 31 ->
  digit_first suffix = false -> no_blank suffix = true ->
  (tail = EmptyString
   \/ exists rest,
       tail = String " "%char rest
       /\ (numeral digits < 1
           \/ strcasecmp suffix (ordinal_suffix (numeral digits)) <> 0)) ->
  parse_english name flags = (0, name1, flags1)
  /\ is_suffix name1 name
  /\ (forall b, Z.land b scope_mask = 0 -> has flags1 b = has flags b)
  /\ (forall b, has flags b = false -> has flags1 b = false)
  /\ (name1 = name <-> digit_first name = true)
  /\ (digit_first name = true -> flags1 = flags).
Proof.
  intros R E NE AD V DF NB M.
  pose proof (restriction_adjectives_narrows name flags) as N.
  rewrite R in N. destruct N as (N1 & N2 & N3). cbn [fst snd] in *.
  assert (P : exists c q, name1 = String c q /\ isdigit c = true).
  { rewrite E. destruct digits as [| c q]; [contradiction |].
    cbn [all_digits] in AD. apply andb_true_iff in AD.
    cbn [String.append]. eexists _, _. split; [reflexivity | apply AD]. }
  destruct P as (c & q & P & DC).
  assert (K : match split_blank name1 with
              | None => True
              | Some (tok, _) => count_adjective tok < 0
              end).
  { rewrite E. destruct M as [-> | (rest & -> & M)].
    - rewrite split_blank_none; [exact I |].
      rewrite !no_blank_app, NB, (all_digits_no_blank _ AD). reflexivity.
    - rewrite <- string_append_assoc, split_blank_app
        by (rewrite no_blank_app, NB, (all_digits_no_blank _ AD);
            reflexivity).
      rewrite (count_adjective_digits _ _ AD V DF).
      destruct M as [M | M].
      + replace (1 <=? numeral digits) with false
          by (symmetry; apply Z.leb_gt; lia).
        cbn [andb]. lia.
      + apply Z.eqb_neq in M. rewrite M, andb_false_r. lia. }
  assert (I1 : digit_first name = true -> name1 = name /\ flags1 = flags).
  { intros F. destruct name as [| c0 r0]; [discriminate |].
    cbn [digit_first] in F.
    rewrite digit_first_no_adjective in R by assumption.
    split; congruence. }
  split; [| split; [exact N1 | split; [exact N2 | split; [exact N3 |]]]].
  - unfold parse_english. cbv zeta. rewrite R.
    rewrite P in K |- *. rewrite DC. cbn [negb].
    destruct (split_blank (String c q)) as [[tok rest] |]; [| reflexivity].
    apply Z.ltb_lt in K. rewrite K. reflexivity.
  - split; [split |].
    + intros <-. rewrite P. exact DC.
    + intros F. apply (I1 F).
    + intros F. apply (I1 F).
Qed.

(* ================================================================= *)
(** ** The absolute reference as a candidate *)

Lemma loop_same_query (l : list dbref) (mc : match_context) :
  same_query mc (match_obj_loop w l mc).
Proof.
  revert mc. induction l as [| x l IH]; intros mc;
    [apply same_query_refl |].
  cbn [match_obj_loop].
  pose proof (body_same_query (set_match x mc)) as Q.
  destruct (match_obj_body w (set_match x mc)) as [brk m1]. cbn [snd] in Q.
  assert (Q1 : same_query mc m1)
    by (eapply same_query_trans;
        [apply (same_query_set_match mc x) | exact Q]).
  destruct brk; [exact Q1 |].
  eapply same_query_trans; [exact Q1 | apply IH].
Qed.

(** The traversal of a list in two parts: the second part is evaluated
    from the state that the first part leaves, unless the first part ended
    the search. *)
Lemma loop_app (pre post : list dbref) (mc : match_context) :
  mc_done mc = false ->
  match_obj_loop w (pre ++ post) mc
  = if mc_done (match_obj_loop w pre mc) then match_obj_loop w pre mc
    else match_obj_loop w post (match_obj_loop w pre mc).
Proof.
  revert mc. induction pre as [| x pre IH]; intros mc D.
  - cbn [app match_obj_loop]. rewrite D. reflexivity.
  - cbn [app match_obj_loop].
    pose proof (body_break_iff_done (set_match x mc) D) as B.
    destruct (match_obj_body w (set_match x mc)) as [brk m1].
    cbn [fst snd] in B. destruct brk.
    + rewrite <- B. reflexivity.
    + apply IH. symmetry. exact B.
Qed.

(** What [matched] leaves when the tie-breaker keeps the previous best:
    nothing is counted. *)
Lemma matched_dropped (full : bool) (mc : match_context) :
  MATCH_CONTROLS w mc = true -> mc_final mc = 0 ->
  BEST_MATCH w mc <> mc_match mc ->
  let mc' := snd (matched w full mc) in
  mc_exact mc' = mc_exact mc /\ mc_bestmatch mc' = mc_bestmatch mc
  /\ mc_curr mc' = mc_curr mc /\ mc_right_type mc' = mc_right_type mc.
Proof.
  intros C F B. cbv zeta. unfold matched. rewrite C, F.
  cbn [negb Z.eqb]. fields.
  apply Z.eqb_neq in B. rewrite B. cbn [negb]. fields.
  repeat split.
  apply Z.eqb_neq in B.
  unfold BEST_MATCH in *.
  destruct (choose_thing_either (mc_who mc) (mc_type mc) (mc_flags mc)
              (mc_bestmatch mc) (mc_match mc)) as [E | E];
    [exact E | contradiction].
Qed.

(** C10, as the code has it.  In the traversal of a list of candidates
    that has reached a candidate which is the absolute reference of the
    text and passes the type check, the candidate goes to [matched] as a
    full match, whatever its name, the interaction predicate and
    [MAT_EXACT] say; the rest of the list is evaluated from the state that
    [matched] leaves.  This is so in an object list and in a proxy list
    alike.  What [matched] then does is what it does with every match:
    when the requester passes the control check, the candidate is
    recorded as an exact match if the tie-breaker keeps it (no ordinal
    target) or advances the ordinal counter (ordinal target); when the
    requester fails the control check, the no-control latch is set and
    nothing is counted; and when the tie-breaker keeps the previous best,
    nothing is counted either. *)
Theorem absolute_candidate_is_exact
  (m0 : match_context) (pre post : list dbref) (x : dbref) :
  mc_done m0 = false ->
  mc_abs m0 = x ->
  type_admits w (mc_type m0) (mc_flags m0) x = true ->
  let m := match_obj_loop w pre m0 in
  let m' := snd (matched w true (set_match x m)) in
  let rest := if mc_done m' then m' else match_obj_loop w post m' in
  mc_done m = false ->
  match_obj_loop w (pre ++ x :: post) m0 = rest
  /\ (forall start mc,
      mc_done mc = false -> set_match start mc = m0 ->
      DOLIST w start = (pre ++ x :: post)%list ->
      match_obj_list w start mc = (2, rest))
  /\ (forall obj,
      proxy_candidates w (generic_attrs w obj) = (pre ++ x :: post)%list ->
      match_attr_list w obj m0 = (mc_done rest, rest))
  /\ (MATCH_CONTROLS w (set_match x m) = true -> mc_final m0 = 0 ->
      BEST_MATCH w (set_match x m) = x ->
      mc_exact m' = true /\ mc_bestmatch m' = x
      /\ mc_curr m' = if mc_exact m then mc_curr m + 1 else 1)
  /\ (MATCH_CONTROLS w (set_match x m) = true -> mc_final m0 <> 0 ->
      mc_curr m' = mc_curr m + 1)
  /\ (MATCH_CONTROLS w (set_match x m) = false ->
      m' = set_nocontrol (set_match x m))
  /\ (MATCH_CONTROLS w (set_match x m) = true -> mc_final m0 = 0 ->
      BEST_MATCH w (set_match x m) <> x ->
      mc_exact m' = mc_exact m /\ mc_bestmatch m' = mc_bestmatch m
      /\ mc_curr m' = mc_curr m).
Proof.
  intros D0 A T m m' rest D.
  pose proof (loop_same_query pre m0) as Q. fold m in Q.
  destruct Q as (QA & _ & _ & QF & QT & QN & _).
  assert (B : match_obj_body w (set_match x m)
              = matched w true (set_match x m)).
  { pose proof (MATCH_TYPE_admits (set_match x m)) as MT.
    assert (E1 : type_admits w (mc_type (set_match x m))
                   (mc_flags (set_match x m)) (mc_match (set_match x m))
                 = true).
    { change (type_admits w (mc_type m) (mc_flags m) x = true).
      rewrite <- QT, <- QF. exact T. }
    rewrite E1 in MT. unfold truthy in MT. apply negb_true_iff in MT.
    unfold match_obj_body. rewrite MT.
    change (mc_match (set_match x m)) with x.
    change (mc_abs (set_match x m)) with (mc_abs m).
    rewrite <- QA, A, Z.eqb_refl. reflexivity. }
  assert (L : match_obj_loop w (pre ++ x :: post) m0 = rest).
  { rewrite (loop_app pre (x :: post) m0 D0). fold m. rewrite D.
    cbn [match_obj_loop]. rewrite B.
    pose proof (matched_break_iff_done true (set_match x m) D) as K.
    subst rest m'.
    destruct (matched w true (set_match x m)) as [brk m1].
    cbn [fst snd] in *. rewrite <- K.
    destruct brk; reflexivity. }
  split; [exact L |]. split; [| split].
  - intros start mc Dm E DL. unfold match_obj_list. rewrite Dm, E, DL, L.
    reflexivity.
  - intros obj PL. unfold match_attr_list. rewrite D0.
    pose proof (atr_iter_as_loop (generic_attrs w obj) m0 D0) as E.
    rewrite PL, L in E.
    destruct (atr_iter w (generic_attrs w obj) m0) as [n m1].
    cbn [snd] in E. rewrite E. destruct (mc_done rest); reflexivity.
  - assert (F : mc_final (set_match x m) = mc_final m0)
      by (symmetry; exact QN).
    split; [| split; [| split]].
    + intros C F0 BM. rewrite <- F in F0.
      destruct (matched_recorded true (set_match x m) C F0 BM)
        as (_ & R1 & R2 & R3 & _).
      fields. cbn [orb andb] in *. fold m' in R1, R2, R3.
      rewrite R1, R2, R3. destruct (mc_exact m); auto.
    + intros C F0. rewrite <- F in F0.
      apply (matched_counted true (set_match x m) C F0).
    + intros C. unfold m', matched. rewrite C. reflexivity.
    + intros C F0 BM. rewrite <- F in F0.
      destruct (matched_dropped true (set_match x m) C F0 BM)
        as (R1 & R2 & R3 & _).
      auto.
Qed.

(* ================================================================= *)
(** ** The matches on record *)

(** The evaluation of one candidate without an ordinal target, in terms
    of what the tie-breaker says: a full match restarts the count when it
    is the first one, a partial match is added while no full match is
    latched, and a candidate that the tie-breaker does not keep leaves
    the best match and the counters alone. *)
Lemma body_general (m : match_context) (x : dbref) :
  mc_final m = 0 ->
  let m' := snd (match_obj_body w (set_match x m)) in
  let kept :=
    choose_thing w (mc_who m) (mc_type m) (mc_flags m) (mc_bestmatch m) x
    =? x in
  let counted := if of_preferred_type w (mc_type m) x then 1 else 0 in
  let unchanged :=
    mc_bestmatch m' = mc_bestmatch m /\ mc_exact m' = mc_exact m
    /\ mc_curr m' = mc_curr m /\ mc_right_type m' = mc_right_type m in
  if exact_accepted w m x then
    if kept then
      mc_bestmatch m' = x /\ mc_exact m' = true
      /\ mc_curr m' = (if mc_exact m then mc_curr m + 1 else 1)
      /\ mc_right_type m'
         = (if mc_exact m then mc_right_type m else 0) + counted
    else unchanged
  else if partial_accepted w m x
          && (negb (mc_exact m) || negb (GoodObject w (mc_bestmatch m)))
  then
    if kept then
      mc_bestmatch m' = x /\ mc_exact m' = mc_exact m
      /\ mc_curr m' = mc_curr m + 1
      /\ mc_right_type m' = mc_right_type m + counted
    else unchanged
  else unchanged.
Proof.
  intros F. cbv zeta.
  set (mx := set_match x m).
  assert (HT : (MATCH_TYPE w mx =? 0)
               = negb (type_admits w (mc_type m) (mc_flags m) x)).
  { unfold MATCH_TYPE, type_admits, mx. fields.
    destruct (truthy (Z.land (mc_type m) (Typeof w x))); [reflexivity |].
    destruct (has (mc_flags m) MAT_TYPE); reflexivity. }
  assert (HB : BEST_MATCH w mx
               = choose_thing w (mc_who m) (mc_type m) (mc_flags m)
                   (mc_bestmatch m) x) by reflexivity.
  assert (REC : forall full,
             MATCH_CONTROLS w mx = true ->
             if BEST_MATCH w mx =? x then
               mc_bestmatch (snd (matched w full mx)) = x
               /\ mc_exact (snd (matched w full mx)) = full || mc_exact m
               /\ mc_curr (snd (matched w full mx))
                  = (if full && negb (mc_exact m) then 1 else mc_curr m + 1)
               /\ mc_right_type (snd (matched w full mx))
                  = (if full && negb (mc_exact m) then 0
                     else mc_right_type m)
                    + (if of_preferred_type w (mc_type m) x then 1 else 0)
             else
               mc_bestmatch (snd (matched w full mx)) = mc_bestmatch m
               /\ mc_exact (snd (matched w full mx)) = mc_exact m
               /\ mc_curr (snd (matched w full mx)) = mc_curr m
               /\ mc_right_type (snd (matched w full mx))
                  = mc_right_type m).
  { intros full C.
    destruct (Z.eqb_spec (BEST_MATCH w mx) x) as [B | B].
    - destruct (matched_recorded full mx C F B) as (_ & R1 & R2 & R3 & R4).
      auto.
    - destruct (matched_dropped full mx C F B) as (R1 & R2 & R3 & R4).
      auto. }
  assert (NOC : forall full,
             MATCH_CONTROLS w mx = false ->
             snd (matched w full mx) = set_nocontrol mx).
  { intros full C. unfold matched. rewrite C. reflexivity. }
  rewrite <- HB.
  unfold match_obj_body, exact_accepted, partial_accepted.
  fold mx. rewrite HT.
  replace (partial_name w mx)
    with (partial_text w m x
          && (negb (mc_exact m) || negb (GoodObject w (mc_bestmatch m))))
    by (symmetry; apply partial_name_text).
  change (mc_match mx) with x. change (mc_abs mx) with (mc_abs m).
  change (mc_who mx) with (mc_who m).
  destruct (type_admits w (mc_type m) (mc_flags m) x);
    cbn [negb andb orb fst snd]; [| repeat split].
  destruct (negb (has (mc_flags m) MAT_CONTROL) || controls w (mc_who m) x)
    eqn:C; cbn [negb andb orb fst snd].
  - destruct (x =? mc_abs m); cbn [negb andb orb fst snd].
    + pose proof (REC true C) as R.
      destruct (BEST_MATCH w mx =? x); [| exact R].
      destruct R as (R1 & R2 & R3 & R4). rewrite R1, R2, R3, R4.
      destruct (mc_exact m); cbn [negb andb orb]; repeat split.
    + destruct (can_interact_match w x (mc_who m));
        cbn [negb andb orb fst snd]; [| repeat split].
      destruct (exact_name w mx); cbn [negb andb orb fst snd].
      * pose proof (REC true C) as R.
        destruct (BEST_MATCH w mx =? x); [| exact R].
        destruct R as (R1 & R2 & R3 & R4). rewrite R1, R2, R3, R4.
        destruct (mc_exact m); cbn [negb andb orb]; repeat split.
      * destruct (partial_text w m x
                  && (negb (mc_exact m)
                      || negb (GoodObject w (mc_bestmatch m)))) eqn:PA.
        -- pose proof (REC false C) as R.
           destruct (BEST_MATCH w mx =? x); [| exact R].
           cbn [andb orb] in R. exact R.
        -- repeat split.
  - destruct (x =? mc_abs m); cbn [negb andb orb fst snd];
      [rewrite (NOC true C); repeat split |].
    destruct (can_interact_match w x (mc_who m));
      cbn [negb andb orb fst snd]; [| repeat split].
    destruct (exact_name w mx); cbn [negb andb orb fst snd];
      [rewrite (NOC true C); repeat split |].
    destruct (partial_text w m x
              && (negb (mc_exact m)
                  || negb (GoodObject w (mc_bestmatch m))));
      [rewrite (NOC false C) |]; repeat split.
Qed.

Lemma fold_enter_invariant (I : ledger -> Prop) (q : match_context) :
  (forall led x, I led -> I (enter w q led x)) ->
  forall l led, I led -> I (fold_left (enter w q) l led).
Proof.
  intros S l. induction l as [| x l IH]; intros led H; [exact H |].
  cbn [fold_left]. apply IH, S, H.
Qed.

(** The current best of a record that is not empty is its last entry. *)
Lemma ledger_best (q : match_context) (l : list dbref) (d : dbref) :
  l_recorded (ledger_of w q l) <> [] ->
  l_best (ledger_of w q l) = last (l_recorded (ledger_of w q l)) d.
Proof.
  unfold ledger_of.
  apply (fold_enter_invariant
           (fun led => l_recorded led <> [] ->
                       l_best led = last (l_recorded led) d)).
  - intros led x H. unfold enter. cbv zeta.
    repeat match goal with
           | |- context [if ?c then _ else _] => destruct c
           end; cbn [l_best l_recorded]; try exact H; intros _;
      try (rewrite last_last); reflexivity.
  - cbn. intros N. contradiction.
Qed.

(** The state after the general search is the record of the matches of
    the visited pools: the best match, the exact latch, the match count
    and the preferred-type counter are the current best of the record,
    its latch, its length and the number of its entries of the preferred
    type. *)
Lemma search_ledger (where_ : dbref) (type : Z) (mc1 : match_context) :
  mc_final mc1 = 0 -> mc_curr mc1 = 0 -> mc_exact mc1 = false ->
  mc_done mc1 = false -> mc_right_type mc1 = 0 ->
  let mc := search w where_ type mc1 in
  let led := ledger_of w mc1 (all_candidates w where_ type mc1) in
  mc_bestmatch mc = l_best led /\ mc_exact mc = l_exact led
  /\ mc_curr mc = Z.of_nat (List.length (l_recorded led))
  /\ mc_right_type mc
     = Z.of_nat (List.length
                   (filter (of_preferred_type w (mc_type mc1))
                      (l_recorded led))).
Proof.
  intros F C0 E0 D0 R0. cbv zeta. unfold all_candidates.
  rewrite search_as_plan.
  set (P := fun (l : list dbref) (m : match_context) =>
              same_query mc1 m /\ mc_done m = false
              /\ mc_bestmatch m = l_best (ledger_of w mc1 l)
              /\ mc_exact m = l_exact (ledger_of w mc1 l)
              /\ mc_curr m
                 = Z.of_nat (List.length (l_recorded (ledger_of w mc1 l)))
              /\ mc_right_type m
                 = Z.of_nat
                     (List.length
                        (filter (of_preferred_type w (mc_type mc1))
                           (l_recorded (ledger_of w mc1 l))))).
  assert (H : P ([] ++ flat_map (pool_candidates w)
                   (search_plan w where_ (location_of w where_) type
                      (mc_flags mc1)))%list
                (run_pools w
                   (search_plan w where_ (location_of w where_) type
                      (mc_flags mc1)) mc1)).
  { apply scan_pools; unfold P.
    - intros l m x (Q & H). split; [| fields; exact H].
      eapply same_query_trans; [eassumption |].
      apply (same_query_set_match m x).
    - intros l m x G D (Q & _ & B & E & C & R).
      assert (Q' := Q).
      destruct Q' as (_ & QW & _ & QF & QT & QN & _).
      assert (Fm : mc_final m = 0) by congruence.
      split.
      { eapply same_query_trans; [eassumption |].
        eapply same_query_trans; [apply (same_query_set_match m x) |].
        apply body_same_query. }
      destruct (body_unranked m x Fm) as (Dn & _).
      split; [congruence |].
      pose proof (body_general m x Fm) as K. cbv zeta in K.
      destruct (accepted_query _ _ x Q) as (AE & AP).
      rewrite <- AE, <- AP, <- QW, <- QT, <- QF, B, E in K.
      unfold ledger_of at 1 2 3 4. rewrite fold_left_app. cbn [fold_left].
      fold (ledger_of w mc1 l).
      set (led := ledger_of w mc1 l) in *.
      unfold enter. cbv zeta.
      destruct (exact_accepted w mc1 x).
      + destruct (choose_thing w (mc_who mc1) (mc_type mc1) (mc_flags mc1)
                    (l_best led) x =? x);
          [| cbn [l_best l_exact l_recorded]; intuition congruence].
        destruct K as (K1 & K2 & K3 & K4).
        cbn [l_best l_exact l_recorded]. rewrite K1, K2, K3, K4.
        split; [reflexivity |]. split; [reflexivity |].
        destruct (l_exact led).
        * rewrite filter_app, !length_app. cbn [filter List.length].
          destruct (of_preferred_type w (mc_type mc1) x);
            cbn [List.length]; split; lia.
        * cbn [filter List.length].
          destruct (of_preferred_type w (mc_type mc1) x);
            cbn [List.length]; split; lia.
      + destruct (partial_accepted w mc1 x
                  && (negb (l_exact led)
                      || negb (GoodObject w (l_best led))));
          [| cbn [l_best l_exact l_recorded]; intuition congruence].
        destruct (choose_thing w (mc_who mc1) (mc_type mc1) (mc_flags mc1)
                    (l_best led) x =? x);
          [| cbn [l_best l_exact l_recorded]; intuition congruence].
        destruct K as (K1 & K2 & K3 & K4).
        cbn [l_best l_exact l_recorded]. rewrite K1, K2, K3, K4.
        split; [reflexivity |]. split; [reflexivity |].
        rewrite filter_app, !length_app. cbn [filter List.length].
        destruct (of_preferred_type w (mc_type mc1) x);
          cbn [List.length]; split; lia.
    - intros l m x D (_ & D' & _). congruence.
    - split; [apply same_query_refl |]. cbn. auto. }
  destruct H as (_ & _ & H). exact H.
Qed.

(** C3.  In a call that reaches the general search without an ordinal
    target, the match count and the preferred-type counter are the number
    of the recorded matches and the number of those whose type intersects
    the type filter.  When more than one match is on record, the result
    is [AMBIGUOUS], unless exactly one recorded match has a type that
    intersects the filter or the caller asked for the last match
    ([MAT_LAST]): then the result is the current best, the match that was
    recorded last.  In the first of the two cases the current best is that
    one recorded match of the preferred type, and it is a live entity. *)
Theorem ambiguous_unless_preferred_or_last
  (who where_ : dbref) (xname : string) (type flags : Z)
  (mc0 : match_context) :
  shortcuts w who where_ xname type flags = inr mc0 ->
  let mc1 := search_start xname flags mc0 in
  let mc := search w where_ type mc1 in
  let led := ledger_of w mc1 (all_candidates w where_ type mc1) in
  let recorded := l_recorded led in
  let preferred := filter (of_preferred_type w type) recorded in
  let r := fst (match_result_internal w who where_ xname type flags) in
  mc_final mc1 = 0 ->
  (1 < List.length recorded)%nat ->
  mc_curr mc = Z.of_nat (List.length recorded)
  /\ mc_right_type mc = Z.of_nat (List.length preferred)
  /\ mc_bestmatch mc = l_best led
  /\ l_best led = last recorded NOTHING
  /\ r = (if (List.length preferred =? 1)%nat || has flags MAT_LAST
          then l_best led else AMBIGUOUS)
  /\ (List.length preferred = 1%nat ->
      preferred = [r] /\ GoodObject w r = true).
Proof.
  intros S mc1 mc led recorded preferred r F N.
  pose proof (shortcuts_fresh _ _ _ _ _ _ S) as FR.
  destruct (search_start_fields xname flags mc0)
    as (_ & _ & _ & _ & _ & _ & TY & CU & RT & EX & DO & _).
  fold mc1 in TY, CU, RT, EX, DO.
  destruct FR as (_ & _ & _ & _ & T0 & _ & C0 & R0 & E0 & D0 & _).
  destruct (search_ledger where_ type mc1) as (LB & _ & LC & LR);
    try congruence.
  fold mc in LB, LC, LR. fold led in LB, LC, LR.
  fold recorded in LC, LR.
  rewrite TY, T0 in LR. fold preferred in LR.
  assert (Fm : mc_final mc = 0).
  { destruct (search_same_query where_ type mc1)
      as (_ & _ & _ & _ & _ & Q & _). fold mc in Q. congruence. }
  assert (Cm : 1 < mc_curr mc) by (rewrite LC; lia).
  pose proof (classified_by_counters who where_ xname type flags mc0 S Fm Cm)
    as K.
  cbv zeta in K.
  change (search w where_ type (search_start xname flags mc0)) with mc in K.
  change (fst (match_result_internal w who where_ xname type flags))
    with r in K.
  destruct K as (K1 & K2).
  assert (NE : recorded <> [])
    by (intros E; rewrite E in N; cbn in N; lia).
  assert (LL : l_best led = last recorded NOTHING)
    by (apply ledger_best; exact NE).
  assert (E1 : (mc_right_type mc =? 1) = (List.length preferred =? 1)%nat).
  { rewrite LR.
    destruct (Nat.eqb_spec (List.length preferred) 1) as [E | E].
    - rewrite E. reflexivity.
    - apply Z.eqb_neq. lia. }
  split; [exact LC |]. split; [exact LR |]. split; [exact LB |].
  split; [exact LL |].
  split; [rewrite K1, E1, LB; reflexivity |].
  intros P1.
  assert (R1 : mc_right_type mc = 1) by (rewrite LR, P1; reflexivity).
  destruct (K2 R1) as (Rb & G & Pr).
  split; [| exact G].
  assert (IN : In r preferred).
  { unfold preferred. apply filter_In. split; [| exact Pr].
    rewrite Rb, LB, LL.
    destruct (exists_last NE) as (l' & a & E). rewrite E, last_last.
    apply in_or_app. right. left. reflexivity. }
  destruct preferred as [| a [| b t]]; [discriminate | | discriminate].
  destruct IN as [<- | []]. reflexivity.
Qed.

End Properties.

(* ================================================================= *)
(** * The properties at work on the small database *)

Import Demo.

(** C1 at work: Alice looks for "apple" while carrying "apple pie" and
    "apple"; the partial match on the pie is met first and counted, then
    the exact match on the apple is latched, the count restarts at 1, the
    partial-name test is closed, and the result is an exact candidate. *)
Lemma exact_match_precedence_witness :
  let mc1 := search_start "apple" english
               (start plain 1 1 "apple" NOTYPE english) in
  let pie := snd (match_obj_body plain (set_match 3 mc1)) in
  let apple := snd (matched plain true (set_match 2 pie)) in
  let r := fst (match_result_internal plain 1 1 "apple" NOTYPE english) in
  (r = AMBIGUOUS
   \/ (GoodObject plain r = true /\ exact_candidate plain mc1 r = true))
  /\ r = 2
  /\ (mc_exact pie = false /\ mc_bestmatch pie = 3 /\ mc_curr pie = 1)
  /\ (mc_exact apple = true /\ mc_bestmatch apple = 2
      /\ mc_curr apple = 1 /\ mc_right_type apple = 0)
  /\ partial_name plain (set_match 3 apple) = false.
Proof.
  cbv zeta.
  assert (S : shortcuts plain 1 1 "apple" NOTYPE english
              = inr (start plain 1 1 "apple" NOTYPE english))
    by (vm_compute; reflexivity).
  pose proof (exact_match_precedence plain 1 1 "apple" NOTYPE english _ S)
    as T.
  cbv zeta in T.
  assert (F : mc_final (search_start "apple" english
                          (start plain 1 1 "apple" NOTYPE english)) = 0)
    by (vm_compute; reflexivity).
  destruct (T F) as (T1 & T2 & T3).
  split; [apply T1; vm_compute; reflexivity |].
  split; [vm_compute; reflexivity |].
  split; [vm_compute; repeat split |].
  split; [apply T3; vm_compute; reflexivity |].
  apply T2; vm_compute; reflexivity.
Defined.

(** C2 at work: "2nd coin" selects the second of Alice's two coins, and
    "3rd coin" finds nothing. *)
Lemma ordinal_selects_kth_witness :
  fst (match_result_internal plain 1 1 "2nd coin" NOTYPE english) = 8
  /\ fst (match_result_internal plain 1 1 "3rd coin" NOTYPE english)
     = NOTHING.
Proof.
  split.
  - assert (S : shortcuts plain 1 1 "2nd coin" NOTYPE english
                = inr (start plain 1 1 "2nd coin" NOTYPE english))
      by (vm_compute; reflexivity).
    pose proof (ordinal_selects_kth plain 1 1 "2nd coin" NOTYPE english _ S)
      as T.
    cbv zeta in T.
    assert (K : 1 <= mc_final (search_start "2nd coin" english
                                 (start plain 1 1 "2nd coin" NOTYPE english)))
      by (vm_compute; discriminate).
    destruct (T K) as [T1 _].
    destruct T1 as [R _]; [vm_compute; discriminate |].
    rewrite R. vm_compute. reflexivity.
  - assert (S : shortcuts plain 1 1 "3rd coin" NOTYPE english
                = inr (start plain 1 1 "3rd coin" NOTYPE english))
      by (vm_compute; reflexivity).
    pose proof (ordinal_selects_kth plain 1 1 "3rd coin" NOTYPE english _ S)
      as T.
    cbv zeta in T.
    assert (K : 1 <= mc_final (search_start "3rd coin" english
                                 (start plain 1 1 "3rd coin" NOTYPE english)))
      by (vm_compute; discriminate).
    destruct (T K) as [_ T2].
    destruct T2 as [R _]; [vm_compute; reflexivity |].
    exact R.
Defined.

(** C3 at work: two exits of the Hall are called "north", and both are
    on record; of the two neighbors on record for "ali", only Alice is a
    player, and she wins; and the two coins on record for "coin" are both
    things, so that the preference for things decides nothing. *)
Lemma ambiguous_unless_preferred_or_last_witness :
  fst (match_result_internal plain 1 1 "north" NOTYPE english) = AMBIGUOUS
  /\ fst (match_result_internal plain 1 1 "ali" TYPE_PLAYER english) = 1
  /\ fst (match_result_internal plain 1 1 "coin" TYPE_THING english)
     = AMBIGUOUS
  /\ l_recorded
       (ledger_of plain
          (search_start "coin" english
             (start plain 1 1 "coin" TYPE_THING english))
          (all_candidates plain 1 TYPE_THING
             (search_start "coin" english
                (start plain 1 1 "coin" TYPE_THING english))))
     = [7; 8].
Proof.
  split; [| split; [| split]].
  - assert (S : shortcuts plain 1 1 "north" NOTYPE english
                = inr (start plain 1 1 "north" NOTYPE english))
      by (vm_compute; reflexivity).
    pose proof (ambiguous_unless_preferred_or_last plain 1 1 "north" NOTYPE
                  english _ S) as T.
    cbv zeta in T.
    destruct T as (_ & _ & _ & _ & T & _);
      [vm_compute; reflexivity | vm_compute; lia |].
    rewrite T. vm_compute. reflexivity.
  - assert (S : shortcuts plain 1 1 "ali" TYPE_PLAYER english
                = inr (start plain 1 1 "ali" TYPE_PLAYER english))
      by (vm_compute; reflexivity).
    pose proof (ambiguous_unless_preferred_or_last plain 1 1 "ali"
                  TYPE_PLAYER english _ S) as T.
    cbv zeta in T.
    destruct T as (_ & _ & _ & _ & T & _);
      [vm_compute; reflexivity | vm_compute; lia |].
    rewrite T. vm_compute. reflexivity.
  - assert (S : shortcuts plain 1 1 "coin" TYPE_THING english
                = inr (start plain 1 1 "coin" TYPE_THING english))
      by (vm_compute; reflexivity).
    pose proof (ambiguous_unless_preferred_or_last plain 1 1 "coin"
                  TYPE_THING english _ S) as T.
    cbv zeta in T.
    destruct T as (_ & _ & _ & _ & T & _);
      [vm_compute; reflexivity | vm_compute; lia |].
    rewrite T. vm_compute. reflexivity.
  - vm_compute. reflexivity.
Defined.

(** The first rule outside the pairs that the tie-breaker is given: for
    two different invalid references of which none is [NOTHING], the code
    keeps the first and the rule of the specification names the second.
    No caller of [choose_thing] passes such a pair. *)
Lemma choose_thing_ungiven_pair :
  GoodObject plain AMBIGUOUS = false
  /\ GoodObject plain (-3) = false
  /\ choose_thing plain 1 NOTYPE 0 AMBIGUOUS (-3) = AMBIGUOUS
  /\ claimed_choice_of_invalid AMBIGUOUS (-3) = -3.
Proof.
  repeat split; vm_compute; congruence.
Qed.

(** C4 at work, one case per rule. *)
Lemma choose_thing_order_witness :
  choose_thing plain 1 NOTYPE 0 AMBIGUOUS NOTHING = AMBIGUOUS
  /\ choose_thing plain 1 NOTYPE 0 NOTHING AMBIGUOUS = AMBIGUOUS
  /\ choose_thing plain 1 NOTYPE 0 2 NOTHING = 2
  /\ choose_thing plain 1 TYPE_THING 0 2 4 = 2
  /\ choose_thing plain 1 NOTYPE MAT_CHECK_KEYS 2 3 = 3.
Proof.
  pose proof (choose_thing_order plain 1 NOTYPE 0 AMBIGUOUS NOTHING) as T1.
  pose proof (choose_thing_order plain 1 NOTYPE 0 NOTHING AMBIGUOUS) as T2.
  pose proof (choose_thing_order plain 1 NOTYPE 0 2 NOTHING) as T3.
  pose proof (choose_thing_order plain 1 TYPE_THING 0 2 4) as T4.
  pose proof (choose_thing_order plain 1 NOTYPE MAT_CHECK_KEYS 2 3) as T5.
  cbv zeta in *.
  destruct T1 as (T1 & _), T2 as (T2 & _), T3 as (_ & T3 & _),
           T4 as (_ & _ & _ & T4 & _), T5 as (_ & _ & _ & T5 & _).
  split; [rewrite T1; [reflexivity | reflexivity | reflexivity | auto] |].
  split; [rewrite T2; [reflexivity | reflexivity | reflexivity | auto] |].
  split; [apply T3; reflexivity |].
  split.
  - destruct (T4 eq_refl eq_refl) as (T & _). apply T; reflexivity.
  - destruct (T5 eq_refl eq_refl) as (_ & _ & T).
    destruct (T eq_refl) as (_ & _ & T'). apply T'. reflexivity.
Defined.
(** C5: behind a restriction adjective the malformed count does not
    bring the adjective back.  For "my 0th sword" and for "my 2nd" the
    count is 0, but the residual name starts behind "my " and the flags
    stay masked; the specification has both reset to the original. *)
Lemma parse_english_adjective_stays_consumed :
  let flags := Z.lor (Z.lor MAT_NEIGHBOR MAT_POSSESSION) MAT_EXIT in
  parse_english "my 0th sword" flags = (0, "0th sword", MAT_POSSESSION)
  /\ parse_english "my 0th sword" flags <> (0, "my 0th sword", flags)
  /\ parse_english "my 2nd" flags = (0, "2nd", MAT_POSSESSION)
  /\ parse_english "my 2nd" flags <> (0, "my 2nd", flags).
Proof.
  repeat split; vm_compute; congruence.
Qed.

(** C5 at work: "12nd sword" is matched literally; so is "0th sword"
    behind "my ", with the flags of "my"; and "2nd" without a blank behind
    it is no count. *)
Lemma parse_english_malformed_count_witness :
  parse_english "12nd sword" english = (0, "12nd sword", english)
  /\ parse_english "my 0th sword" english
     = (0, "0th sword",
        clear english
          (Z.lor (Z.lor (Z.lor MAT_NEIGHBOR MAT_EXIT) MAT_CONTAINER)
                 MAT_REMOTE_CONTENTS))
  /\ parse_english "my 2nd" english
     = (0, "2nd",
        clear english
          (Z.lor (Z.lor (Z.lor MAT_NEIGHBOR MAT_EXIT) MAT_CONTAINER)
                 MAT_REMOTE_CONTENTS)).
Proof.
  split; [| split].
  - pose proof (parse_english_malformed_count "12nd sword" english
                  "12nd sword" english "12" "nd" " sword") as T.
    destruct T as (T & _); [vm_compute; reflexivity | reflexivity
      | discriminate | reflexivity | vm_compute; reflexivity
      | reflexivity | reflexivity | | exact T].
    right. exists "sword". split; [reflexivity |].
    right. vm_compute. discriminate.
  - pose proof (parse_english_malformed_count "my 0th sword" english
                  "0th sword"
                  (clear english
                     (Z.lor (Z.lor (Z.lor MAT_NEIGHBOR MAT_EXIT)
                                   MAT_CONTAINER) MAT_REMOTE_CONTENTS))
                  "0" "th" " sword") as T.
    destruct T as (T & _); [vm_compute; reflexivity | reflexivity
      | discriminate | reflexivity | vm_compute; reflexivity
      | reflexivity | reflexivity | | exact T].
    right. exists "sword". split; [reflexivity |].
    left. vm_compute. reflexivity.
  - pose proof (parse_english_malformed_count "my 2nd" english
                  "2nd"
                  (clear english
                     (Z.lor (Z.lor (Z.lor MAT_NEIGHBOR MAT_EXIT)
                                   MAT_CONTAINER) MAT_REMOTE_CONTENTS))
                  "2" "nd" "") as T.
    destruct T as (T & _); [vm_compute; reflexivity | reflexivity
      | discriminate | reflexivity | vm_compute; reflexivity
      | reflexivity | reflexivity | left; reflexivity | exact T].
Defined.



(** C7.  The grammar of match.c has "my" and "me" restrict the match to
    the inventory, and so the claim has the search behind "my <name>"
    visit no exit pool.  The code misses it for the exits carried by a
    room: "my" clears [MAT_EXIT] and leaves [MAT_CARRIED_EXIT], and with
    [MAT_EXIT] cleared the gate in front of [MATCH_LIST(Exits(where))]
    opens for an anchor that is its own location.  Asked relative to the
    Hall, "my n" visits the exits of the Hall and returns the exit
    "north;n". *)
Lemma my_still_searches_carried_exits :
  let flags := Z.lor english MAT_CARRIED_EXIT in
  let flags' := snd (parse_english "my n" flags) in
  has flags MAT_POSSESSION = true
  /\ fst (parse_english "my n" flags) = (0, "n")
  /\ has flags' MAT_EXIT = false
  /\ has flags' MAT_CARRIED_EXIT = true
  /\ search_plan plain 0 (location_of plain 0) NOTYPE flags'
     = [(Possessions, 10); (PossessionProxies, 0); (CarriedExits, 4)]
  /\ IsExit plain 4 = true
  /\ fst (match_result_relative plain 1 0 "my n" NOTYPE flags) = 4.
Proof.
  repeat split; vm_compute; auto.
Qed.

(** The adjectives at work: "my apple" visits no exits of the Hall, "toward north"
    visits no possessions. *)
Lemma restriction_adjectives_exclusive_witness :
  (forall k x,
     In (k, x) (search_plan plain 1 0 NOTYPE
                  (snd (parsed_phrase "my apple" english))) ->
     k <> RoomExits /\ k <> ZoneExits /\ k <> MasterExits)
  /\ (forall k x,
        In (k, x) (search_plan plain 1 0 NOTYPE
                     (snd (parsed_phrase "toward north" english))) ->
        k <> Possessions /\ k <> PossessionProxies).
Proof.
  split.
  - pose proof (restriction_adjectives_exclusive plain "my apple" english
                  (fst (fst (parsed_phrase "my apple" english)))
                  (snd (fst (parsed_phrase "my apple" english)))
                  (snd (parsed_phrase "my apple" english))) as T.
    destruct T as (T & _).
    + vm_compute. reflexivity.
    + vm_compute. reflexivity.
    + vm_compute. discriminate.
    + destruct T as (_ & _ & T).
      * vm_compute. reflexivity.
      * vm_compute. reflexivity.
      * intros k x. apply T.
  - pose proof (restriction_adjectives_exclusive plain "toward north"
                  english
                  (fst (fst (parsed_phrase "toward north" english)))
                  (snd (fst (parsed_phrase "toward north" english)))
                  (snd (parsed_phrase "toward north" english))) as T.
    destruct T as (_ & T).
    + vm_compute. reflexivity.
    + vm_compute. reflexivity.
    + vm_compute. discriminate.
    + destruct T as (_ & T).
      * vm_compute. reflexivity.
      * vm_compute. reflexivity.
      * intros k x. apply T.
Defined.

(** C8: the Hall carries two proxies of the sword, of priorities 3 and
    7.  The code offers both to the evaluator, so "sword" is ambiguous;
    were only the proxy of the highest priority meaningful, the sword
    would be the result. *)
Lemma proxies_are_not_ranked :
  let ranked :=
    with_attrs proxied
      (fun x => highest_priority_only proxied (generic_attrs proxied x)) in
  generic_attrs ranked 0
  = [ {| AL_NAME := "GENERIC`#06"; atr_value := "7" |} ]
  /\ fst (match_result ranked 1 "sword" NOTYPE english) = 6
  /\ fst (match_result proxied 1 "sword" NOTYPE english) = AMBIGUOUS
  /\ fst (match_result proxied 1 "sword" NOTYPE english)
     <> fst (match_result ranked 1 "sword" NOTYPE english).
Proof.
  repeat split; vm_compute; congruence.
Qed.

(** C8 at work: a proxy of priority 0 is ignored, and so is a proxy of
    the apple, which carries no GENERIC flag; a proxy of the sword is
    evaluated as a member of an object list is, and the two proxies of the
    sword are evaluated alike: the proxy list of the Hall evaluates the
    sword twice. *)
Lemma proxy_enumeration_witness :
  let mc := search_start "sword" english
              (start proxied 1 1 "sword" NOTYPE english) in
  match_attr_helper proxied
    {| AL_NAME := "GENERIC`#6"; atr_value := "0" |} mc = (0, mc)
  /\ match_attr_helper proxied
       {| AL_NAME := "GENERIC`#2"; atr_value := "5" |} mc = (0, mc)
  /\ snd (match_attr_helper proxied
            {| AL_NAME := "GENERIC`#6"; atr_value := "3" |} mc)
     = snd (match_obj_body proxied (set_match 6 mc))
  /\ match_attr_helper proxied
       {| AL_NAME := "GENERIC`#06"; atr_value := "7" |} mc
     = match_attr_helper proxied
         {| AL_NAME := "GENERIC`#6"; atr_value := "3" |} mc
  /\ match_attr_list proxied 0 mc
     = (false, match_obj_loop proxied [6; 6] mc)
  /\ mc_curr (snd (match_attr_list proxied 0 mc)) = 2.
Proof.
  cbv zeta. split; [| split; [| split; [| split; [| split]]]].
  - apply (proj1 (proxy_enumeration proxied 0 _ _)).
    vm_compute. discriminate.
  - apply (proj1 (proj2 (proxy_enumeration proxied 0 _ _))).
    right. vm_compute. reflexivity.
  - apply (proj1 (proj2 (proj2
             (proxy_enumeration proxied 0
                {| AL_NAME := "GENERIC`#6"; atr_value := "3" |}
                (search_start "sword" english
                   (start proxied 1 1 "sword" NOTYPE english))))));
      vm_compute; reflexivity.
  - apply (proj1 (proj2 (proj2 (proj2 (proxy_enumeration proxied 0 _ _)))));
      vm_compute; reflexivity.
  - pose proof (proj1 (proj2 (proj2 (proj2 (proj2
                  (proxy_enumeration proxied 0
                     {| AL_NAME := "GENERIC`#6"; atr_value := "3" |}
                     (search_start "sword" english
                        (start proxied 1 1 "sword" NOTYPE english)))))))) as T.
    cbv zeta in T. rewrite T by (vm_compute; reflexivity).
    vm_compute. reflexivity.
  - vm_compute. reflexivity.
Defined.

(** C10: a candidate that is the absolute reference of the text and
    passes the type check is not counted when the requester does not
    control it and [MAT_CONTROL] is requested.  In a world where nothing
    is controlled, the sword, a proxy of the Hall, is the absolute
    reference of "#6"; the search latches the missing control, counts
    nothing and returns [NOTHING]. *)
Lemma absolute_candidate_needs_control :
  let w := world_of objects sword_attrs no no yes in
  let flags := Z.lor (Z.lor MAT_NEIGHBOR MAT_POSSESSION) MAT_CONTROL in
  let mc1 := search_start "#6" flags (start w 1 1 "#6" NOTYPE flags) in
  let mc := search w 1 NOTYPE mc1 in
  mc_abs mc1 = 6
  /\ In 6 (all_candidates w 1 NOTYPE mc1)
  /\ type_admits w NOTYPE flags 6 = true
  /\ can_interact_match w 6 1 = false
  /\ mc_exact mc = false /\ mc_curr mc = 0 /\ mc_nocontrol mc = true
  /\ fst (match_result_internal w 1 1 "#6" NOTYPE flags) = NOTHING.
Proof.
  repeat split; vm_compute; auto 12.
Qed.

(** C10 at work: in the world where nothing may be matched by name, and
    under [MAT_EXACT], the sword is still recorded as an exact match of
    the text "#6" when the proxy list of the Hall is traversed, and the
    second proxy of the sword is evaluated from the state this leaves. *)
Lemma absolute_candidate_is_exact_witness :
  let flags := Z.lor (Z.lor MAT_NEIGHBOR MAT_POSSESSION) MAT_EXACT in
  let m0 := initial_context hidden_proxied 1 1 "#6" NOTYPE flags in
  let m' := snd (matched hidden_proxied true (set_match 6 m0)) in
  can_interact_match hidden_proxied 6 1 = false
  /\ has flags MAT_EXACT = true
  /\ match_attr_list hidden_proxied 0 m0
     = (false, match_obj_loop hidden_proxied [6] m')
  /\ mc_exact m' = true /\ mc_bestmatch m' = 6 /\ mc_curr m' = 1
  /\ mc_curr (snd (match_attr_list hidden_proxied 0 m0)) = 2.
Proof.
  cbv zeta.
  pose proof (absolute_candidate_is_exact hidden_proxied
                (initial_context hidden_proxied 1 1 "#6" NOTYPE
                   (Z.lor (Z.lor MAT_NEIGHBOR MAT_POSSESSION) MAT_EXACT))
                [] [6] 6) as T.
  cbv zeta in T.
  destruct T as (_ & _ & T3 & T4 & _);
    [reflexivity | vm_compute; reflexivity | vm_compute; reflexivity
    | reflexivity |].
  split; [reflexivity |]. split; [reflexivity |].
  split; [rewrite (T3 0) by (vm_compute; reflexivity);
          vm_compute; reflexivity |].
  destruct T4 as (E & B & C); [vm_compute; reflexivity .. |].
  split; [exact E |]. split; [exact B |]. split; [exact C |].
  vm_compute. reflexivity.
Defined.
(* ================================================================= *)
(** * Further properties at work on the small database *)

(** X1 at work: the apple that Alice finds is one of the candidates of
    her search and passed the checks. *)
Lemma live_result_is_admissible_candidate_witness :
  let mc1 := search_start "apple" english
               (start plain 1 1 "apple" NOTYPE english) in
  In 2 (all_candidates plain 1 NOTYPE mc1) /\ admissible plain mc1 2 = true.
Proof.
  cbv zeta.
  assert (S : shortcuts plain 1 1 "apple" NOTYPE english
              = inr (start plain 1 1 "apple" NOTYPE english))
    by (vm_compute; reflexivity).
  pose proof (live_result_is_admissible_candidate plain 1 1 "apple" NOTYPE
                english _ S) as T.
  cbv zeta in T.
  assert (R : fst (match_result_internal plain 1 1 "apple" NOTYPE english)
              = 2) by (vm_compute; reflexivity).
  rewrite R in T. apply T. vm_compute. reflexivity.
Defined.

(** X2 at work. *)
Lemma control_is_enforced_witness :
  controls plain 1
    (fst (match_result_internal plain 1 1 "apple" NOTYPE
            (Z.lor english MAT_CONTROL))) = true.
Proof.
  apply (control_is_enforced plain 1 1 "apple" NOTYPE
           (Z.lor english MAT_CONTROL)); vm_compute; reflexivity.
Defined.

(** X4 at work: with [MAT_TYPE] and the player type, "ali" finds Alice
    and not the doll. *)
Lemma type_is_enforced_witness :
  let r := fst (match_result_internal plain 1 1 "ali" TYPE_PLAYER
                  (Z.lor english MAT_TYPE)) in
  r = 1 /\ truthy (Z.land TYPE_PLAYER (Typeof plain r)) = true.
Proof.
  cbv zeta. split; [vm_compute; reflexivity |].
  apply (type_is_enforced plain 1 1 "ali" TYPE_PLAYER
           (Z.lor english MAT_TYPE)).
  - vm_compute. reflexivity.
  - intros H. vm_compute in H. discriminate.
  - vm_compute. reflexivity.
Defined.

(** X5 at work. *)
Lemma result_is_entity_or_sentinel_witness :
  let r := fst (match_result_internal plain 1 1 "north" NOTYPE english) in
  GoodObject plain r = true \/ r = NOTHING \/ r = AMBIGUOUS.
Proof.
  apply (result_is_entity_or_sentinel plain 1 1 "north" NOTYPE english).
  right. left. vm_compute. reflexivity.
Defined.

(** X6 at work: without [MAT_NOISY] nothing is said. *)
Lemma notices_are_few_witness :
  snd (match_result_internal plain 1 1 "north" NOTYPE english) = [].
Proof.
  apply (proj2 (proj2 (notices_are_few plain 1 1 "north" NOTYPE english))).
  vm_compute. reflexivity.
Defined.

(** X7 at work: the ambiguous "north" is answered with one message. *)
Lemma noisy_match_result_notifies_witness :
  exists msg,
    snd (noisy_match_result plain 1 "north" NOTYPE english) = [(1, msg)]
    /\ (msg = WHICH_ONE \/ msg = DENIED \/ msg = CANT_SEE).
Proof.
  apply (proj2 (proj2 (noisy_match_result_notifies plain 1 "north" NOTYPE
                         english))); vm_compute; reflexivity.
Defined.

(** X8 at work: one full match was recorded for "apple". *)
Lemma unranked_result_is_live_iff_witness :
  GoodObject plain
    (fst (match_result_internal plain 1 1 "apple" NOTYPE english)) = true.
Proof.
  assert (S : shortcuts plain 1 1 "apple" NOTYPE english
              = inr (start plain 1 1 "apple" NOTYPE english))
    by (vm_compute; reflexivity).
  assert (F : mc_final (search_start "apple" english
                          (start plain 1 1 "apple" NOTYPE english)) = 0)
    by (vm_compute; reflexivity).
  pose proof (unranked_result_is_live_iff plain 1 1 "apple" NOTYPE english
                _ S F) as (T & _).
  apply T. split; [vm_compute; discriminate |].
  left. vm_compute. reflexivity.
Defined.

(** X9 at work: of the two exits called "north" the last one is kept. *)
Lemma last_match_result_keeps_best_witness :
  fst (last_match_result plain 1 "north" NOTYPE english) = 5.
Proof.
  assert (S : shortcuts plain 1 1 "north" NOTYPE (Z.lor english MAT_LAST)
              = inr (start plain 1 1 "north" NOTYPE
                       (Z.lor english MAT_LAST)))
    by (vm_compute; reflexivity).
  assert (F : mc_final (search_start "north" (Z.lor english MAT_LAST)
                          (start plain 1 1 "north" NOTYPE
                             (Z.lor english MAT_LAST))) = 0)
    by (vm_compute; reflexivity).
  pose proof (last_match_result_keeps_best plain 1 "north" NOTYPE english
                _ S F) as (T & _).
  rewrite T. vm_compute. reflexivity.
Defined.

(** X10 at work: the full match on the apple beats the partial match on
    the pie, and the two exits called "north" are ambiguous. *)
Lemma match_decisions_witness :
  fst (match_result_internal plain 1 1 "apple" NOTYPE english) = 2
  /\ fst (match_result_internal plain 1 1 "north" NOTYPE english)
     = AMBIGUOUS.
Proof.
  split.
  - assert (S : shortcuts plain 1 1 "apple" NOTYPE english
                = inr (start plain 1 1 "apple" NOTYPE english))
      by (vm_compute; reflexivity).
    assert (K : has english MAT_CHECK_KEYS = false)
      by (vm_compute; reflexivity).
    assert (F : mc_final (search_start "apple" english
                            (start plain 1 1 "apple" NOTYPE english)) = 0)
      by (vm_compute; reflexivity).
    pose proof (match_decisions plain 1 1 "apple" english _ S K F) as T.
    cbv zeta in T.
    assert (E : filter
                  (exact_accepted plain
                     (search_start "apple" english
                        (start plain 1 1 "apple" NOTYPE english)))
                  (all_candidates plain 1 NOTYPE
                     (search_start "apple" english
                        (start plain 1 1 "apple" NOTYPE english)))
                = [2]) by (vm_compute; reflexivity).
    rewrite E in T. exact T.
  - assert (S : shortcuts plain 1 1 "north" NOTYPE english
                = inr (start plain 1 1 "north" NOTYPE english))
      by (vm_compute; reflexivity).
    assert (K : has english MAT_CHECK_KEYS = false)
      by (vm_compute; reflexivity).
    assert (F : mc_final (search_start "north" english
                            (start plain 1 1 "north" NOTYPE english)) = 0)
      by (vm_compute; reflexivity).
    pose proof (match_decisions plain 1 1 "north" english _ S K F) as T.
    cbv zeta in T.
    assert (E : filter
                  (exact_accepted plain
                     (search_start "north" english
                        (start plain 1 1 "north" NOTYPE english)))
                  (all_candidates plain 1 NOTYPE
                     (search_start "north" english
                        (start plain 1 1 "north" NOTYPE english)))
                = [4; 5]) by (vm_compute; reflexivity).
    rewrite E in T. exact T.
Defined.

(** X12 at work: for Alice in the Hall the exits of the Hall are scanned
    as room exits, and not as carried exits. *)
Lemma room_exits_scanned_once_witness :
  ~ In (CarriedExits, 4)
      (search_plan plain 1 (location_of plain 1) NOTYPE
         (Z.lor english MAT_CARRIED_EXIT)).
Proof.
  apply (room_exits_scanned_once plain 1 NOTYPE
           (Z.lor english MAT_CARRIED_EXIT) 4).
  vm_compute. tauto.
Defined.

(** X13 at work: relative to an anchor that is no entity, the sword is
    found by its reference, and nothing is found under [MAT_NEAR]. *)
Lemma invalid_anchor_finds_by_reference_only_witness :
  fst (match_result_internal plain 1 (-5) "#6" NOTYPE english)
  = parse_objid plain "#6"
  /\ fst (match_result_internal plain 1 (-5) "apple" NOTYPE
            (Z.lor english MAT_NEAR)) = NOTHING.
Proof.
  split.
  - assert (G : RealGoodObject plain (-5) = false) by reflexivity.
    pose proof (invalid_anchor_finds_by_reference_only plain 1 (-5) "#6"
                  NOTYPE english G) as (_ & T).
    destruct T as [E | (E & _)];
      [vm_compute; reflexivity | vm_compute in E; discriminate | exact E].
  - apply (invalid_anchor_finds_by_reference_only plain 1 (-5) "apple"
             NOTYPE (Z.lor english MAT_NEAR)); vm_compute; reflexivity.
Defined.

(** X14 at work: "my 2nd coin" keeps the possession flag and does not set
    the container flag. *)
Lemma parse_english_narrows_witness :
  has (snd (parse_english "my 2nd coin" english)) MAT_CONTAINER = false.
Proof.
  pose proof (parse_english_narrows "my 2nd coin" english)
    as (_ & _ & T).
  destruct (T 13 ltac:(lia)) as (T1 & _).
  destruct (has (snd (parse_english "my 2nd coin" english)) MAT_CONTAINER)
    eqn:E; [| reflexivity].
  specialize (T1 E). vm_compute in T1. discriminate.
Defined.

(** X15 at work: "111st door" is a count and "111th door" is not. *)
Lemma parse_english_count_token_witness :
  parse_english "111st door" english = (111, "door", english)
  /\ parse_english "111th door" english = (0, "111th door", english).
Proof.
  split.
  - apply (parse_english_count_token 111 "st" "door" english);
      [lia | reflexivity | reflexivity].
  - apply (parse_english_count_token 111 "th" "door" english);
      [lia | reflexivity | reflexivity].
Defined.

(** X16 at work. *)
Lemma parse_english_reads_ordinal_witness :
  parse_english "22nd  coin" english = (22, "coin", english).
Proof.
  apply (parse_english_reads_ordinal 22 " coin" english). lia.
Defined.

(** X17 at work. *)
Lemma counted_phrase_has_ordinal_witness :
  exists tok rest,
    split_blank (fst (restriction_adjectives "my 2nd coin" english))
    = Some (tok, rest)
    /\ "coin" = skip_blanks rest
    /\ snd (parse_english "my 2nd coin" english)
       = snd (restriction_adjectives "my 2nd coin" english)
    /\ 1 <= 2
    /\ 2 = int_of_long (fst (strtoul tok))
    /\ strcasecmp (snd (strtoul tok)) (ordinal_suffix 2) = 0.
Proof.
  apply (counted_phrase_has_ordinal "my 2nd coin" english 2 "coin"
           (snd (parse_english "my 2nd coin" english)));
    [vm_compute; reflexivity | discriminate].
Defined.

(** X18 at work: the exit "north;n" is found by the alias "n" that is
    part of its name. *)
Lemma live_result_is_named_witness :
  fst (match_result_internal plain 1 1 "n" NOTYPE english) = 4
  /\ IsExit plain 4 = true
  /\ check_alias plain "n" (Name plain 4) = true.
Proof.
  assert (S : shortcuts plain 1 1 "n" NOTYPE english
              = inr (start plain 1 1 "n" NOTYPE english))
    by (vm_compute; reflexivity).
  assert (R : fst (match_result_internal plain 1 1 "n" NOTYPE english) = 4)
    by (vm_compute; reflexivity).
  pose proof (live_result_is_named plain 1 1 "n" NOTYPE english _ S) as T.
  cbv zeta in T. rewrite R in T.
  split; [exact R |].
  destruct T as [T | (_ & [T | [(_ & a & T & _) | (T & _)]])];
    [vm_compute; reflexivity | vm_compute in T; discriminate | exact T
    | vm_compute in T; discriminate | vm_compute in T; discriminate].
Defined.

(** X19 at work: "*  Alice" is looked up as "Alice". *)
Lemma match_player_ignores_decoration_witness :
  match_player plain 1 "Alice" true = match_player plain 1 "*  Alice" true
  /\ match_player plain 1 "*Alice" true
     = match_player plain 1 "*  Alice" true.
Proof.
  apply (match_player_ignores_decoration plain 1 "*  Alice" true).
  reflexivity.
Defined.

(** X20 at work: "apple" is found by both functions, and the ambiguous
    "north" is resolved to a live entity by [last_match_result]. *)
Lemma last_match_result_refines_witness :
  last_match_result plain 1 "apple" NOTYPE english
  = match_result plain 1 "apple" NOTYPE english
  /\ (fst (last_match_result plain 1 "north" NOTYPE english) = AMBIGUOUS
      \/ GoodObject plain
           (fst (last_match_result plain 1 "north" NOTYPE english)) = true).
Proof.
  split.
  - apply (last_match_result_refines plain 1 "apple" NOTYPE english).
    vm_compute. discriminate.
  - apply (last_match_result_refines plain 1 "north" NOTYPE english).
    vm_compute. reflexivity.
Defined.
